(** * unplugin-vue-i18n-dts-generation: the rebuild pipeline

    A shallow embedding of [src/core/rebuild-manager.ts] (class
    [RebuildManager]: debounce bookkeeping, the rebuild pipeline and the
    module invalidation step), of the JSON values that flow through it, and
    of the two built-ins [JSON.stringify] and [JSON.parse] that the pipeline
    and the virtual-module loader rely on.

    Conventions.
    - JavaScript strings are [string]; a character stands for one code
      unit below 256.
    - A JavaScript object used as a mapping is an association list in
      property-creation order with pairwise distinct keys ([well_formed]).
      Integer-like keys, which JavaScript enumerates first and in numeric
      order, are not told apart from the other keys.
    - A JavaScript number is an integer, NaN or an infinity ([number]).
    - [Date.now()] is an integer number of milliseconds ([Z]).
    - Methods of the manager read and write a [World]: the fields of the
      instance and, around it, the event loop (clock, armed timers,
      promises) and the trace of observable effects (calls of the
      collaborators, of the logger, of the environment, of the completion
      callback).
    - An [await] on a collaborator runs the collaborator to completion:
      the event loop is single-threaded and the debounce bookkeeping
      ([lastRebuildCall], [rebuildTimer]) is only touched synchronously, at
      call time and at timer expiry.
    - The timings measured with [performance.now()] only appear in log
      texts and are left out.
    - The methods of the logger, of the environment and the completion
      callback are taken to return: a call of one of them is an event of
      the trace and does not throw.  The collaborators that produce the
      data ([readAndGroup], [generateFiles]) may throw. *)

From Stdlib Require Import Decimal DecimalString.
From Stdlib Require DecimalN DecimalFacts.
From Stdlib Require Import String Ascii List ZArith NArith Bool Lia Arith.
From Stdlib Require Import Permutation Sorted RelationClasses.
From Stdlib Require Import OrdersEx.
Import ListNotations.

Local Open Scope string_scope.
Local Open Scope list_scope.

(* ===================================================================== *)
(** * JSON values *)
(* ===================================================================== *)

(** The [number] case of [JSONValue].  Only the part of IEEE-754 that the
    serializer distinguishes is kept: integers (printed in decimal) and the
    three non-finite values (printed as [null]).  Fractions and negative
    zero are outside the embedding. *)
Inductive number : Type :=
| NInt (z : Z)
| NNaN
| NInfinity (negative : bool).

(** [type JSONValue = null | boolean | number | string | JSONValue[] |
    { [key: string]: JSONValue }]. *)
Unset Elimination Schemes.
Inductive JSONValue : Type :=
| JNull
| JBool (b : bool)
| JNumber (n : number)
| JString (s : string)
| JArray (items : list JSONValue)
| JObject (members : list (string * JSONValue)).
Set Elimination Schemes.

(** Induction over the nested lists. *)
Section JSONValue_induction.
Variable P : JSONValue -> Prop.
Hypothesis Hnull : P JNull.
Hypothesis Hbool : forall b, P (JBool b).
Hypothesis Hnumber : forall n, P (JNumber n).
Hypothesis Hstring : forall s, P (JString s).
Hypothesis Harray : forall items, Forall P items -> P (JArray items).
Hypothesis Hobject :
  forall members, Forall (fun kv => P (snd kv)) members -> P (JObject members).

Fixpoint JSONValue_nested_ind (v : JSONValue) : P v :=
  match v with
  | JNull => Hnull
  | JBool b => Hbool b
  | JNumber n => Hnumber n
  | JString s => Hstring s
  | JArray items =>
      Harray items
        ((fix go (l : list JSONValue) : Forall P l :=
            match l with
            | [] => Forall_nil _
            | x :: l' => Forall_cons x (JSONValue_nested_ind x) (go l')
            end) items)
  | JObject members =>
      Hobject members
        ((fix go (l : list (string * JSONValue))
            : Forall (fun kv => P (snd kv)) l :=
            match l with
            | [] => Forall_nil _
            | kv :: l' =>
                Forall_cons kv
                  (match kv as p return P (snd p) with
                   | (_, x) => JSONValue_nested_ind x
                   end) (go l')
            end) members)
  end.
End JSONValue_induction.

Definition keys (members : list (string * JSONValue)) : list string :=
  map fst members.

(** Number.isSafeInteger *)
Definition isSafeInteger (z : Z) : Prop :=
  (- (2 ^ 53 - 1) <= z <= 2 ^ 53 - 1)%Z.

(** A number JSON can carry. *)
Definition finite (n : number) : Prop :=
  match n with
  | NInt z => isSafeInteger z
  | NNaN | NInfinity _ => False
  end.

(** Conjunction over a list, as a function, so that it can be used under
    the recursion of [JSONValue]. *)
Fixpoint All {A : Type} (P : A -> Prop) (l : list A) : Prop :=
  match l with
  | [] => True
  | x :: l' => P x /\ All P l'
  end.

(** [well_formed v]: [v] denotes a JavaScript value (own property names of
    an object are pairwise distinct). *)
Fixpoint well_formed (v : JSONValue) : Prop :=
  match v with
  | JArray items => All well_formed items
  | JObject members =>
      NoDup (keys members) /\
      All (fun kv => match kv with (_, x) => well_formed x end) members
  | _ => True
  end.

(** [finite_numbers v]: no numeric leaf of [v] is NaN or an infinity. *)
Fixpoint finite_numbers (v : JSONValue) : Prop :=
  match v with
  | JNumber n => finite n
  | JArray items => All finite_numbers items
  | JObject members =>
      All (fun kv => match kv with (_, x) => finite_numbers x end) members
  | _ => True
  end.

(* ===================================================================== *)
(** * Canonicalizer *)
(* ===================================================================== *)

(** The default comparison of [Array.prototype.sort] on strings: code
    units, lexicographically.  The sort is stable. *)
Definition key_ltb (a b : string) : bool :=
  match String_as_OT.compare a b with
  | Lt => true
  | _ => false
  end.

Fixpoint insert_member (kv : string * JSONValue)
    (sorted : list (string * JSONValue)) : list (string * JSONValue) :=
  match sorted with
  | [] => [kv]
  | kv' :: rest =>
      if key_ltb (fst kv') (fst kv) then kv' :: insert_member kv rest
      else kv :: sorted
  end.

Definition sort_members (members : list (string * JSONValue))
  : list (string * JSONValue) :=
  fold_right insert_member [] members.

(** Modelled from the spec: [canonicalize] of [src/utils], which is not
    among the sources.  Spec 4.1: for a mapping, a new mapping with the same
    key/value pairs, keys visited in sorted order, each value canonicalized;
    for a sequence, a new sequence of the same length and order with each
    element canonicalized; scalars unchanged. *)
Fixpoint canonicalize (v : JSONValue) : JSONValue :=
  match v with
  | JArray items => JArray (map canonicalize items)
  | JObject members =>
      JObject (sort_members
                 (map (fun kv => match kv with
                                 | (k, x) => (k, canonicalize x)
                                 end) members))
  | _ => v
  end.

(* ===================================================================== *)
(** * JSON.stringify *)
(* ===================================================================== *)

Definition hex_digit (n : N) : ascii :=
  match n with
  | 0 => "0" | 1 => "1" | 2 => "2" | 3 => "3" | 4 => "4"
  | 5 => "5" | 6 => "6" | 7 => "7" | 8 => "8" | 9 => "9"
  | 10 => "a" | 11 => "b" | 12 => "c" | 13 => "d" | 14 => "e"
  | _ => "f"
  end%N%char.

(** One code unit inside QuoteJSONString: the short escapes, [\u00xx] for
    the other control characters, the character itself otherwise. *)
Definition quote_char (c : ascii) : string :=
  let n := N_of_ascii c in
  if (n =? 8)%N then "\b"
  else if (n =? 9)%N then "\t"
  else if (n =? 10)%N then "\n"
  else if (n =? 12)%N then "\f"
  else if (n =? 13)%N then "\r"
  else if (n =? 34)%N then String "\" (String "034" "")
  else if (n =? 92)%N then "\\"
  else if (n <? 32)%N then
    String "\" (String "u" (String "0" (String "0"
      (String (hex_digit (n / 16)) (String (hex_digit (n mod 16)) "")))))
  else String c "".

Fixpoint quote_chars (s : string) : string :=
  match s with
  | EmptyString => EmptyString
  | String c s' => (quote_char c ++ quote_chars s')%string
  end.

(** QuoteJSONString *)
Definition quote (s : string) : string :=
  String "034" (quote_chars s ++ String "034" "")%string.

(** Number::toString for an integer, [null] for a non-finite number. *)
Definition number_to_json (n : number) : string :=
  match n with
  | NInt z =>
      match z with
      | Zneg p => String "-" (NilZero.string_of_uint (N.to_uint (Npos p)))
      | _ => NilZero.string_of_uint (N.to_uint (Z.to_N z))
      end
  | NNaN | NInfinity _ => "null"
  end.

(** Array.prototype.join *)
Fixpoint join (sep : string) (parts : list string) : string :=
  match parts with
  | [] => ""
  | [p] => p
  | p :: rest => (p ++ sep ++ join sep rest)%string
  end.

(** [JSON.stringify(v)] with no replacer and no indentation. *)
Fixpoint JSON_stringify (v : JSONValue) : string :=
  match v with
  | JNull => "null"
  | JBool true => "true"
  | JBool false => "false"
  | JNumber n => number_to_json n
  | JString s => quote s
  | JArray items =>
      ("[" ++ join "," (map JSON_stringify items) ++ "]")%string
  | JObject members =>
      ("{" ++ join ","
                (map (fun kv =>
                        match kv with
                        | (k, x) => (quote k ++ ":" ++ JSON_stringify x)%string
                        end) members) ++ "}")%string
  end.

(* ===================================================================== *)
(** * JSON.parse *)
(* ===================================================================== *)

(** Outcome of parsing.  [SyntaxError] is the exception [JSON.parse]
    throws.  [Unsupported] marks text whose value lies outside the embedding
    (a fraction or exponent, negative zero, an escaped code unit above 255):
    the model makes no statement about it. *)
Inductive ParseResult (A : Type) : Type :=
| Parsed (a : A)
| SyntaxError
| Unsupported
| OutOfFuel.
Arguments Parsed {A} a.
Arguments SyntaxError {A}.
Arguments Unsupported {A}.
Arguments OutOfFuel {A}.

Definition parse_bind {A B : Type} (r : ParseResult A)
    (k : A -> ParseResult B) : ParseResult B :=
  match r with
  | Parsed a => k a
  | SyntaxError => SyntaxError
  | Unsupported => Unsupported
  | OutOfFuel => OutOfFuel
  end.

Definition is_ws (c : ascii) : bool :=
  let n := N_of_ascii c in
  ((n =? 32) || (n =? 9) || (n =? 10) || (n =? 13))%N.

Fixpoint skip_ws (s : string) : string :=
  match s with
  | EmptyString => EmptyString
  | String c s' => if is_ws c then skip_ws s' else s
  end.

Definition is_digit (c : ascii) : bool :=
  let n := N_of_ascii c in ((48 <=? n) && (n <=? 57))%N.

Definition hex_value (c : ascii) : option N :=
  let n := N_of_ascii c in
  if ((48 <=? n) && (n <=? 57))%N then Some (n - 48)%N
  else if ((97 <=? n) && (n <=? 102))%N then Some (n - 87)%N
  else if ((65 <=? n) && (n <=? 70))%N then Some (n - 55)%N
  else None.

Definition push_char (c : ascii) (r : ParseResult (string * string))
  : ParseResult (string * string) :=
  parse_bind r (fun p => Parsed (String c (fst p), snd p)).

(** The characters of a string literal, after its opening quote, up to and
    including the closing quote. *)
Fixpoint parse_chars (s : string) : ParseResult (string * string) :=
  match s with
  | EmptyString => SyntaxError
  | String c s' =>
      let n := N_of_ascii c in
      if (n =? 34)%N then Parsed (EmptyString, s')
      else if (n =? 92)%N then
        match s' with
        | EmptyString => SyntaxError
        | String e s'' =>
            let m := N_of_ascii e in
            if (m =? 34)%N then push_char e (parse_chars s'')
            else if (m =? 92)%N then push_char e (parse_chars s'')
            else if (m =? 47)%N then push_char e (parse_chars s'')
            else if (m =? 98)%N then push_char (ascii_of_N 8) (parse_chars s'')
            else if (m =? 102)%N then push_char (ascii_of_N 12) (parse_chars s'')
            else if (m =? 110)%N then push_char (ascii_of_N 10) (parse_chars s'')
            else if (m =? 114)%N then push_char (ascii_of_N 13) (parse_chars s'')
            else if (m =? 116)%N then push_char (ascii_of_N 9) (parse_chars s'')
            else if (m =? 117)%N then
              match s'' with
              | String h1 (String h2 (String h3 (String h4 s3))) =>
                  match hex_value h1, hex_value h2, hex_value h3, hex_value h4 with
                  | Some a, Some b, Some c', Some d =>
                      let u := (((a * 16 + b) * 16 + c') * 16 + d)%N in
                      if (u <? 256)%N
                      then push_char (ascii_of_N u) (parse_chars s3)
                      else Unsupported
                  | _, _, _, _ => SyntaxError
                  end
              | _ => SyntaxError
              end
            else SyntaxError
        end
      else if (n <? 32)%N then SyntaxError
      else push_char c (parse_chars s')
  end.

Definition digit_of (c : ascii) (d : uint) : uint :=
  match N_of_ascii c with
  | 48 => D0 d | 49 => D1 d | 50 => D2 d | 51 => D3 d | 52 => D4 d
  | 53 => D5 d | 54 => D6 d | 55 => D7 d | 56 => D8 d | _ => D9 d
  end%N.

(** The longest run of decimal digits at the head of [s]. *)
Fixpoint scan_digits (s : string) : uint * string :=
  match s with
  | EmptyString => (Nil, EmptyString)
  | String c s' =>
      if is_digit c
      then let (d, rest) := scan_digits s' in (digit_of c d, rest)
      else (Nil, s)
  end.

Definition starts_fraction_or_exponent (s : string) : bool :=
  match s with
  | EmptyString => false
  | String c _ =>
      let n := N_of_ascii c in ((n =? 46) || (n =? 101) || (n =? 69))%N
  end.

(** The integer part of a JSON number: [0] or a digit run without a
    leading zero. *)
Definition parse_int (negative : bool) (s : string)
  : ParseResult (number * string) :=
  match scan_digits s with
  | (Nil, _) => SyntaxError
  | (D0 (D0 _ | D1 _ | D2 _ | D3 _ | D4 _ | D5 _ | D6 _ | D7 _ | D8 _ | D9 _), _) =>
      SyntaxError
  | (d, rest) =>
      if starts_fraction_or_exponent rest then Unsupported
      else
        let n := N.of_uint d in
        if negative then
          if (n =? 0)%N then Unsupported else Parsed (NInt (- Z.of_N n), rest)
        else Parsed (NInt (Z.of_N n), rest)
  end.

Definition parse_number (s : string) : ParseResult (number * string) :=
  match s with
  | String c s' =>
      if (N_of_ascii c =? 45)%N then parse_int true s' else parse_int false s
  | EmptyString => SyntaxError
  end.

Fixpoint strip_prefix (word s : string) : option string :=
  match word with
  | EmptyString => Some s
  | String a word' =>
      match s with
      | EmptyString => None
      | String b s' => if Ascii.eqb a b then strip_prefix word' s' else None
      end
  end.

(** The rest of a literal ([ull], [rue], [alse]). *)
Definition expect (word : string) (s : string) (v : JSONValue)
  : ParseResult (JSONValue * string) :=
  match strip_prefix word s with
  | Some rest => Parsed (v, rest)
  | None => SyntaxError
  end.

(** CreateDataProperty on an ordinary object: an existing key keeps its
    position and takes the new value, a new key goes last. *)
Fixpoint set_property (members : list (string * JSONValue))
    (k : string) (x : JSONValue) : list (string * JSONValue) :=
  match members with
  | [] => [(k, x)]
  | (k', x') :: rest =>
      if String.eqb k' k then (k', x) :: rest
      else (k', x') :: set_property rest k x
  end.

(** The next character, by code unit, and what follows it. *)
Definition head_is (n : N) (s : string) : bool :=
  match s with
  | EmptyString => false
  | String c _ => (N_of_ascii c =? n)%N
  end.

Definition tail (s : string) : string :=
  match s with
  | EmptyString => EmptyString
  | String _ s' => s'
  end.

Fixpoint parse_value (fuel : nat) (s : string)
  : ParseResult (JSONValue * string) :=
  match fuel with
  | O => OutOfFuel
  | S fuel' =>
      match skip_ws s with
      | EmptyString => SyntaxError
      | String c rest =>
          let n := N_of_ascii c in
          if (n =? 110)%N then expect "ull" rest JNull
          else if (n =? 116)%N then expect "rue" rest (JBool true)
          else if (n =? 102)%N then expect "alse" rest (JBool false)
          else if (n =? 34)%N then
            parse_bind (parse_chars rest)
                       (fun p => Parsed (JString (fst p), snd p))
          else if (n =? 91)%N then
            let r := skip_ws rest in
            if head_is 93 r then Parsed (JArray [], tail r)
            else parse_elements fuel' rest []
          else if (n =? 123)%N then
            let r := skip_ws rest in
            if head_is 125 r then Parsed (JObject [], tail r)
            else parse_members fuel' rest []
          else if ((n =? 45) || is_digit c)%N then
            parse_bind (parse_number (String c rest))
                       (fun p => Parsed (JNumber (fst p), snd p))
          else SyntaxError
      end
  end

with parse_elements (fuel : nat) (s : string) (acc : list JSONValue)
  : ParseResult (JSONValue * string) :=
  match fuel with
  | O => OutOfFuel
  | S fuel' =>
      parse_bind (parse_value fuel' s) (fun p =>
        let r := skip_ws (snd p) in
        if head_is 44 r then parse_elements fuel' (tail r) (acc ++ [fst p])
        else if head_is 93 r then Parsed (JArray (acc ++ [fst p]), tail r)
        else SyntaxError)
  end

with parse_members (fuel : nat) (s : string)
    (acc : list (string * JSONValue)) : ParseResult (JSONValue * string) :=
  match fuel with
  | O => OutOfFuel
  | S fuel' =>
      let r := skip_ws s in
      if head_is 34 r then
        parse_bind (parse_chars (tail r)) (fun kp =>
          let r1 := skip_ws (snd kp) in
          if head_is 58 r1 then
            parse_bind (parse_value fuel' (tail r1)) (fun p =>
              let r2 := skip_ws (snd p) in
              if head_is 44 r2 then
                parse_members fuel' (tail r2)
                              (set_property acc (fst kp) (fst p))
              else if head_is 125 r2 then
                Parsed (JObject (set_property acc (fst kp) (fst p)), tail r2)
              else SyntaxError)
          else SyntaxError)
      else SyntaxError
  end.

(** [JSON.parse(text)] with no reviver.  The parser spends at most two
    units of fuel per character, so it never runs out. *)
Definition JSON_parse (text : string) : ParseResult JSONValue :=
  parse_bind (parse_value (S (2 * String.length text)) text) (fun p =>
    match skip_ws (snd p) with
    | EmptyString => Parsed (fst p)
    | _ => SyntaxError
    end).

(* ===================================================================== *)
(** * The host: module nodes, environments, collaborators *)
(* ===================================================================== *)

(** vite's [EnvironmentModuleNode], the fields the manager reads. *)
Record EnvironmentModuleNode : Type := {
  id : option string;          (* string | null *)
  url : string;
  type : string
}.

(** vite's [ViteDevServer]: the manager only tests the reference. *)
Inductive ViteDevServer : Type := viteDevServer.

(** vite's [DevEnvironment] as the manager reaches into it, through
    optional chaining: whether [moduleGraph] and [hot] are there. *)
Record DevEnvironment : Type := {
  name : string;
  moduleGraph : bool;
  hot : bool
}.

Definition Error : Type := string.

(** A call either returns or throws. *)
Inductive Outcome (A : Type) : Type :=
| Return (a : A)
| Throw (e : Error).
Arguments Return {A} a.
Arguments Throw {A} e.

(** [stats] of [FileManager.readAndGroup] (timings left out). *)
Record ReadStats : Type := {
  filesRead : nat;
  totalFiles : nat
}.

(** Result of [GenerationCoordinator.generateFiles] (timings left out). *)
Record GenerationResult : Type := {
  filesWritten : nat;
  generatedTotalFiles : nat;
  filesList : list string
}.

(** The two collaborators.  What they answer depends on the files on disk
    when they are called, hence on the time of the call. *)
Record FileManager : Type := {
  readAndGroup : Z -> Outcome (list (string * JSONValue) * ReadStats)
}.

Record GenerationCoordinator : Type := {
  generateFiles : Z -> JSONValue -> string -> Outcome GenerationResult
}.

(** [RebuildManagerOptions]; [logger] and [onRebuildComplete] are
    optional, what is recorded is whether they are configured. *)
Record RebuildManagerOptions : Type := {
  fileManager : FileManager;
  generationCoordinator : GenerationCoordinator;
  root : string;
  logger : bool;
  onRebuildComplete : bool
}.

(** What [rebuild] returns. *)
Record RebuildResult : Type := {
  modules : list EnvironmentModuleNode;
  grouped : JSONValue;
  jsonText : string
}.

(** What [onRebuildComplete] receives; [modules] is optional there. *)
Record RebuildCache : Type := {
  cache_modules : option (list EnvironmentModuleNode);
  cache_grouped : JSONValue;
  cache_jsonText : string
}.

(** The texts the manager logs, by template. *)
Inductive LogMessage : Type :=
| MsgReadAndGroup (stats : ReadStats)
| MsgGenerated (result : GenerationResult)
| MsgRebuildComplete (reason : string) (locales : list string)
| MsgNotFound (hasServerRef hasResolvedVirtualId : bool)
| MsgReload (virtualId : string) (modulesInfo : string)
| MsgModuleNotFound (virtualId : string).

(** Observable effects, in the order they happen. *)
Inductive Event : Type :=
| EvReadAndGroup
| EvGenerateFiles (document : JSONValue) (rootPath : string)
| EvInvalidateAll (env : string)
| EvHotSendFullReload (env : string)
| EvLoggerInfo (m : LogMessage)
| EvLoggerWarn (m : LogMessage)
| EvOnRebuildComplete (cache : RebuildCache)
| EvUnhandledRejection (e : Error).

Inductive PromiseState : Type :=
| Pending
| Fulfilled (r : RebuildResult)
| Rejected (e : Error).

(** An armed [setTimeout]: the closure of [debouncedRebuild]'s callback is
    its captured [reason], [modules] and [resolve]. *)
Record Timer : Type := {
  timer_id : nat;
  due : Z;
  timer_reason : string;
  timer_modules : list EnvironmentModuleNode;
  timer_resolve : nat
}.

(** The fields of a [RebuildManager] instance. *)
Record RebuildManager : Type := {
  rebuildTimer : option nat;
  lastRebuildCall : Z;
  serverRef : option ViteDevServer;
  resolvedVirtualId : option string;
  environment : option DevEnvironment
}.

(** The event loop around it. *)
Record Host : Type := {
  clock : Z;                       (* Date.now() *)
  timers : list Timer;             (* armed, in arming order *)
  next_timer : nat;
  promises : list PromiseState;    (* by promise number *)
  trace : list Event
}.

Record World : Type := {
  this : RebuildManager;
  host : Host
}.

Definition DEBOUNCE_MS : Z := 300.
Definition MAX_WAIT_MS : Z := 2000.

(** ** Field updates *)

Definition set_rebuildTimer (t : option nat) (w : World) : World :=
  {| this := {| rebuildTimer := t;
                lastRebuildCall := lastRebuildCall (this w);
                serverRef := serverRef (this w);
                resolvedVirtualId := resolvedVirtualId (this w);
                environment := environment (this w) |};
     host := host w |}.

Definition set_lastRebuildCall (t : Z) (w : World) : World :=
  {| this := {| rebuildTimer := rebuildTimer (this w);
                lastRebuildCall := t;
                serverRef := serverRef (this w);
                resolvedVirtualId := resolvedVirtualId (this w);
                environment := environment (this w) |};
     host := host w |}.

Definition set_clock (t : Z) (w : World) : World :=
  {| this := this w;
     host := {| clock := t;
                timers := timers (host w);
                next_timer := next_timer (host w);
                promises := promises (host w);
                trace := trace (host w) |} |}.

Definition set_timers (ts : list Timer) (w : World) : World :=
  {| this := this w;
     host := {| clock := clock (host w);
                timers := ts;
                next_timer := next_timer (host w);
                promises := promises (host w);
                trace := trace (host w) |} |}.

Definition set_next_timer (n : nat) (w : World) : World :=
  {| this := this w;
     host := {| clock := clock (host w);
                timers := timers (host w);
                next_timer := n;
                promises := promises (host w);
                trace := trace (host w) |} |}.

Definition set_promises (ps : list PromiseState) (w : World) : World :=
  {| this := this w;
     host := {| clock := clock (host w);
                timers := timers (host w);
                next_timer := next_timer (host w);
                promises := ps;
                trace := trace (host w) |} |}.

Definition emit (e : Event) (w : World) : World :=
  {| this := this w;
     host := {| clock := clock (host w);
                timers := timers (host w);
                next_timer := next_timer (host w);
                promises := promises (host w);
                trace := trace (host w) ++ [e] |} |}.

(** ** Computations that read and write the world and may throw *)

Definition M (A : Type) : Type := World -> Outcome A * World.

Definition ret {A : Type} (a : A) : M A := fun w => (Return a, w).

Definition bind {A B : Type} (c : M A) (k : A -> M B) : M B :=
  fun w =>
    match c w with
    | (Return a, w') => k a w'
    | (Throw e, w') => (Throw e, w')
    end.

Definition throw {A : Type} (e : Error) : M A := fun w => (Throw e, w).

Definition effect (e : Event) : M unit := fun w => (Return tt, emit e w).

Definition read {A : Type} (f : World -> A) : M A := fun w => (Return (f w), w).

(** A collaborator's answer, awaited. *)
Definition await {A : Type} (o : Outcome A) : M A := fun w => (o, w).

Definition when (b : bool) (c : M unit) : M unit := if b then c else ret tt.

Declare Scope rebuild_scope.
Delimit Scope rebuild_scope with rebuild.
Notation "x <- c ;; k" := (bind c (fun x => k))
  (at level 61, c at next level, right associativity) : rebuild_scope.
Notation "c ;; k" := (bind c (fun _ => k))
  (at level 61, right associativity) : rebuild_scope.

(* ===================================================================== *)
(** * RebuildManager *)
(* ===================================================================== *)

(** String.prototype.includes *)
Definition includes (s searchString : string) : bool :=
  match index 0 searchString s with
  | Some _ => true
  | None => false
  end.

(** The filter callback of [invalidateModule]:
    [(m) => m.id?.includes(searchString)]. *)
Definition references (searchString : string) (m : EnvironmentModuleNode)
  : bool :=
  match id m with
  | Some s => includes s searchString
  | None => false
  end.

(** ToBoolean of an optional object reference. *)
Definition is_set {A : Type} (x : option A) : bool :=
  match x with
  | Some _ => true
  | None => false
  end.

(** ToBoolean of an optional string: [undefined] and the empty string are
    falsy. *)
Definition is_truthy_string (x : option string) : bool :=
  match x with
  | Some EmptyString | None => false
  | Some _ => true
  end.

(** ToBoolean of an array: an array is an object, and every object is
    truthy, the empty array too. *)
Definition is_truthy_array {A : Type} (a : list A) : bool := true.

(** [`${m.id} | ${m.url} | ${m.type}`] *)
Definition module_info (m : EnvironmentModuleNode) : string :=
  ((match id m with Some s => s | None => "null" end)
     ++ " | " ++ url m ++ " | " ++ type m)%string.

(** Object.keys *)
Definition Object_keys (v : JSONValue) : list string :=
  match v with
  | JObject members => keys members
  | _ => []
  end.

Definition is_pipeline_start (e : Event) : bool :=
  match e with
  | EvReadAndGroup => true
  | _ => false
  end.

Section RebuildManager.

Variable options : RebuildManagerOptions.

Local Open Scope rebuild_scope.

(** [this.options.logger?.info(...)] and [.warn(...)] *)
Definition logger_info (m : LogMessage) : M unit :=
  when (logger options) (effect (EvLoggerInfo m)).

Definition logger_warn (m : LogMessage) : M unit :=
  when (logger options) (effect (EvLoggerWarn m)).

(** [new RebuildManager(options)], at time [t0] of an event loop with
    nothing scheduled. *)
Definition create (t0 : Z) : World :=
  {| this := {| rebuildTimer := None;
                lastRebuildCall := 0;
                serverRef := None;
                resolvedVirtualId := None;
                environment := None |};
     host := {| clock := t0;
                timers := [];
                next_timer := 1;
                promises := [];
                trace := [] |} |}.

(** [setServer(server, resolvedVirtualId)] *)
Definition setServer (server : ViteDevServer) (virtualId : string)
    (w : World) : World :=
  {| this := {| rebuildTimer := rebuildTimer (this w);
                lastRebuildCall := lastRebuildCall (this w);
                serverRef := Some server;
                resolvedVirtualId := Some virtualId;
                environment := environment (this w) |};
     host := host w |}.

(** [setEnv(environment)] *)
Definition setEnv (env : DevEnvironment) (w : World) : World :=
  {| this := {| rebuildTimer := rebuildTimer (this w);
                lastRebuildCall := lastRebuildCall (this w);
                serverRef := serverRef (this w);
                resolvedVirtualId := resolvedVirtualId (this w);
                environment := Some env |};
     host := host w |}.

(** [await this.environment?.moduleGraph?.invalidateAll()] *)
Definition environment_invalidateAll : M unit :=
  env <- read (fun w => environment (this w)) ;;
  match env with
  | Some e => when (moduleGraph e) (effect (EvInvalidateAll (name e)))
  | None => ret tt
  end.

(** [this.environment?.hot?.send({type: 'full-reload'})] *)
Definition environment_hot_send_full_reload : M unit :=
  env <- read (fun w => environment (this w)) ;;
  match env with
  | Some e => when (hot e) (effect (EvHotSendFullReload (name e)))
  | None => ret tt
  end.

(** [invalidateModule(modules)]; [None] is [undefined]. *)
Definition invalidateModule (mods : list EnvironmentModuleNode)
  : M (option (list EnvironmentModuleNode)) :=
  server <- read (fun w => serverRef (this w)) ;;
  virtualId <- read (fun w => resolvedVirtualId (this w)) ;;
  if negb (is_set server) || negb (is_truthy_string virtualId) then
    logger_warn (MsgNotFound (is_set server) (is_truthy_string virtualId)) ;;
    ret None
  else
    let searchString :=
      match virtualId with Some v => v | None => " " end in
    let mod_ := filter (references searchString) mods in
    (if is_truthy_array mod_ then
       environment_invalidateAll ;;
       environment_hot_send_full_reload ;;
       logger_info
         (MsgReload searchString (join "," (map module_info mod_)))
     else
       logger_warn (MsgModuleNotFound searchString)) ;;
    ret (Some mod_).

(** [rebuild(reason, modules)] *)
Definition rebuild (reason : string) (mods : list EnvironmentModuleNode)
  : M RebuildResult :=
  t <- read (fun w => clock (host w)) ;;
  (* Read and group files: the call is recorded, then awaited *)
  effect EvReadAndGroup ;;
  read_ <- await (readAndGroup (fileManager options) t) ;;
  let grouped_ := fst read_ in
  let stats := snd read_ in
  when ((0 <? filesRead stats)%nat || logger options)
       (logger_info (MsgReadAndGroup stats)) ;;
  (* Canonicalize once and cache *)
  let groupedCache := canonicalize (JObject grouped_) in
  let jsonTextCache := JSON_stringify groupedCache in
  (* Generate TypeScript definition files *)
  effect (EvGenerateFiles groupedCache (root options)) ;;
  generationResult <-
    await (generateFiles (generationCoordinator options) t
                         groupedCache (root options)) ;;
  logger_info (MsgGenerated generationResult) ;;
  (* Invalidate hot module *)
  modulesResult <- invalidateModule mods ;;
  (* Notify listeners *)
  when (onRebuildComplete options)
       (effect (EvOnRebuildComplete
                  {| cache_grouped := groupedCache;
                     cache_modules := modulesResult;
                     cache_jsonText := jsonTextCache |})) ;;
  logger_info (MsgRebuildComplete reason (Object_keys groupedCache)) ;;
  ret {| modules := match modulesResult with Some l => l | None => [] end;
         grouped := groupedCache;
         jsonText := jsonTextCache |}.

(** ** Timers and promises *)

(** [clearTimeout(t)] *)
Definition clearTimeout (t : nat) (w : World) : World :=
  set_timers (filter (fun x => negb (timer_id x =? t)%nat) (timers (host w))) w.

(** [new Promise(...)]: a fresh pending promise, by number. *)
Definition new_promise (w : World) : nat * World :=
  (List.length (promises (host w)),
   set_promises (promises (host w) ++ [Pending]) w).

Fixpoint update_nth {A : Type} (n : nat) (a : A) (l : list A) : list A :=
  match l, n with
  | [], _ => []
  | _ :: l', O => a :: l'
  | x :: l', S n' => x :: update_nth n' a l'
  end.

(** Settling a promise; a settled promise stays as it is. *)
Definition settle (p : nat) (s : PromiseState) (w : World) : World :=
  match nth_error (promises (host w)) p with
  | Some Pending => set_promises (update_nth p s (promises (host w))) w
  | _ => w
  end.

Definition promise_state (p : nat) (w : World) : option PromiseState :=
  nth_error (promises (host w)) p.

(** [setTimeout(callback, DEBOUNCE_MS)] with the callback of
    [debouncedRebuild]. *)
Definition setTimeout (reason : string) (mods : list EnvironmentModuleNode)
    (resolve : nat) (delay : Z) (w : World) : nat * World :=
  let t := next_timer (host w) in
  (t,
   set_next_timer (S t)
     (set_timers
        (timers (host w) ++
           [{| timer_id := t;
               due := clock (host w) + delay;
               timer_reason := reason;
               timer_modules := mods;
               timer_resolve := resolve |}]) w)).

(** [debouncedRebuild(reason, modules)]: the promise it returns. *)
Definition debouncedRebuild (reason : string)
    (mods : list EnvironmentModuleNode) (w : World) : nat * World :=
  let now := clock (host w) in
  let w1 :=
    if (lastRebuildCall (this w) =? 0)%Z then set_lastRebuildCall now w
    else w in
  let w2 :=
    match rebuildTimer (this w1) with
    | Some t => clearTimeout t w1
    | None => w1
    end in
  (* If we've been waiting too long, rebuild immediately *)
  if (now - lastRebuildCall (this w2) >=? MAX_WAIT_MS)%Z then
    let w3 := set_lastRebuildCall 0 w2 in
    let (result, w4) := rebuild reason mods w3 in
    let (p, w5) := new_promise w4 in
    (p, settle p (match result with
                  | Return r => Fulfilled r
                  | Throw e => Rejected e
                  end) w5)
  else
    (* Otherwise, schedule a debounced rebuild *)
    let (p, w3) := new_promise w2 in
    let (t, w4) := setTimeout reason mods p DEBOUNCE_MS w3 in
    (p, set_rebuildTimer (Some t) w4).

(** The timer callback of [debouncedRebuild], run at expiry:
    [this.lastRebuildCall = 0; resolve(await this.rebuild(...))].
    When [rebuild] throws, the callback's own promise rejects with nobody
    listening, and [resolve] is not reached. *)
Definition run_timer (t : Timer) (w : World) : World :=
  let w1 := set_lastRebuildCall 0 w in
  match rebuild (timer_reason t) (timer_modules t) w1 with
  | (Return r, w2) => settle (timer_resolve t) (Fulfilled r) w2
  | (Throw e, w2) => emit (EvUnhandledRejection e) w2
  end.

(** One armed timer expires. *)
Definition expire (t : Timer) (w : World) : World :=
  run_timer t
    (set_clock (Z.max (clock (host w)) (due t))
       (set_timers
          (filter (fun x => negb (timer_id x =? timer_id t)%nat)
                  (timers (host w))) w)).

(** The event loop runs until the clock reads [t]: the timers due by
    then expire, in arming order (all delays are equal). *)
Definition advance_to (t : Z) (w : World) : World :=
  set_clock t
    (fold_left (fun w' x => expire x w')
               (filter (fun x => (due x <=? t)%Z) (timers (host w))) w).

(** The event loop runs until no timer is armed. *)
Definition run_to_idle (w : World) : World :=
  fold_left (fun w' x => expire x w') (timers (host w)) w.

(** A trigger: when [debouncedRebuild] is called, and with what. *)
Record Trigger : Type := {
  at_time : Z;
  trigger_reason : string;
  trigger_modules : list EnvironmentModuleNode
}.

(** A burst of triggers; the promises handed out, in call order. *)
Fixpoint run_triggers (ts : list Trigger) (w : World) : list nat * World :=
  match ts with
  | [] => ([], w)
  | t :: ts' =>
      let (p, w1) :=
        debouncedRebuild (trigger_reason t) (trigger_modules t)
                         (advance_to (at_time t) w) in
      let (ps, w2) := run_triggers ts' w1 in
      (p :: ps, w2)
  end.

(** How often the pipeline was started: every run of [rebuild] begins
    with the call of the aggregation. *)
Definition rebuild_count (w : World) : nat :=
  List.length (filter is_pipeline_start (trace (host w))).

End RebuildManager.

(* ===================================================================== *)
(** * A development session used in the examples *)
(* ===================================================================== *)

Module Session.

(** A manager just constructed. *)
Definition fresh (t0 : Z) : World := create t0.

(** The resolved identifier of the virtual module, as in the test
    suite: a NUL character, then [virtual:vue-i18n-types/messages]. *)
Definition resolvedVirtualJsonId : string :=
  String (ascii_of_nat 0) "virtual:vue-i18n-types/messages".

(** The module list of the hot-update tests. *)
Definition test_modules : list EnvironmentModuleNode :=
  [ {| id := Some "virtual:vue-i18n-types";
       url := "virtual:vue-i18n-types";
       type := "js" |} ].

(** A module node of the virtual module itself. *)
Definition virtual_module : EnvironmentModuleNode :=
  {| id := Some resolvedVirtualJsonId;
     url := "/@id/__x00__virtual:vue-i18n-types/messages";
     type := "js" |}.

Definition client : DevEnvironment :=
  {| name := "client"; moduleGraph := true; hot := true |}.

(** Two locale files, read in this order: [de] before [en], and inside
    [en] the key [Greeting] before [App]. *)
Definition locales : list (string * JSONValue) :=
  [ ("en", JObject [ ("Greeting", JObject [("message", JString "Hi")]);
                     ("App", JObject [("count", JNumber (NInt 3))]) ]);
    ("de", JObject [ ("Greeting", JObject [("message", JString "Hallo")]) ]) ].

(** The same messages with the files read in the other order. *)
Definition locales_reordered : list (string * JSONValue) :=
  [ ("de", JObject [ ("Greeting", JObject [("message", JString "Hallo")]) ]);
    ("en", JObject [ ("App", JObject [("count", JNumber (NInt 3))]);
                     ("Greeting", JObject [("message", JString "Hi")]) ]) ].

(** A locale file (YAML or JSON5) with a number that is not finite. *)
Definition locales_nan : list (string * JSONValue) :=
  [ ("en", JObject [ ("Progress", JObject [("ratio", JNumber NNaN)]) ]) ].

Definition files : FileManager :=
  {| readAndGroup := fun _ =>
       Return (locales, {| filesRead := 2; totalFiles := 2 |}) |}.

Definition unreadable_files : FileManager :=
  {| readAndGroup := fun _ => Throw "ENOENT: no such file or directory" |}.

Definition generator : GenerationCoordinator :=
  {| generateFiles := fun _ _ _ =>
       Return {| filesWritten := 2;
                 generatedTotalFiles := 2;
                 filesList := ["src/i18n/i18n.types.d.ts";
                               "src/i18n/i18n.consts.ts"] |} |}.

Definition options : RebuildManagerOptions :=
  {| fileManager := files;
     generationCoordinator := generator;
     root := "/example";
     logger := true;
     onRebuildComplete := true |}.

Definition options_nan : RebuildManagerOptions :=
  {| fileManager :=
       {| readAndGroup := fun _ =>
            Return (locales_nan, {| filesRead := 1; totalFiles := 1 |}) |};
     generationCoordinator := generator;
     root := "/example";
     logger := true;
     onRebuildComplete := true |}.

Definition options_unreadable : RebuildManagerOptions :=
  {| fileManager := unreadable_files;
     generationCoordinator := generator;
     root := "/example";
     logger := true;
     onRebuildComplete := true |}.

(** After [setServer]. *)
Definition served (t0 : Z) : World :=
  setServer viteDevServer resolvedVirtualJsonId (fresh t0).

(** After [setServer] and [setEnv]. *)
Definition wired (t0 : Z) : World := setEnv client (served t0).

Definition trigger (t : Z) : Trigger :=
  {| at_time := t; trigger_reason := "change";
     trigger_modules := test_modules |}.

End Session.

(* ===================================================================== *)
(** * Vocabulary of the statements *)
(* ===================================================================== *)

(** The events a step added to the trace. *)
Definition emit_all (evs : list Event) (w : World) : World :=
  fold_left (fun w' e => emit e w') evs w.

(** Invalidation proper: the two calls on the environment. *)
Definition is_invalidation (e : Event) : bool :=
  match e with
  | EvInvalidateAll _ | EvHotSendFullReload _ => true
  | _ => false
  end.

Definition is_warning (e : Event) : bool :=
  match e with
  | EvLoggerWarn _ => true
  | _ => false
  end.

Definition is_logging (e : Event) : bool :=
  match e with
  | EvLoggerInfo _ | EvLoggerWarn _ => true
  | _ => false
  end.

(** The server wiring of [setServer] is there: both tests of the guard of
    [invalidateModule] pass. *)
Definition server_wired (w : World) (virtualId : string) : Prop :=
  serverRef (this w) <> None /\
  resolvedVirtualId (this w) = Some virtualId /\
  virtualId <> EmptyString.


Section PipelineEvents.

Variable options : RebuildManagerOptions.

(** What the guarded branch of [invalidateModule] adds to the trace. *)
Definition reload_events (w : World) (virtualId : string)
    (mods : list EnvironmentModuleNode) : list Event :=
  (match environment (this w) with
   | Some e =>
       (if moduleGraph e then [EvInvalidateAll (name e)] else []) ++
       (if hot e then [EvHotSendFullReload (name e)] else [])
   | None => []
   end) ++
  (if logger options
   then [EvLoggerInfo
           (MsgReload virtualId
              (join "," (map module_info
                             (filter (references virtualId) mods))))]
   else []).

(** What [invalidateModule] adds to the trace, and what it returns. *)
Definition invalidation_events (w : World)
    (mods : list EnvironmentModuleNode) : list Event :=
  match serverRef (this w), resolvedVirtualId (this w) with
  | Some _, Some (String c v) => reload_events w (String c v) mods
  | server, virtualId =>
      if logger options
      then [EvLoggerWarn (MsgNotFound (is_set server)
                                      (is_truthy_string virtualId))]
      else []
  end.

Definition invalidation_result (w : World)
    (mods : list EnvironmentModuleNode)
  : option (list EnvironmentModuleNode) :=
  match serverRef (this w), resolvedVirtualId (this w) with
  | Some _, Some (String c v) => Some (filter (references (String c v)) mods)
  | _, _ => None
  end.

(** The events of the first two phases of [rebuild]: the call of the
    aggregation, its log line, the call of the generation on the canonical
    document, its log line. *)
Definition read_and_generate_events (stats : ReadStats)
    (canonical : JSONValue) (generated : GenerationResult) : list Event :=
  [EvReadAndGroup] ++
  (if logger options then [EvLoggerInfo (MsgReadAndGroup stats)] else []) ++
  [EvGenerateFiles canonical (root options)] ++
  (if logger options then [EvLoggerInfo (MsgGenerated generated)] else []).

(** The events after the invalidation: the completion callback and the
    last log line. *)
Definition completion_events (reason : string)
    (cache : RebuildCache) : list Event :=
  (if onRebuildComplete options then [EvOnRebuildComplete cache] else []) ++
  (if logger options
   then [EvLoggerInfo
           (MsgRebuildComplete reason (Object_keys (cache_grouped cache)))]
   else []).

End PipelineEvents.

(** No window is pending: no start recorded, no timer armed. *)
Definition idle (w : World) : Prop :=
  lastRebuildCall (this w) = 0%Z /\ timers (host w) = [].

(** Every armed timer is the one [rebuildTimer] remembers. *)
Definition timers_tracked (w : World) : Prop :=
  forall x, In x (timers (host w)) -> rebuildTimer (this w) = Some (timer_id x).

(** The pending state cleared: no timer armed, no window start. *)
Definition pending_cleared (w : World) : World :=
  set_lastRebuildCall 0 (set_timers [] w).

(** How the promise of an [async] call settles. *)
Definition settled (o : Outcome RebuildResult) : PromiseState :=
  match o with
  | Return r => Fulfilled r
  | Throw e => Rejected e
  end.

(** The time of the last trigger of a burst. *)
Definition last_time (ts : list Trigger) : Z :=
  last (map at_time ts) 0%Z.

(** A burst inside one debounce window: every trigger comes less than
    [DEBOUNCE_MS] before the last one, none after it. *)
Definition coalesced (ts : list Trigger) : Prop :=
  ts <> [] /\
  forall t, In t ts -> (0 <= last_time ts - at_time t < DEBOUNCE_MS)%Z.

(** While a burst lasts until [L]: the armed timers are tracked and due
    after [L], and the window, if started, started less than [MAX_WAIT_MS]
    before [L]. *)
Definition quiet_until (L : Z) (w : World) : Prop :=
  (forall x, In x (timers (host w)) ->
             rebuildTimer (this w) = Some (timer_id x) /\ (L < due x)%Z) /\
  (lastRebuildCall (this w) = 0%Z \/
   (L - lastRebuildCall (this w) < MAX_WAIT_MS)%Z).

(** The world after a call of [debouncedRebuild] at time [t] that arms a
    timer. *)
Definition scheduled (t : Z) (reason : string)
    (mods : list EnvironmentModuleNode) (w : World) : World :=
  {| this := {| rebuildTimer := Some (next_timer (host w));
                lastRebuildCall :=
                  if (lastRebuildCall (this w) =? 0)%Z then t
                  else lastRebuildCall (this w);
                serverRef := serverRef (this w);
                resolvedVirtualId := resolvedVirtualId (this w);
                environment := environment (this w) |};
     host := {| clock := t;
                timers := [ {| timer_id := next_timer (host w);
                               due := t + DEBOUNCE_MS;
                               timer_reason := reason;
                               timer_modules := mods;
                               timer_resolve := List.length (promises (host w)) |} ];
                next_timer := S (next_timer (host w));
                promises := promises (host w) ++ [Pending];
                trace := trace (host w) |} |}.

(** A promise some armed timer will resolve. *)
Definition awaited_by_timer (p : nat) (w : World) : Prop :=
  exists x, In x (timers (host w)) /\ timer_resolve x = p.

(** The world after a burst in which every call of [debouncedRebuild]
    arms a timer. *)
Definition after_burst (ts : list Trigger) (w : World) : World :=
  fold_left (fun w' t =>
               scheduled (at_time t) (trigger_reason t) (trigger_modules t) w')
            ts w.

(** Equality as unordered trees: scalars are equal, sequences are equal
    element by element, mappings have the same keys with equal values, in
    any order. *)
Unset Elimination Schemes.
Inductive unordered_equal : JSONValue -> JSONValue -> Prop :=
| ue_null : unordered_equal JNull JNull
| ue_bool (b : bool) : unordered_equal (JBool b) (JBool b)
| ue_number (n : number) : unordered_equal (JNumber n) (JNumber n)
| ue_string (s : string) : unordered_equal (JString s) (JString s)
| ue_array (items1 items2 : list JSONValue) :
    Forall2 unordered_equal items1 items2 ->
    unordered_equal (JArray items1) (JArray items2)
| ue_object (members1 members members2 : list (string * JSONValue)) :
    Permutation members1 members ->
    Forall2 (fun kv1 kv2 => fst kv1 = fst kv2 /\
                            unordered_equal (snd kv1) (snd kv2))
            members members2 ->
    unordered_equal (JObject members1) (JObject members2).
Set Elimination Schemes.

(** [a] does not come after [b] in key order. *)
Definition key_le (a b : string * JSONValue) : Prop :=
  key_ltb (fst b) (fst a) = false.

(** One member of a mapping, canonicalized. *)
Definition canonicalize_member (kv : string * JSONValue)
  : string * JSONValue :=
  match kv with
  | (k, x) => (k, canonicalize x)
  end.

(** The fuel a value costs the parser: one unit per value and one per
    element or member. *)
Fixpoint size (v : JSONValue) : nat :=
  match v with
  | JArray items => S (fold_right (fun x n => S (size x + n)) 0 items)
  | JObject members =>
      S (fold_right (fun kv n => match kv with
                                 | (_, x) => S (size x + n)
                                 end) 0 members)
  | _ => 1
  end.

(** The characters a serialized value can begin with. *)
Definition value_start (c : ascii) : bool :=
  let n := N_of_ascii c in
  ((n =? 110) || (n =? 116) || (n =? 102) || (n =? 34) || (n =? 91)
   || (n =? 123) || (n =? 45) || is_digit c)%N.

(** What may follow a serialized value: the end of the text, or a
    character that does not continue a number. *)
Definition ends_value (rest : string) : bool :=
  match rest with
  | EmptyString => true
  | String c _ => negb (is_digit c) && negb (starts_fraction_or_exponent rest)
  end.

(** One member of a mapping, serialized. *)
Definition stringify_member (kv : string * JSONValue) : string :=
  match kv with
  | (k, x) => (quote k ++ ":" ++ JSON_stringify x)%string
  end.

(** The statement that a value is read back from its serialization,
    whatever follows it, given fuel for its size. *)
Definition reads_back (v : JSONValue) : Prop :=
  well_formed v -> finite_numbers v ->
  forall (fuel : nat) (rest : string),
    size v <= fuel ->
    ends_value rest = true ->
    parse_value fuel (JSON_stringify v ++ rest)%string = Parsed (v, rest).

(** ** What can happen to a manager

    One step of the event loop around a [RebuildManager]: a call of one of
    its methods, the expiry of an armed timer, or time passing. Timers may
    expire late, so time passes without any obligation to run them. *)
Inductive step (options : RebuildManagerOptions) : World -> World -> Prop :=
| step_setServer (server : ViteDevServer) (virtualId : string) (w : World) :
    step options w (setServer server virtualId w)
| step_setEnv (env : DevEnvironment) (w : World) :
    step options w (setEnv env w)
| step_debouncedRebuild (reason : string)
    (mods : list EnvironmentModuleNode) (w : World) :
    step options w (snd (debouncedRebuild options reason mods w))
| step_rebuild (reason : string) (mods : list EnvironmentModuleNode)
    (w : World) :
    step options w (snd (rebuild options reason mods w))
| step_expire (x : Timer) (w : World) :
    In x (timers (host w)) ->
    step options w (expire options x w)
| step_tick (t : Z) (w : World) :
    step options w (set_clock t w).

(** Any number of steps. *)
Inductive steps (options : RebuildManagerOptions) : World -> World -> Prop :=
| steps_refl (w : World) : steps options w w
| steps_next (w1 w2 w3 : World) :
    step options w1 w2 -> steps options w2 w3 -> steps options w1 w3.

(** The timer discipline of the class: at most one timer is armed, and it
    is the one [rebuildTimer] remembers. *)
Definition one_timer (w : World) : Prop :=
  List.length (timers (host w)) <= 1 /\ timers_tracked w.

(** A pending promise that no armed timer will resolve. *)
Definition orphaned (p : nat) (w : World) : Prop :=
  promise_state p w = Some Pending /\ ~ awaited_by_timer p w.

(** A parser call makes progress: it is not out of fuel, and what it
    leaves is shorter than what it was given. *)
Definition progresses (result : ParseResult (JSONValue * string))
    (s : string) : Prop :=
  result <> OutOfFuel /\
  forall v rest, result = Parsed (v, rest) ->
                 String.length rest < String.length s.

(** Triggers that keep coming: each one less than [DEBOUNCE_MS] after the
    one before, the first of them after [previous]. *)
Fixpoint follow_closely (previous : Z) (ts : list Trigger) : Prop :=
  match ts with
  | [] => True
  | t :: ts' =>
      (0 <= at_time t - previous < DEBOUNCE_MS)%Z /\
      follow_closely (at_time t) ts'
  end.

(** A window is pending since [start]; the timer of the last call, made
    at [latest], is the only one armed. *)
Definition pending_since (start latest : Z) (w : World) : Prop :=
  lastRebuildCall (this w) = start /\
  start <> 0%Z /\
  timers_tracked w /\
  forall x, In x (timers (host w)) -> due x = (latest + DEBOUNCE_MS)%Z.

(* ===================================================================== *)
(** * The reader of the virtual module in the hot-update tests *)
(* ===================================================================== *)

(** [\s] of a regular expression, among the code units below 256: tab,
    line feed, vertical tab, form feed, carriage return, space and
    no-break space. *)
Definition is_regex_space (c : ascii) : bool :=
  let n := N_of_ascii c in
  ((n =? 9) || (n =? 10) || (n =? 11) || (n =? 12) || (n =? 13)
   || (n =? 32) || (n =? 160))%N.

(** What a greedy [\s*] leaves of [s]. *)
Fixpoint skip_regex_space (s : string) : string :=
  match s with
  | EmptyString => EmptyString
  | String c s' => if is_regex_space c then skip_regex_space s' else s
  end.

(** [\s*$] matches the whole of [s]. *)
Fixpoint all_regex_space (s : string) : bool :=
  match s with
  | EmptyString => true
  | String c s' => is_regex_space c && all_regex_space s'
  end.

(** [code.match(re)] where [re] is the words [export default], then
    [\s*], then a group of any number of any characters (flag [s]):
    group 1 of the leftmost match, [None] for [null].  With the [s] flag
    the dot matches every character, so the group runs from the end of the
    white space to the end of the text. *)
Fixpoint match_export_default (code : string) : option string :=
  match strip_prefix "export default" code with
  | Some rest => Some (skip_regex_space rest)
  | None =>
      match code with
      | EmptyString => None
      | String _ code' => match_export_default code'
      end
  end.

(** Whether [/;?\s*$/] matches at the head of [s]: an optional semicolon,
    then white space up to the end of the text. *)
Definition ends_statement (s : string) : bool :=
  match s with
  | EmptyString => true
  | String c s' =>
      if Ascii.eqb c ";" then all_regex_space s' else all_regex_space s
  end.

(** [s.replace(/;?\s*$/, '')]: the leftmost match, which runs to the end
    of [s], is removed. *)
Fixpoint strip_statement_end (s : string) : string :=
  if ends_statement s then EmptyString
  else match s with
       | EmptyString => EmptyString
       | String c s' => String c (strip_statement_end s')
       end.

(** [parseExportedMessages(code)]: it throws its own error when the text
    has no default export, and returns what [JSON.parse] makes of the
    exported text otherwise ([SyntaxError] is the exception of
    [JSON.parse]). *)
Definition parseExportedMessages (code : string)
  : Outcome (ParseResult JSONValue) :=
  match match_export_default code with
  | None => Throw "Unexpected virtual JSON module output"
  | Some group => Return (JSON_parse (strip_statement_end group))
  end.

(* ===================================================================== *)
(** * More vocabulary *)
(* ===================================================================== *)

Definition is_completion (e : Event) : bool :=
  match e with
  | EvOnRebuildComplete _ => true
  | _ => false
  end.

Definition is_unhandled_rejection (e : Event) : bool :=
  match e with
  | EvUnhandledRejection _ => true
  | _ => false
  end.

(** One of the two collaborators throws [e] when the pipeline runs at
    time [t]: the aggregation, or the generation on the canonical
    document. *)
Definition pipeline_throws (options : RebuildManagerOptions) (t : Z)
    (e : Error) : Prop :=
  readAndGroup (fileManager options) t = Throw e \/
  exists g stats,
    readAndGroup (fileManager options) t = Return (g, stats) /\
    generateFiles (generationCoordinator options) t
                  (canonicalize (JObject g)) (root options) = Throw e.

(** Both collaborators return, whenever they are called. *)
Definition collaborators_return (options : RebuildManagerOptions) : Prop :=
  (forall t, exists g stats,
      readAndGroup (fileManager options) t = Return (g, stats)) /\
  (forall t document rootPath, exists generated,
      generateFiles (generationCoordinator options) t document rootPath
      = Return generated).

(** The debounce bookkeeping of the class: at most one timer is armed, the
    one [rebuildTimer] remembers, and a window is only open while a timer
    is armed. *)
Definition disciplined (w : World) : Prop :=
  one_timer w /\
  (timers (host w) = [] -> lastRebuildCall (this w) = 0%Z).

(** Triggers that keep their distance: each one comes more than
    [DEBOUNCE_MS] after the one before, the first of them after
    [previous]. *)
Fixpoint keep_apart (previous : Z) (ts : list Trigger) : Prop :=
  match ts with
  | [] => True
  | t :: ts' =>
      (previous + DEBOUNCE_MS < at_time t)%Z /\ keep_apart (at_time t) ts'
  end.

(** Any armed timer was set by a call at [previous] or earlier, and the
    promise it will resolve is pending. *)
Definition armed_since (previous : Z) (w : World) : Prop :=
  disciplined w /\
  forall x, In x (timers (host w)) ->
            (due x <= previous + DEBOUNCE_MS)%Z /\
            promise_state (timer_resolve x) w = Some Pending.

(* ===================================================================== *)
(** * The model at work *)
(* ===================================================================== *)

Example stringify_array :
  JSON_stringify
    (JArray [JNumber (NInt (-12)); JNull; JBool true; JNumber NNaN;
             JObject []; JArray [JNumber (NInfinity true)]])
  = "[-12,null,true,null,{},[null]]".
Proof. reflexivity. Qed.

Example quote_escapes :
  quote "a\b" = String "034" ("a\\b" ++ String "034" "")%string /\
  quote (String (ascii_of_nat 10) (String (ascii_of_nat 1) ""))
    = String "034" ("\n\u0001" ++ String "034" "")%string.
Proof. split; reflexivity. Qed.

Example parse_with_whitespace :
  JSON_parse " [ 1 , [ ] , {} , false , -7 ] "
  = Parsed (JArray [JNumber (NInt 1); JArray []; JObject []; JBool false;
                    JNumber (NInt (-7))]).
Proof. reflexivity. Qed.

Example parse_leading_zero : JSON_parse "[01]" = SyntaxError.
Proof. reflexivity. Qed.

Example parse_trailing_comma : JSON_parse "[1,]" = SyntaxError.
Proof. reflexivity. Qed.

Example parse_unclosed : JSON_parse "[[[[[[" = SyntaxError.
Proof. reflexivity. Qed.

Example parse_fraction : JSON_parse "1.5" = Unsupported.
Proof. reflexivity. Qed.

Example canonicalize_locales :
  canonicalize (JObject Session.locales)
  = JObject Session.locales_reordered.
Proof. reflexivity. Qed.

Example object_keys_sorted :
  Object_keys (canonicalize (JObject Session.locales)) = ["de"; "en"].
Proof. reflexivity. Qed.

Example references_virtual_module :
  references Session.resolvedVirtualJsonId Session.virtual_module = true /\
  map (references Session.resolvedVirtualJsonId) Session.test_modules
    = [false].
Proof. split; reflexivity. Qed.

(** Ten triggers 200 to 250 ms apart: no timer ever expires, the ninth
    call, 2000 ms after the first, rebuilds at once and resolves its own
    promise only; the tenth call opens a new window. *)
Example continuous_triggers :
  let ts := map Session.trigger
                [1000; 1250; 1500; 1750; 2000; 2250; 2500; 2750; 3000; 3200]%Z in
  let w := snd (run_triggers Session.options ts (Session.wired 0)) in
  rebuild_count w = 1 /\
  map (fun s => match s with Pending => 0 | Fulfilled _ => 1 | Rejected _ => 2 end)
      (promises (host w))
    = [0; 0; 0; 0; 0; 0; 0; 0; 1; 0] /\
  lastRebuildCall (this w) = 3200%Z /\
  map due (timers (host w)) = [3500%Z].
Proof. repeat split. Qed.

(* ===================================================================== *)
(** * Basic facts about the world *)
(* ===================================================================== *)

Lemma trace_emit_all (evs : list Event) (w : World) :
  trace (host (emit_all evs w)) = trace (host w) ++ evs.
Proof.
  revert w. induction evs as [|e evs IH]; intros w; simpl.
  - now rewrite app_nil_r.
  - rewrite IH. simpl. now rewrite <- app_assoc.
Qed.

Lemma this_emit_all (evs : list Event) (w : World) :
  this (emit_all evs w) = this w.
Proof.
  revert w. induction evs as [|e evs IH]; intros w; simpl; [easy|].
  now rewrite IH.
Qed.

Lemma clock_emit_all (evs : list Event) (w : World) :
  clock (host (emit_all evs w)) = clock (host w).
Proof.
  revert w. induction evs as [|e evs IH]; intros w; simpl; [easy|].
  now rewrite IH.
Qed.

Lemma timers_emit_all (evs : list Event) (w : World) :
  timers (host (emit_all evs w)) = timers (host w).
Proof.
  revert w. induction evs as [|e evs IH]; intros w; simpl; [easy|].
  now rewrite IH.
Qed.

Lemma promises_emit_all (evs : list Event) (w : World) :
  promises (host (emit_all evs w)) = promises (host w).
Proof.
  revert w. induction evs as [|e evs IH]; intros w; simpl; [easy|].
  now rewrite IH.
Qed.

Lemma next_timer_emit_all (evs : list Event) (w : World) :
  next_timer (host (emit_all evs w)) = next_timer (host w).
Proof.
  revert w. induction evs as [|e evs IH]; intros w; simpl; [easy|].
  now rewrite IH.
Qed.

Lemma emit_all_app (evs1 evs2 : list Event) (w : World) :
  emit_all (evs1 ++ evs2) w = emit_all evs2 (emit_all evs1 w).
Proof. unfold emit_all. now rewrite fold_left_app. Qed.

Lemma is_truthy_string_spec (x : option string) :
  is_truthy_string x = true <-> exists v, x = Some v /\ v <> EmptyString.
Proof.
  split.
  - destruct x as [[|c s]|]; simpl; try discriminate.
    intros _. exists (String c s). split; [reflexivity | discriminate].
  - intros [v [-> Hv]]. destruct v; [contradiction | reflexivity].
Qed.

(* ===================================================================== *)
(** * invalidateModule *)
(* ===================================================================== *)

Section InvalidateModule.

Variable options : RebuildManagerOptions.

Lemma invalidateModule_unwired (mods : list EnvironmentModuleNode) (w : World) :
  serverRef (this w) = None \/
  is_truthy_string (resolvedVirtualId (this w)) = false ->
  invalidateModule options mods w =
    (Return None,
     emit_all (if logger options
               then [EvLoggerWarn
                       (MsgNotFound (is_set (serverRef (this w)))
                          (is_truthy_string (resolvedVirtualId (this w))))]
               else []) w).
Proof.
  intros H. unfold invalidateModule, bind, read, logger_warn, when, ret, effect.
  assert (Hg : negb (is_set (serverRef (this w)))
               || negb (is_truthy_string (resolvedVirtualId (this w))) = true).
  { destruct H as [-> | ->]; simpl; [reflexivity | apply orb_true_r]. }
  rewrite Hg. destruct (logger options); reflexivity.
Qed.

Lemma invalidateModule_wired (mods : list EnvironmentModuleNode) (w : World)
    (virtualId : string) :
  server_wired w virtualId ->
  invalidateModule options mods w =
    (Return (Some (filter (references virtualId) mods)),
     emit_all (reload_events options w virtualId mods) w).
Proof.
  intros (Hs & Hv & Hne).
  destruct w as [[rt lrc srv vid env] h]; simpl in *. subst vid.
  destruct srv as [srv|]; [|contradiction].
  destruct virtualId as [|c v]; [contradiction|].
  unfold invalidateModule, reload_events, environment_invalidateAll,
    environment_hot_send_full_reload, logger_info, when, bind, read, ret,
    effect, emit; simpl.
  destruct env as [e|]; simpl.
  - destruct (moduleGraph e); simpl; destruct (hot e); simpl;
      destruct (logger options); reflexivity.
  - destruct (logger options); reflexivity.
Qed.

End InvalidateModule.

Lemma invalidateModule_eq (options : RebuildManagerOptions)
    (mods : list EnvironmentModuleNode) (w : World) :
  invalidateModule options mods w =
    (Return (invalidation_result w mods),
     emit_all (invalidation_events options w mods) w).
Proof.
  unfold invalidation_result, invalidation_events.
  destruct (serverRef (this w)) as [srv|] eqn:Hs.
  - destruct (resolvedVirtualId (this w)) as [[|c v]|] eqn:Hv.
    + rewrite invalidateModule_unwired by (right; now rewrite Hv).
      now rewrite Hs, Hv.
    + apply invalidateModule_wired. repeat split; try assumption.
      * rewrite Hs. discriminate.
      * discriminate.
    + rewrite invalidateModule_unwired by (right; now rewrite Hv).
      now rewrite Hs, Hv.
  - rewrite invalidateModule_unwired by now left.
    rewrite Hs. reflexivity.
Qed.

(** [invalidateModule] has no [throw] of its own. *)
Lemma invalidateModule_returns (options : RebuildManagerOptions)
    (mods : list EnvironmentModuleNode) (w : World) :
  exists r w', invalidateModule options mods w = (Return r, w').
Proof. rewrite invalidateModule_eq. eauto. Qed.

(** The branch that logs [MsgModuleNotFound] is dead code. *)
Lemma invalidation_events_no_module_not_found
    (options : RebuildManagerOptions) (mods : list EnvironmentModuleNode)
    (w : World) (v : string) :
  ~ In (EvLoggerWarn (MsgModuleNotFound v)) (invalidation_events options w mods).
Proof.
  unfold invalidation_events, reload_events.
  assert (Hw : forall a b, ~ In (EvLoggerWarn (MsgModuleNotFound v))
                 (if logger options
                  then [EvLoggerWarn (MsgNotFound a b)] else [])).
  { intros a b. destruct (logger options); simpl; [|tauto].
    intros [H|[]]. discriminate. }
  destruct (serverRef (this w)); [|apply Hw].
  destruct (resolvedVirtualId (this w)) as [[|c s]|]; try apply Hw.
  intros H. apply in_app_or in H. destruct H as [H|H].
  - destruct (environment (this w)) as [e|]; [|contradiction].
    apply in_app_or in H.
    destruct (moduleGraph e), (hot e); simpl in H;
      repeat (destruct H as [H|H]; try discriminate; try contradiction).
  - destruct (logger options); simpl in H; [|contradiction].
    destruct H as [H|[]]. discriminate.
Qed.

(** C1, as amended: given the server wiring and a module list none of whose
    identifiers contains the tracked virtual identifier, [invalidateModule]
    does not throw and returns the filtered list, which is empty. *)
Theorem invalidateModule_no_match :
  forall (options : RebuildManagerOptions)
         (mods : list EnvironmentModuleNode) (w : World) (virtualId : string),
    server_wired w virtualId ->
    (forall m, In m mods -> references virtualId m = false) ->
    exists w',
      invalidateModule options mods w =
        (Return (Some (filter (references virtualId) mods)), w') /\
      filter (references virtualId) mods = [].
Proof.
  intros options mods w virtualId Hw Hnone.
  exists (emit_all (reload_events options w virtualId mods) w). split.
  - now apply invalidateModule_wired.
  - induction mods as [|m mods IH]; simpl; [reflexivity|].
    rewrite (Hnone m (or_introl eq_refl)).
    apply IH. intros m' Hm'. apply Hnone. now right.
Qed.

Lemma served_is_server_wired (t0 : Z) :
  server_wired (Session.served t0) Session.resolvedVirtualJsonId.
Proof. repeat split; discriminate. Qed.

Lemma invalidateModule_no_match_witness :
  exists w',
    invalidateModule Session.options Session.test_modules (Session.served 1000) =
      (Return (Some (filter (references Session.resolvedVirtualJsonId)
                            Session.test_modules)), w') /\
    filter (references Session.resolvedVirtualJsonId) Session.test_modules = [].
Proof.
  apply (invalidateModule_no_match Session.options Session.test_modules
           (Session.served 1000) Session.resolvedVirtualJsonId).
  - repeat split; discriminate.
  - intros m [<-|[]]. reflexivity.
Defined.

(** C1, as stated, fails: with the server wiring present and the module
    list of the hot-update tests, whose only identifier does not contain the
    virtual identifier, [invalidateModule] returns the empty list, not the
    list it was given, and logs no warning. *)
Lemma invalidateModule_no_match_counterexample :
  let out := invalidateModule Session.options Session.test_modules
                              (Session.served 1000) in
  server_wired (Session.served 1000) Session.resolvedVirtualJsonId /\
  (forall m, In m Session.test_modules ->
             references Session.resolvedVirtualJsonId m = false) /\
  fst out = Return (Some []) /\
  existsb is_warning (trace (host (snd out))) = false /\
  ~ (exists w',
       out = (Return (Some Session.test_modules), w') /\
       existsb is_warning (trace (host w')) = true).
Proof.
  cbv zeta. split; [apply served_is_server_wired|]. split; [|split; [|split]].
  - intros m [<-|[]]. reflexivity.
  - reflexivity.
  - reflexivity.
  - intros [w' [H _]]. vm_compute in H. discriminate H.
Qed.

(** C10, as amended: once the server reference and a non-empty resolved
    virtual identifier are set and the environment is bound with its module
    graph and hot channel, for every module list (also one where nothing
    matches) [invalidateModule] calls [moduleGraph.invalidateAll], sends
    [full-reload] on the environment's hot channel, logs the reload line when
    a logger is configured, never the no-match warning, and returns the
    filtered list. *)
Theorem invalidateModule_always_reloads :
  forall (options : RebuildManagerOptions)
         (mods : list EnvironmentModuleNode) (w : World)
         (virtualId : string) (env : DevEnvironment),
    server_wired w virtualId ->
    environment (this w) = Some env ->
    moduleGraph env = true ->
    hot env = true ->
    exists w',
      invalidateModule options mods w =
        (Return (Some (filter (references virtualId) mods)), w') /\
      trace (host w') =
        trace (host w) ++
          EvInvalidateAll (name env) ::
          EvHotSendFullReload (name env) ::
          (if logger options
           then [EvLoggerInfo
                   (MsgReload virtualId
                      (join "," (map module_info
                                     (filter (references virtualId) mods))))]
           else []).
Proof.
  intros options mods w virtualId env Hw He Hg Hh.
  exists (emit_all (reload_events options w virtualId mods) w). split.
  - now apply invalidateModule_wired.
  - rewrite trace_emit_all. unfold reload_events. rewrite He, Hg, Hh.
    reflexivity.
Qed.

Lemma invalidateModule_always_reloads_witness :
  exists w',
    invalidateModule Session.options Session.test_modules (Session.wired 1000) =
      (Return (Some (filter (references Session.resolvedVirtualJsonId)
                            Session.test_modules)), w') /\
    trace (host w') =
      trace (host (Session.wired 1000)) ++
        EvInvalidateAll (name Session.client) ::
        EvHotSendFullReload (name Session.client) ::
        (if logger Session.options
         then [EvLoggerInfo
                 (MsgReload Session.resolvedVirtualJsonId
                    (join "," (map module_info
                                   (filter (references Session.resolvedVirtualJsonId)
                                           Session.test_modules))))]
         else []).
Proof.
  apply (invalidateModule_always_reloads Session.options Session.test_modules
           (Session.wired 1000) Session.resolvedVirtualJsonId Session.client).
  - repeat split; discriminate.
  - reflexivity.
  - reflexivity.
  - reflexivity.
Defined.

(** C10, as stated, fails: with the server reference and the resolved
    virtual identifier set but no environment bound, [invalidateModule]
    neither calls [invalidateAll] nor sends [full-reload]. *)
Lemma invalidateModule_always_reloads_counterexample :
  server_wired (Session.served 1000) Session.resolvedVirtualJsonId /\
  ~ (exists r w',
       invalidateModule Session.options Session.test_modules
                        (Session.served 1000) = (r, w') /\
       existsb is_invalidation (trace (host w')) = true).
Proof.
  split; [apply served_is_server_wired|].
  intros (r & w' & H & Hi).
  rewrite invalidateModule_eq in H. inversion H; subst w'; clear H.
  vm_compute in Hi. discriminate Hi.
Qed.

(* ===================================================================== *)
(** * rebuild *)
(* ===================================================================== *)

Section Rebuild.

Variable options : RebuildManagerOptions.

(** The aggregation throws: [rebuild] throws the same error, right after
    the call. *)
Lemma rebuild_read_throws (reason : string)
    (mods : list EnvironmentModuleNode) (w : World) (e : Error) :
  readAndGroup (fileManager options) (clock (host w)) = Throw e ->
  rebuild options reason mods w = (Throw e, emit EvReadAndGroup w).
Proof.
  intros H. unfold rebuild, bind, read, effect, await. simpl.
  now rewrite H.
Qed.

(** The generation throws: [rebuild] throws the same error; the
    invalidation and the completion callback are not reached. *)
Lemma rebuild_generate_throws (reason : string)
    (mods : list EnvironmentModuleNode) (w : World)
    (g : list (string * JSONValue)) (stats : ReadStats) (e : Error) :
  readAndGroup (fileManager options) (clock (host w)) = Return (g, stats) ->
  generateFiles (generationCoordinator options) (clock (host w))
                (canonicalize (JObject g)) (root options) = Throw e ->
  rebuild options reason mods w =
    (Throw e,
     emit_all ([EvReadAndGroup] ++
               (if logger options
                then [EvLoggerInfo (MsgReadAndGroup stats)] else []) ++
               [EvGenerateFiles (canonicalize (JObject g)) (root options)])
              w).
Proof.
  intros Hr Hg.
  unfold rebuild, logger_info.
  unfold bind, read, effect, await, when, ret.
  cbn [host emit clock]. rewrite Hr. cbn [fst snd].
  destruct (logger options), (0 <? filesRead stats)%nat;
    cbn [orb host emit clock]; rewrite Hg; reflexivity.
Qed.

(** Both collaborators return: [rebuild] returns, and this is all it
    does. *)
Lemma rebuild_returns (reason : string)
    (mods : list EnvironmentModuleNode) (w : World)
    (g : list (string * JSONValue)) (stats : ReadStats)
    (generated : GenerationResult) :
  readAndGroup (fileManager options) (clock (host w)) = Return (g, stats) ->
  generateFiles (generationCoordinator options) (clock (host w))
                (canonicalize (JObject g)) (root options)
    = Return generated ->
  let canonical := canonicalize (JObject g) in
  let w1 :=
    emit_all (read_and_generate_events options stats canonical generated) w in
  let cache :=
    {| cache_modules := invalidation_result w1 mods;
       cache_grouped := canonical;
       cache_jsonText := JSON_stringify canonical |} in
  rebuild options reason mods w =
    (Return {| modules := match invalidation_result w1 mods with
                          | Some l => l
                          | None => []
                          end;
               grouped := canonical;
               jsonText := JSON_stringify canonical |},
     emit_all (completion_events options reason cache)
       (emit_all (invalidation_events options w1 mods) w1)).
Proof.
  intros Hr Hg canonical w1 cache.
  unfold rebuild. unfold bind at 1. unfold read at 1.
  unfold bind at 1. unfold effect at 1.
  unfold bind at 1. unfold await at 1.
  cbn [host emit clock]. rewrite Hr. cbn [fst snd].
  fold canonical.
  assert (Hw1 :
    forall (k : M RebuildResult),
      bind (when ((0 <? filesRead stats)%nat || logger options)
                 (logger_info options (MsgReadAndGroup stats)))
        (fun _ =>
           bind (effect (EvGenerateFiles canonical (root options)))
             (fun _ =>
                bind (await (generateFiles (generationCoordinator options)
                               (clock (host w)) canonical (root options)))
                  (fun generationResult =>
                     bind (logger_info options (MsgGenerated generationResult))
                          (fun _ => k))))
        (emit EvReadAndGroup w) = k w1).
  { intros k. subst w1 cache. unfold canonical.
    unfold read_and_generate_events.
    unfold logger_info. unfold bind, when, effect, await, ret.
    destruct (logger options), (0 <? filesRead stats)%nat;
      cbn [orb host emit clock]; rewrite Hg; reflexivity. }
  rewrite Hw1.
  unfold bind at 1. rewrite invalidateModule_eq.
  unfold completion_events, cache. cbn [cache_grouped].
  unfold logger_info. unfold bind, when, effect, ret.
  destruct (onRebuildComplete options), (logger options); reflexivity.
Qed.

End Rebuild.

Lemma forallb_is_logging_info (b : bool) (m : LogMessage) :
  forallb is_logging (if b then [EvLoggerInfo m] else []) = true.
Proof. now destruct b. Qed.

(** What the invalidation does and returns depends on the fields of the
    manager only. *)
Lemma invalidation_result_this (w w' : World)
    (mods : list EnvironmentModuleNode) :
  this w' = this w -> invalidation_result w' mods = invalidation_result w mods.
Proof. intros H. unfold invalidation_result. now rewrite H. Qed.

Lemma invalidation_events_this (options : RebuildManagerOptions)
    (w w' : World) (mods : list EnvironmentModuleNode) :
  this w' = this w ->
  invalidation_events options w' mods = invalidation_events options w mods.
Proof.
  intros H. unfold invalidation_events, reload_events. now rewrite H.
Qed.

(** C5, as amended: every invocation of [rebuild] in which the aggregation
    and the generation return runs read/group, canonicalize, generate and
    invalidate in that order (the generation is called on the canonical form
    of what the aggregation returned; the invalidation runs after the
    generation, on the manager as it is wired: with the wiring and the
    environment there it calls [invalidateAll] and sends the full reload,
    with the server wiring missing it does neither and returns [undefined]),
    then calls the completion callback, when one is configured, with
    [{modules, grouped, jsonText}] where [modules] is what the invalidation
    returned, and returns the same [grouped] and [jsonText] with that
    [modules], or the empty list where the invalidation returned
    [undefined]; with the server wiring present the two triples are the
    same.  Nothing else is added to the trace, and the fields of the
    manager are left as they were. *)
Theorem rebuild_phases_in_order :
  forall (options : RebuildManagerOptions) (reason : string)
         (mods : list EnvironmentModuleNode) (w : World)
         (g : list (string * JSONValue)) (stats : ReadStats)
         (generated : GenerationResult),
    readAndGroup (fileManager options) (clock (host w)) = Return (g, stats) ->
    generateFiles (generationCoordinator options) (clock (host w))
                  (canonicalize (JObject g)) (root options)
      = Return generated ->
    exists (r : RebuildResult) (w1 w2 w' : World)
           (invalidated : option (list EnvironmentModuleNode)),
      rebuild options reason mods w = (Return r, w') /\
      (* read/group, then generate on the canonical document *)
      this w1 = this w /\
      trace (host w1) =
        trace (host w) ++ [EvReadAndGroup] ++
          (if logger options
           then [EvLoggerInfo (MsgReadAndGroup stats)] else []) ++
          [EvGenerateFiles (canonicalize (JObject g)) (root options)] ++
          (if logger options
           then [EvLoggerInfo (MsgGenerated generated)] else []) /\
      (* then invalidate, on the manager as it is wired *)
      invalidateModule options mods w1 = (Return invalidated, w2) /\
      invalidated = invalidation_result w mods /\
      trace (host w2) = trace (host w1) ++ invalidation_events options w mods /\
      (* then the completion callback and the last log line *)
      trace (host w') =
        trace (host w2) ++
          (if onRebuildComplete options
           then [EvOnRebuildComplete
                   {| cache_modules := invalidated;
                      cache_grouped := grouped r;
                      cache_jsonText := jsonText r |}]
           else []) ++
          (if logger options
           then [EvLoggerInfo
                   (MsgRebuildComplete reason (Object_keys (grouped r)))]
           else []) /\
      this w' = this w /\
      (* the result *)
      grouped r = canonicalize (JObject g) /\
      jsonText r = JSON_stringify (canonicalize (JObject g)) /\
      modules r = match invalidated with Some l => l | None => [] end /\
      (* what the invalidation did and returned *)
      (invalidated = None <->
       serverRef (this w) = None \/
       resolvedVirtualId (this w) = None \/
       resolvedVirtualId (this w) = Some EmptyString) /\
      (invalidated = None ->
       invalidation_events options w mods =
         if logger options
         then [EvLoggerWarn
                 (MsgNotFound (is_set (serverRef (this w)))
                    (is_truthy_string (resolvedVirtualId (this w))))]
         else []) /\
      (forall v, server_wired w v ->
         invalidated = Some (filter (references v) mods) /\
         invalidated = Some (modules r) /\
         invalidation_events options w mods =
           (match environment (this w) with
            | Some env =>
                (if moduleGraph env then [EvInvalidateAll (name env)]
                 else []) ++
                (if hot env then [EvHotSendFullReload (name env)] else [])
            | None => []
            end) ++
           (if logger options
            then [EvLoggerInfo
                    (MsgReload v
                       (join "," (map module_info
                                      (filter (references v) mods))))]
            else [])).
Proof.
  intros options reason mods w g stats generated Hr Hg.
  pose proof (rebuild_returns options reason mods w g stats generated Hr Hg)
    as H. cbv zeta in H.
  set (canonical := canonicalize (JObject g)) in *.
  set (w1 := emit_all (read_and_generate_events options stats canonical
                         generated) w) in *.
  assert (Hthis : this w1 = this w) by (subst w1; apply this_emit_all).
  rewrite (invalidation_result_this w w1 mods Hthis) in H.
  rewrite (invalidation_events_this options w w1 mods Hthis) in H.
  eexists _, w1, (emit_all (invalidation_events options w mods) w1), _,
    (invalidation_result w mods).
  split; [exact H|]. cbn [grouped jsonText modules].
  split; [exact Hthis|].
  split.
  { subst w1. rewrite trace_emit_all. unfold read_and_generate_events.
    reflexivity. }
  split.
  { rewrite invalidateModule_eq.
    rewrite (invalidation_result_this w w1 mods Hthis).
    now rewrite (invalidation_events_this options w w1 mods Hthis). }
  split; [reflexivity|].
  split; [apply trace_emit_all|].
  split.
  { rewrite trace_emit_all. unfold completion_events. reflexivity. }
  split; [now rewrite !this_emit_all|].
  split; [reflexivity|]. split; [reflexivity|]. split; [reflexivity|].
  split.
  { unfold invalidation_result.
    destruct (serverRef (this w)) as [srv|],
             (resolvedVirtualId (this w)) as [[|c v]|];
      split; intros H0; try reflexivity; try discriminate H0; auto;
      destruct H0 as [H0|[H0|H0]]; discriminate H0. }
  split.
  { unfold invalidation_result, invalidation_events.
    destruct (serverRef (this w)) as [srv|],
             (resolvedVirtualId (this w)) as [[|c v]|];
      intros H0; try reflexivity; discriminate H0. }
  intros v (Hs & Hv & Hne).
  unfold invalidation_result, invalidation_events, reload_events.
  rewrite Hv.
  destruct (serverRef (this w)); [|contradiction].
  destruct v; [contradiction|]. repeat split.
Qed.

Lemma rebuild_phases_in_order_witness :
  exists (r : RebuildResult) (w1 w2 w' : World)
         (invalidated : option (list EnvironmentModuleNode)),
    rebuild Session.options "change" Session.test_modules (Session.wired 1000)
      = (Return r, w') /\
    this w1 = this (Session.wired 1000) /\
    trace (host w1) =
      trace (host (Session.wired 1000)) ++ [EvReadAndGroup] ++
        (if logger Session.options
         then [EvLoggerInfo (MsgReadAndGroup
                               {| filesRead := 2; totalFiles := 2 |})]
         else []) ++
        [EvGenerateFiles (canonicalize (JObject Session.locales))
                         (root Session.options)] ++
        (if logger Session.options
         then [EvLoggerInfo
                 (MsgGenerated
                    {| filesWritten := 2;
                       generatedTotalFiles := 2;
                       filesList := ["src/i18n/i18n.types.d.ts";
                                     "src/i18n/i18n.consts.ts"] |})]
         else []) /\
    invalidateModule Session.options Session.test_modules w1
      = (Return invalidated, w2) /\
    invalidated = invalidation_result (Session.wired 1000)
                                      Session.test_modules /\
    trace (host w2) =
      trace (host w1) ++
        invalidation_events Session.options (Session.wired 1000)
                            Session.test_modules /\
    trace (host w') =
      trace (host w2) ++
        (if onRebuildComplete Session.options
         then [EvOnRebuildComplete
                 {| cache_modules := invalidated;
                    cache_grouped := grouped r;
                    cache_jsonText := jsonText r |}]
         else []) ++
        (if logger Session.options
         then [EvLoggerInfo
                 (MsgRebuildComplete "change" (Object_keys (grouped r)))]
         else []) /\
    this w' = this (Session.wired 1000) /\
    grouped r = canonicalize (JObject Session.locales) /\
    jsonText r = JSON_stringify (canonicalize (JObject Session.locales)) /\
    modules r = match invalidated with Some l => l | None => [] end /\
    (invalidated = None <->
     serverRef (this (Session.wired 1000)) = None \/
     resolvedVirtualId (this (Session.wired 1000)) = None \/
     resolvedVirtualId (this (Session.wired 1000)) = Some EmptyString) /\
    (invalidated = None ->
     invalidation_events Session.options (Session.wired 1000)
                         Session.test_modules =
       if logger Session.options
       then [EvLoggerWarn
               (MsgNotFound
                  (is_set (serverRef (this (Session.wired 1000))))
                  (is_truthy_string
                     (resolvedVirtualId (this (Session.wired 1000)))))]
       else []) /\
    (forall v, server_wired (Session.wired 1000) v ->
       invalidated = Some (filter (references v) Session.test_modules) /\
       invalidated = Some (modules r) /\
       invalidation_events Session.options (Session.wired 1000)
                           Session.test_modules =
         (match environment (this (Session.wired 1000)) with
          | Some env =>
              (if moduleGraph env then [EvInvalidateAll (name env)]
               else []) ++
              (if hot env then [EvHotSendFullReload (name env)] else [])
          | None => []
          end) ++
         (if logger Session.options
          then [EvLoggerInfo
                  (MsgReload v
                     (join "," (map module_info
                                    (filter (references v)
                                            Session.test_modules))))]
          else [])).
Proof.
  apply (rebuild_phases_in_order Session.options "change" Session.test_modules
           (Session.wired 1000) Session.locales
           {| filesRead := 2; totalFiles := 2 |}
           {| filesWritten := 2;
              generatedTotalFiles := 2;
              filesList := ["src/i18n/i18n.types.d.ts";
                            "src/i18n/i18n.consts.ts"] |}).
  - reflexivity.
  - reflexivity.
Defined.

(** C5, as stated, fails: on a manager without server wiring the completion
    callback receives [modules: undefined] while [rebuild] returns
    [modules: []]; the two triples differ. *)
Lemma rebuild_same_triple_counterexample :
  ~ (exists (r : RebuildResult) (w' : World) (cache : RebuildCache),
       rebuild Session.options "change" Session.test_modules
               (Session.fresh 1000) = (Return r, w') /\
       In (EvOnRebuildComplete cache) (trace (host w')) /\
       cache = {| cache_modules := Some (modules r);
                  cache_grouped := grouped r;
                  cache_jsonText := jsonText r |}).
Proof.
  intros (r & w' & cache & H & Hin & Hc).
  vm_compute in H. inversion H; subst r w'; clear H.
  cbn [trace host] in Hin. subst cache.
  repeat (destruct Hin as [Hin|Hin]; [discriminate Hin|]).
  exact Hin.
Qed.




Lemma invalidation_events_no_start (options : RebuildManagerOptions)
    (w : World) (mods : list EnvironmentModuleNode) :
  existsb is_pipeline_start (invalidation_events options w mods) = false.
Proof.
  unfold invalidation_events, reload_events.
  destruct (serverRef (this w)) as [srv|];
    [|destruct (logger options); reflexivity].
  destruct (resolvedVirtualId (this w)) as [[|c0 v0]|];
    try (destruct (logger options); reflexivity).
  rewrite existsb_app.
  destruct (environment (this w)) as [e|].
  - destruct (moduleGraph e), (hot e), (logger options); reflexivity.
  - destruct (logger options); reflexivity.
Qed.

Lemma completion_events_no_start (options : RebuildManagerOptions)
    (reason : string) (cache : RebuildCache) :
  existsb is_pipeline_start (completion_events options reason cache) = false.
Proof.
  unfold completion_events.
  destruct (onRebuildComplete options), (logger options); reflexivity.
Qed.

(** Whatever the collaborators do, [rebuild] only adds events to the trace,
    and exactly one of them is the start of the pipeline. *)
Lemma rebuild_emits (options : RebuildManagerOptions) (reason : string)
    (mods : list EnvironmentModuleNode) (w : World) :
  exists (o : Outcome RebuildResult) (evs : list Event),
    rebuild options reason mods w = (o, emit_all (EvReadAndGroup :: evs) w) /\
    existsb is_pipeline_start evs = false.
Proof.
  destruct (readAndGroup (fileManager options) (clock (host w)))
    as [[g stats]|e] eqn:Hr.
  - destruct (generateFiles (generationCoordinator options) (clock (host w))
                (canonicalize (JObject g)) (root options))
      as [generated|e] eqn:Hg.
    + pose proof (rebuild_returns options reason mods w g stats generated Hr Hg)
        as H. cbv zeta in H. rewrite H. clear H.
      set (w1 := emit_all _ w).
      eexists _, ((if logger options
                   then [EvLoggerInfo (MsgReadAndGroup stats)] else []) ++
                  [EvGenerateFiles (canonicalize (JObject g)) (root options)] ++
                  (if logger options
                   then [EvLoggerInfo (MsgGenerated generated)] else []) ++
                  invalidation_events options w1 mods ++
                  completion_events options reason _).
      split.
      * subst w1. rewrite <- !emit_all_app. f_equal. f_equal.
        unfold read_and_generate_events. cbn [app].
        rewrite <- !app_assoc. reflexivity.
      * rewrite !existsb_app, invalidation_events_no_start,
          completion_events_no_start.
        destruct (logger options); reflexivity.
    + rewrite (rebuild_generate_throws options reason mods w g stats e Hr Hg).
      eexists _, _. split; [reflexivity|].
      rewrite existsb_app. destruct (logger options); reflexivity.
  - rewrite (rebuild_read_throws options reason mods w e Hr).
    exists (Throw e), []. split; reflexivity.
Qed.

Lemma rebuild_count_emit_all (evs : list Event) (w : World) :
  rebuild_count (emit_all evs w) =
    rebuild_count w + List.length (filter is_pipeline_start evs).
Proof.
  unfold rebuild_count. rewrite trace_emit_all, filter_app, length_app.
  reflexivity.
Qed.

Lemma filter_none {A : Type} (f : A -> bool) (l : list A) :
  existsb f l = false -> filter f l = [].
Proof.
  induction l as [|a l IH]; simpl; [reflexivity|].
  destruct (f a); simpl; [discriminate | exact IH].
Qed.

(* ===================================================================== *)
(** * debouncedRebuild *)
(* ===================================================================== *)

Section Debounce.

Variable options : RebuildManagerOptions.

Lemma filter_tracked_nil (w : World) (t : nat) :
  timers_tracked w ->
  rebuildTimer (this w) = Some t ->
  filter (fun x => negb (timer_id x =? t)%nat) (timers (host w)) = [].
Proof.
  intros Htr Ht.
  assert (H : forall x, In x (timers (host w)) -> timer_id x = t).
  { intros x Hx. specialize (Htr x Hx). congruence. }
  induction (timers (host w)) as [|x l IH]; simpl; [reflexivity|].
  rewrite (H x (or_introl eq_refl)), Nat.eqb_refl. simpl.
  apply IH. intros y Hy. apply H. now right.
Qed.

Lemma tracked_no_timer (w : World) :
  timers_tracked w -> rebuildTimer (this w) = None -> timers (host w) = [].
Proof.
  intros Htr Hn. destruct (timers (host w)) as [|x l] eqn:E; [reflexivity|].
  specialize (Htr x). rewrite E in Htr.
  specialize (Htr (or_introl eq_refl)). congruence.
Qed.

(** [settle] on the promise just created. *)
Lemma settle_new_promise (w : World) (s : PromiseState) :
  settle (List.length (promises (host w))) s
         (set_promises (promises (host w) ++ [Pending]) w)
  = set_promises (promises (host w) ++ [s]) w.
Proof.
  unfold settle. cbn [host set_promises promises].
  rewrite nth_error_app2 by lia. rewrite Nat.sub_diag. cbn [nth_error].
  unfold set_promises. cbn [host this clock timers next_timer promises trace].
  f_equal. f_equal.
  induction (promises (host w)) as [|a l IH]; simpl; [reflexivity|].
  now rewrite IH.
Qed.

(** The forced path: the window has been pending for [MAX_WAIT_MS] or
    longer. *)
Lemma debouncedRebuild_forced (reason : string)
    (mods : list EnvironmentModuleNode) (w : World) :
  timers_tracked w ->
  lastRebuildCall (this w) <> 0%Z ->
  (clock (host w) - lastRebuildCall (this w) >= MAX_WAIT_MS)%Z ->
  debouncedRebuild options reason mods w =
    let (result, w1) := rebuild options reason mods (pending_cleared w) in
    (List.length (promises (host w1)),
     set_promises (promises (host w1) ++ [settled result]) w1).
Proof.
  intros Htr Hne Hge. unfold debouncedRebuild.
  destruct (Z.eqb_spec (lastRebuildCall (this w)) 0) as [E|_];
    [contradiction|].
  assert (Hw2 :
    match rebuildTimer (this w) with
    | Some t => clearTimeout t w
    | None => w
    end = set_timers [] w).
  { destruct (rebuildTimer (this w)) as [t|] eqn:Ht.
    - unfold clearTimeout. now rewrite (filter_tracked_nil w t Htr Ht).
    - pose proof (tracked_no_timer w Htr Ht) as Hnil.
      destruct w as [th [c tm nt ps tr]]. simpl in *. now subst tm. }
  rewrite Hw2. cbn [this set_timers lastRebuildCall].
  destruct (Z.geb_spec (clock (host w) - lastRebuildCall (this w)) MAX_WAIT_MS)
    as [_|Hlt]; [|lia].
  unfold pending_cleared.
  destruct (rebuild options reason mods
              (set_lastRebuildCall 0 (set_timers [] w))) as [result w1].
  unfold new_promise. rewrite settle_new_promise.
  destruct result; reflexivity.
Qed.

(** The debounced path: the timer is replaced, nothing runs. *)
Lemma debouncedRebuild_scheduled (reason : string)
    (mods : list EnvironmentModuleNode) (w : World) :
  timers_tracked w ->
  (lastRebuildCall (this w) = 0 \/
   clock (host w) - lastRebuildCall (this w) < MAX_WAIT_MS)%Z ->
  debouncedRebuild options reason mods w =
    (List.length (promises (host w)),
     scheduled (clock (host w)) reason mods w).
Proof.
  intros Htr Hlt. unfold debouncedRebuild.
  set (w1 := if (lastRebuildCall (this w) =? 0)%Z
             then set_lastRebuildCall (clock (host w)) w else w).
  assert (H1 : rebuildTimer (this w1) = rebuildTimer (this w)
               /\ host w1 = host w
               /\ serverRef (this w1) = serverRef (this w)
               /\ resolvedVirtualId (this w1) = resolvedVirtualId (this w)
               /\ environment (this w1) = environment (this w)
               /\ lastRebuildCall (this w1) =
                    (if (lastRebuildCall (this w) =? 0)%Z
                     then clock (host w) else lastRebuildCall (this w))).
  { subst w1. destruct (lastRebuildCall (this w) =? 0)%Z; repeat split. }
  destruct H1 as (Hrt & Hh & Hs & Hv & He & Hl).
  assert (Htr1 : timers_tracked w1).
  { intros x Hx. rewrite Hh in Hx. rewrite Hrt. now apply Htr. }
  assert (Hw2 :
    match rebuildTimer (this w1) with
    | Some t => clearTimeout t w1
    | None => w1
    end = set_timers [] w1).
  { destruct (rebuildTimer (this w1)) as [t|] eqn:Ht.
    - unfold clearTimeout. now rewrite (filter_tracked_nil w1 t Htr1 Ht).
    - pose proof (tracked_no_timer w1 Htr1 Ht) as Hnil.
      destruct w1 as [th [c tm nt ps tr]]. simpl in *. now subst tm. }
  rewrite Hw2. cbn [this set_timers lastRebuildCall]. rewrite Hl.
  assert (Hnot : (clock (host w) -
                  (if (lastRebuildCall (this w) =? 0)%Z
                   then clock (host w) else lastRebuildCall (this w))
                  >=? MAX_WAIT_MS)%Z = false).
  { destruct (Z.geb_spec
                (clock (host w) -
                 (if (lastRebuildCall (this w) =? 0)%Z
                  then clock (host w) else lastRebuildCall (this w)))
                MAX_WAIT_MS) as [Hge|_]; [|reflexivity].
    exfalso. destruct (Z.eqb_spec (lastRebuildCall (this w)) 0) as [E|NE].
    - unfold MAX_WAIT_MS in Hge. lia.
    - destruct Hlt as [E|Hlt]; [contradiction|]. lia. }
  rewrite Hnot.
  unfold new_promise, setTimeout, scheduled, set_rebuildTimer,
    set_next_timer, set_timers, set_promises.
  cbn [this host clock timers next_timer promises trace rebuildTimer
       lastRebuildCall serverRef resolvedVirtualId environment].
  rewrite Hh, Hs, Hv, He, Hl. reflexivity.
Qed.

End Debounce.

(** C3: when [debouncedRebuild] is called and the time since the start of
    the pending window exceeds [MAX_WAIT_MS], the pending state is cleared
    (no timer stays armed, the window start is reset), [rebuild] runs at
    once, on the world as it is at the call, and the promise handed to the
    caller is settled with the outcome of that run. *)
Theorem debouncedRebuild_max_wait :
  forall (options : RebuildManagerOptions) (reason : string)
         (mods : list EnvironmentModuleNode) (w : World),
    timers_tracked w ->
    lastRebuildCall (this w) <> 0%Z ->
    (clock (host w) - lastRebuildCall (this w) > MAX_WAIT_MS)%Z ->
    let run := rebuild options reason mods (pending_cleared w) in
    let p := fst (debouncedRebuild options reason mods w) in
    let w' := snd (debouncedRebuild options reason mods w) in
    timers (host w') = [] /\
    lastRebuildCall (this w') = 0%Z /\
    clock (host w') = clock (host w) /\
    trace (host w') = trace (host (snd run)) /\
    rebuild_count w' = S (rebuild_count w) /\
    promise_state p w' = Some (settled (fst run)).
Proof.
  intros options reason mods w Htr Hne Hgt run p w'.
  subst p w'.
  rewrite (debouncedRebuild_forced options reason mods w Htr Hne) by lia.
  subst run.
  destruct (rebuild_emits options reason mods (pending_cleared w))
    as (o & evs & Hrun & Hevs).
  rewrite Hrun. cbn [fst snd].
  unfold promise_state.
  cbn [host set_promises this timers clock trace promises lastRebuildCall].
  rewrite timers_emit_all, this_emit_all, clock_emit_all, promises_emit_all.
  repeat split.
  - unfold rebuild_count. cbn [host set_promises trace].
    fold (rebuild_count (emit_all (EvReadAndGroup :: evs) (pending_cleared w))).
    rewrite rebuild_count_emit_all. cbn [filter is_pipeline_start].
    rewrite (filter_none _ _ Hevs). cbn [List.length].
    unfold rebuild_count, pending_cleared. cbn [host trace set_timers set_lastRebuildCall].
    lia.
  - rewrite nth_error_app2 by lia. now rewrite Nat.sub_diag.
Qed.

Lemma debouncedRebuild_max_wait_witness :
  let w := set_clock 3200 (scheduled 1000 "change" Session.test_modules
                                     (Session.wired 1000)) in
  let run := rebuild Session.options "change" Session.test_modules
                     (pending_cleared w) in
  let p := fst (debouncedRebuild Session.options "change"
                                 Session.test_modules w) in
  let w' := snd (debouncedRebuild Session.options "change"
                                  Session.test_modules w) in
  timers (host w') = [] /\
  lastRebuildCall (this w') = 0%Z /\
  clock (host w') = clock (host w) /\
  trace (host w') = trace (host (snd run)) /\
  rebuild_count w' = S (rebuild_count w) /\
  promise_state p w' = Some (settled (fst run)).
Proof.
  apply (debouncedRebuild_max_wait Session.options "change"
           Session.test_modules
           (set_clock 3200 (scheduled 1000 "change" Session.test_modules
                                      (Session.wired 1000)))).
  - intros x [<-|[]]. reflexivity.
  - discriminate.
  - reflexivity.
Defined.

(* ===================================================================== *)
(** * Bursts of triggers *)
(* ===================================================================== *)

Section Bursts.

Variable options : RebuildManagerOptions.

Lemma quiet_tracked (L : Z) (w : World) :
  quiet_until L w -> timers_tracked w.
Proof. intros [H _] x Hx. now apply H. Qed.

Lemma idle_quiet (L : Z) (w : World) : idle w -> quiet_until L w.
Proof.
  intros [Hl Ht]. split.
  - rewrite Ht. intros x [].
  - now left.
Qed.

(** No timer is due before the burst ends: the clock just moves. *)
Lemma advance_to_quiet (L t : Z) (w : World) :
  quiet_until L w -> (t <= L)%Z ->
  advance_to options t w = set_clock t w.
Proof.
  intros [Hq _] Ht. unfold advance_to.
  assert (Hnil : filter (fun x => (due x <=? t)%Z) (timers (host w)) = []).
  { induction (timers (host w)) as [|x l IH]; simpl; [reflexivity|].
    destruct (Hq x (or_introl eq_refl)) as [_ Hd].
    destruct (Z.leb_spec (due x) t); [lia|].
    apply IH. intros y Hy. apply Hq. now right. }
  now rewrite Hnil.
Qed.

Lemma debounce_step (L : Z) (t : Trigger) (w : World) :
  quiet_until L w ->
  (at_time t <= L)%Z ->
  debouncedRebuild options (trigger_reason t) (trigger_modules t)
                   (advance_to options (at_time t) w)
  = (List.length (promises (host w)),
     scheduled (at_time t) (trigger_reason t) (trigger_modules t) w).
Proof.
  intros Hq Ht.
  rewrite (advance_to_quiet L (at_time t) w Hq Ht).
  rewrite debouncedRebuild_scheduled.
  - reflexivity.
  - intros x Hx. now apply (quiet_tracked L w Hq).
  - destruct Hq as [_ [H0|Hlt]]; [now left|right].
    cbn [set_clock host clock this]. lia.
Qed.

Lemma quiet_scheduled (L : Z) (t : Z) (reason : string)
    (mods : list EnvironmentModuleNode) (w : World) :
  quiet_until L w ->
  (0 <= L - t < DEBOUNCE_MS)%Z ->
  quiet_until L (scheduled t reason mods w).
Proof.
  intros [_ Hl] Ht. split.
  - intros x [<-|[]]. cbn. split; [reflexivity | lia].
  - cbn [scheduled this lastRebuildCall].
    destruct (Z.eqb_spec (lastRebuildCall (this w)) 0) as [E|NE].
    + right. unfold DEBOUNCE_MS, MAX_WAIT_MS in *. lia.
    + destruct Hl as [E|Hl]; [contradiction | now right].
Qed.

(** A burst that ends at [L] and lies within one debounce window runs
    nothing: each call only replaces the timer. *)
Lemma run_triggers_quiet (L : Z) (ts : list Trigger) :
  forall w,
    quiet_until L w ->
    (forall t, In t ts -> (0 <= L - at_time t < DEBOUNCE_MS)%Z) ->
    run_triggers options ts w
    = (seq (List.length (promises (host w))) (List.length ts),
       after_burst ts w).
Proof.
  induction ts as [|t ts IH]; intros w Hq Hts; [reflexivity|].
  cbn [run_triggers].
  pose proof (Hts t (or_introl eq_refl)) as Ht.
  rewrite (debounce_step L t w Hq) by lia.
  rewrite IH.
  - cbn [scheduled host promises List.length seq after_burst fold_left].
    rewrite length_app. cbn [List.length].
    replace (List.length (promises (host w)) + 1)
      with (S (List.length (promises (host w)))) by lia.
    reflexivity.
  - now apply quiet_scheduled.
  - intros t' Ht'. apply Hts. now right.
Qed.

(** The world a non-empty burst leaves behind: one timer armed, for the
    last caller; one more pending promise per call; nothing run. *)
Lemma after_burst_spec (ts : list Trigger) (t : Trigger) (w : World) :
  let w' := after_burst (ts ++ [t]) w in
  timers (host w') =
    [ {| timer_id := next_timer (host w) + List.length ts;
         due := at_time t + DEBOUNCE_MS;
         timer_reason := trigger_reason t;
         timer_modules := trigger_modules t;
         timer_resolve := List.length (promises (host w)) + List.length ts |} ] /\
  promises (host w') =
    promises (host w) ++ repeat Pending (S (List.length ts)) /\
  trace (host w') = trace (host w) /\
  clock (host w') = at_time t /\
  serverRef (this w') = serverRef (this w) /\
  resolvedVirtualId (this w') = resolvedVirtualId (this w) /\
  environment (this w') = environment (this w).
Proof.
  cbv zeta. unfold after_burst. rewrite fold_left_app. cbn [fold_left].
  set (f := fun (w' : World) (t0 : Trigger) =>
              scheduled (at_time t0) (trigger_reason t0)
                        (trigger_modules t0) w').
  assert (H : next_timer (host (fold_left f ts w))
                = next_timer (host w) + List.length ts
              /\ promises (host (fold_left f ts w))
                = promises (host w) ++ repeat Pending (List.length ts)
              /\ trace (host (fold_left f ts w)) = trace (host w)
              /\ serverRef (this (fold_left f ts w)) = serverRef (this w)
              /\ resolvedVirtualId (this (fold_left f ts w))
                 = resolvedVirtualId (this w)
              /\ environment (this (fold_left f ts w))
                 = environment (this w)).
  { clear t. induction ts as [|t ts IH] using rev_ind.
    - cbn. rewrite Nat.add_0_r, List.app_nil_r. repeat split.
    - rewrite fold_left_app. cbn [fold_left].
      assert (Hf : forall w' t0,
                f w' t0 = scheduled (at_time t0) (trigger_reason t0)
                                    (trigger_modules t0) w')
        by reflexivity.
      rewrite Hf.
      cbn [scheduled host this next_timer promises trace serverRef
           resolvedVirtualId environment].
      destruct IH as (Hn & Hp & Ht & Hs & Hv & He).
      rewrite Hn, Hp, Ht, Hs, Hv, He, length_app. cbn [List.length].
      repeat split; try lia.
      rewrite <- app_assoc. f_equal.
      rewrite repeat_app. reflexivity. }
  destruct H as (Hn & Hp & Ht & Hs & Hv & He).
  cbn [scheduled host this timers promises trace clock serverRef
       resolvedVirtualId environment].
  rewrite Hn, Hp, Ht, Hs, Hv, He.
  repeat split.
  - rewrite length_app, repeat_length. reflexivity.
  - rewrite <- app_assoc. f_equal.
    change [Pending] with (repeat Pending 1).
    rewrite <- repeat_app. f_equal. lia.
Qed.

End Bursts.

Section Expiry.

Variable options : RebuildManagerOptions.

Lemma trace_settle (p : nat) (s : PromiseState) (w : World) :
  trace (host (settle p s w)) = trace (host w).
Proof.
  unfold settle. destruct (nth_error (promises (host w)) p) as [[| |]|];
    reflexivity.
Qed.

Lemma timers_settle (p : nat) (s : PromiseState) (w : World) :
  timers (host (settle p s w)) = timers (host w).
Proof.
  unfold settle. destruct (nth_error (promises (host w)) p) as [[| |]|];
    reflexivity.
Qed.

Lemma nth_error_update_nth {A : Type} (l : list A) (p q : nat) (a : A) :
  nth_error (update_nth p a l) q =
    if (q =? p)%nat
    then match nth_error l q with Some _ => Some a | None => None end
    else nth_error l q.
Proof.
  revert p q. induction l as [|x l IH]; intros p q; simpl.
  - destruct p as [|p'], q as [|q']; simpl; try reflexivity.
    destruct (q' =? p')%nat; reflexivity.
  - destruct p, q; simpl; try reflexivity. apply IH.
Qed.

(** [settle] touches the promise it names, when that one is pending, and
    no other. *)
Lemma promise_state_settle (p q : nat) (s : PromiseState) (w : World) :
  promise_state q (settle p s w) =
    if (q =? p)%nat
    then match promise_state q w with
         | Some Pending => Some s
         | other => other
         end
    else promise_state q w.
Proof.
  unfold promise_state, settle.
  destruct (Nat.eqb_spec q p) as [->|Hne].
  - destruct (nth_error (promises (host w)) p) as [[| |]|] eqn:E;
      cbn [host set_promises promises]; rewrite ?E; try reflexivity.
    rewrite nth_error_update_nth, Nat.eqb_refl, E. reflexivity.
  - destruct (nth_error (promises (host w)) p) as [[| |]|] eqn:E;
      cbn [host set_promises promises]; try reflexivity.
    rewrite nth_error_update_nth.
    destruct (Nat.eqb_spec q p); [contradiction | reflexivity].
Qed.

(** The callback of an expired timer: one run of the pipeline; the
    timer's promise is the only one that can change. *)
Lemma run_timer_spec (x : Timer) (w : World) :
  exists (o : Outcome RebuildResult) (evs : list Event),
    rebuild options (timer_reason x) (timer_modules x)
            (set_lastRebuildCall 0 w)
      = (o, emit_all (EvReadAndGroup :: evs) (set_lastRebuildCall 0 w)) /\
    existsb is_pipeline_start evs = false /\
    run_timer options x w =
      match o with
      | Return r =>
          settle (timer_resolve x) (Fulfilled r)
                 (emit_all (EvReadAndGroup :: evs) (set_lastRebuildCall 0 w))
      | Throw e =>
          emit_all (EvReadAndGroup :: evs ++ [EvUnhandledRejection e])
                   (set_lastRebuildCall 0 w)
      end.
Proof.
  destruct (rebuild_emits options (timer_reason x) (timer_modules x)
              (set_lastRebuildCall 0 w)) as (o & evs & Hrun & Hevs).
  exists o, evs. split; [exact Hrun|]. split; [exact Hevs|].
  unfold run_timer. rewrite Hrun. destruct o as [r|e]; [reflexivity|].
  change (EvReadAndGroup :: evs ++ [EvUnhandledRejection e])
    with ((EvReadAndGroup :: evs) ++ [EvUnhandledRejection e]).
  rewrite emit_all_app. reflexivity.
Qed.

Lemma rebuild_count_run_timer (x : Timer) (w : World) :
  rebuild_count (run_timer options x w) = S (rebuild_count w).
Proof.
  destruct (run_timer_spec x w) as (o & evs & _ & Hevs & ->).
  assert (Hc : rebuild_count (emit_all (EvReadAndGroup :: evs)
                                (set_lastRebuildCall 0 w))
               = S (rebuild_count w)).
  { rewrite rebuild_count_emit_all. cbn [filter is_pipeline_start].
    rewrite (filter_none _ _ Hevs). cbn [List.length].
    unfold rebuild_count. cbn [set_lastRebuildCall host trace]. lia. }
  destruct o as [r|e].
  - unfold rebuild_count in *. now rewrite trace_settle.
  - rewrite rebuild_count_emit_all. cbn [filter is_pipeline_start].
    rewrite filter_app, (filter_none _ _ Hevs). cbn.
    unfold rebuild_count. cbn [set_lastRebuildCall host trace]. lia.
Qed.

Lemma timers_run_timer (x : Timer) (w : World) :
  timers (host (run_timer options x w)) = timers (host w).
Proof.
  destruct (run_timer_spec x w) as (o & evs & _ & _ & ->).
  destruct o; rewrite ?timers_settle, timers_emit_all; reflexivity.
Qed.

Lemma lastRebuildCall_run_timer (x : Timer) (w : World) :
  lastRebuildCall (this (run_timer options x w)) = 0%Z.
Proof.
  destruct (run_timer_spec x w) as (o & evs & _ & _ & ->).
  assert (H : forall s, this (settle (timer_resolve x) s
                               (emit_all (EvReadAndGroup :: evs)
                                  (set_lastRebuildCall 0 w)))
                        = this (set_lastRebuildCall 0 w)).
  { intros s. unfold settle.
    destruct (nth_error _ _) as [[| |]|]; cbn [this set_promises];
      apply this_emit_all. }
  destruct o; rewrite ?H, ?this_emit_all; reflexivity.
Qed.

(** The only armed timer expires. *)
Lemma run_to_idle_single (x : Timer) (w : World) :
  timers (host w) = [x] ->
  run_to_idle options w =
    run_timer options x
      (set_clock (Z.max (clock (host w)) (due x)) (set_timers [] w)).
Proof.
  intros H. unfold run_to_idle, expire. rewrite H. cbn [fold_left filter].
  rewrite H. cbn [filter]. rewrite Nat.eqb_refl. reflexivity.
Qed.

End Expiry.

Lemma last_time_app (ts : list Trigger) (t : Trigger) :
  last_time (ts ++ [t]) = at_time t.
Proof. unfold last_time. rewrite map_app. cbn [map]. apply last_last. Qed.

(** C4: from an idle manager, a burst of triggers each less than
    [DEBOUNCE_MS] before the last one runs the pipeline exactly once: during
    the burst nothing runs and every call cancels the timer of the call
    before, so a single timer is armed when the burst ends; when it expires
    the pipeline runs once and the manager is idle again. *)
Theorem debounce_coalesces :
  forall (options : RebuildManagerOptions) (ts : list Trigger) (w : World),
    idle w ->
    coalesced ts ->
    let w' := snd (run_triggers options ts w) in
    rebuild_count w' = rebuild_count w /\
    List.length (timers (host w')) = 1 /\
    rebuild_count (run_to_idle options w') = S (rebuild_count w) /\
    idle (run_to_idle options w').
Proof.
  intros options ts w Hidle [Hne Hts]. cbv zeta.
  destruct (exists_last Hne) as (ts' & t & ->).
  rewrite last_time_app in Hts.
  rewrite (run_triggers_quiet options (at_time t)) by
    (try apply idle_quiet; assumption).
  cbn [snd].
  destruct (after_burst_spec ts' t w) as (Htm & Hp & Htr & Hc & _).
  set (w' := after_burst (ts' ++ [t]) w) in *.
  assert (Hcount : rebuild_count w' = rebuild_count w).
  { unfold rebuild_count. now rewrite Htr. }
  split; [exact Hcount|].
  split; [now rewrite Htm|].
  rewrite (run_to_idle_single options _ w' Htm).
  split.
  - rewrite rebuild_count_run_timer.
    unfold rebuild_count in *. cbn [set_clock set_timers host trace].
    now rewrite Hcount.
  - split; [apply lastRebuildCall_run_timer | now rewrite timers_run_timer].
Qed.

Lemma debounce_coalesces_witness :
  let ts := [Session.trigger 1000; Session.trigger 1100; Session.trigger 1250] in
  let w' := snd (run_triggers Session.options ts (Session.wired 0)) in
  rebuild_count w' = rebuild_count (Session.wired 0) /\
  List.length (timers (host w')) = 1 /\
  rebuild_count (run_to_idle Session.options w')
    = S (rebuild_count (Session.wired 0)) /\
  idle (run_to_idle Session.options w').
Proof.
  apply (debounce_coalesces Session.options
           [Session.trigger 1000; Session.trigger 1100; Session.trigger 1250]
           (Session.wired 0)).
  - split; reflexivity.
  - split; [discriminate|].
    intros t [<-|[<-|[<-|[]]]]; unfold last_time, DEBOUNCE_MS; simpl; lia.
Defined.

Lemma nth_error_pending (ps : list PromiseState) (k q : nat) :
  List.length ps <= q < List.length ps + k ->
  nth_error (ps ++ repeat Pending k) q = Some Pending.
Proof.
  intros H. rewrite nth_error_app2 by lia.
  apply nth_error_repeat. lia.
Qed.

Lemma last_seq (a n : nat) : last (seq a (S n)) 0 = a + n.
Proof.
  rewrite seq_S. rewrite last_last. reflexivity.
Qed.

Lemma removelast_seq (a n : nat) : removelast (seq a (S n)) = seq a n.
Proof. rewrite seq_S. apply removelast_last. Qed.

(** A burst inside one window, then the expiry of its timer: the one
    rebuild runs at [at_time t + DEBOUNCE_MS] on a world with one pending
    promise per call, and only the last of these promises can be settled by
    it. *)
Lemma burst_then_expiry (options : RebuildManagerOptions)
    (ts : list Trigger) (t : Trigger) (w : World) :
  idle w ->
  (forall u, In u (ts ++ [t]) ->
             (0 <= at_time t - at_time u < DEBOUNCE_MS)%Z) ->
  let w0 :=
    set_lastRebuildCall 0
      (set_clock (at_time t + DEBOUNCE_MS)
         (set_timers [] (after_burst (ts ++ [t]) w))) in
  let p := List.length (promises (host w)) + List.length ts in
  fst (run_triggers options (ts ++ [t]) w)
    = seq (List.length (promises (host w))) (S (List.length ts)) /\
  promises (host w0)
    = promises (host w) ++ repeat Pending (S (List.length ts)) /\
  clock (host w0) = (at_time t + DEBOUNCE_MS)%Z /\
  timers (host w0) = [] /\
  exists (o : Outcome RebuildResult) (evs : list Event),
    rebuild options (trigger_reason t) (trigger_modules t) w0
      = (o, emit_all (EvReadAndGroup :: evs) w0) /\
    run_to_idle options (snd (run_triggers options (ts ++ [t]) w)) =
      match o with
      | Return r =>
          settle p (Fulfilled r) (emit_all (EvReadAndGroup :: evs) w0)
      | Throw e =>
          emit_all (EvReadAndGroup :: evs ++ [EvUnhandledRejection e]) w0
      end.
Proof.
  intros Hidle Hts. cbv zeta.
  rewrite (run_triggers_quiet options (at_time t)) by
    (try apply idle_quiet; assumption).
  cbn [fst snd].
  destruct (after_burst_spec ts t w) as (Htm & Hp & Htr & Hc & _).
  set (w' := after_burst (ts ++ [t]) w) in *.
  rewrite (run_to_idle_single options _ w' Htm).
  set (x := {| timer_id := next_timer (host w) + List.length ts;
               due := at_time t + DEBOUNCE_MS;
               timer_reason := trigger_reason t;
               timer_modules := trigger_modules t;
               timer_resolve := List.length (promises (host w))
                                + List.length ts |}) in *.
  assert (Hmax : Z.max (clock (host w')) (due x) = (at_time t + DEBOUNCE_MS)%Z).
  { rewrite Hc. subst x. cbn [due]. unfold DEBOUNCE_MS. lia. }
  rewrite Hmax.
  rewrite length_app, Nat.add_1_r.
  split; [reflexivity|].
  split; [exact Hp|].
  split; [reflexivity|].
  split; [reflexivity|].
  destruct (run_timer_spec options x
              (set_clock (at_time t + DEBOUNCE_MS) (set_timers [] w')))
    as (o & evs & Hrun & _ & Hw'').
  exists o, evs. split; [exact Hrun | exact Hw''].
Qed.

(** C2, as amended: from an idle manager, after a burst of calls inside one
    debounce window and the expiry of its timer, the promises handed to the
    callers before the last one are still pending (their timers were
    cancelled) and no timer is left to resolve them, and, when the two
    collaborators return, the promise of the last caller is fulfilled with
    the result of the one rebuild. *)
Theorem debounce_resolves_last_caller :
  forall (options : RebuildManagerOptions) (ts : list Trigger) (w : World),
    idle w ->
    coalesced ts ->
    let ps := fst (run_triggers options ts w) in
    let w'' := run_to_idle options (snd (run_triggers options ts w)) in
    let expiry := (last_time ts + DEBOUNCE_MS)%Z in
    List.length ps = List.length ts /\
    timers (host w'') = [] /\
    (forall p, In p (removelast ps) -> promise_state p w'' = Some Pending) /\
    (forall g stats generated,
        readAndGroup (fileManager options) expiry = Return (g, stats) ->
        generateFiles (generationCoordinator options) expiry
                      (canonicalize (JObject g)) (root options)
          = Return generated ->
        exists r,
          promise_state (last ps 0) w'' = Some (Fulfilled r) /\
          grouped r = canonicalize (JObject g) /\
          jsonText r = JSON_stringify (canonicalize (JObject g))).
Proof.
  intros options ts w Hidle [Hne Hts]. cbv zeta.
  destruct (exists_last Hne) as (ts' & t & ->).
  rewrite last_time_app in *.
  destruct (burst_then_expiry options ts' t w Hidle Hts)
    as (Hps & Hprom & Hclock & Htimers & o & evs & Hrun & Hw'').
  set (w0 := set_lastRebuildCall 0 _) in *.
  rewrite Hps, Hw''. clear Hps Hw''.
  rewrite length_app, Nat.add_1_r.
  rewrite length_seq, last_seq, removelast_seq.
  split; [reflexivity|]. split; [|split].
  - destruct o; rewrite ?timers_settle, timers_emit_all; exact Htimers.
  - intros p Hin. apply in_seq in Hin.
    destruct o as [r|e].
    + rewrite promise_state_settle.
      destruct (Nat.eqb_spec p (List.length (promises (host w))
                                + List.length ts')); [lia|].
      unfold promise_state. rewrite promises_emit_all, Hprom.
      apply nth_error_pending. lia.
    + unfold promise_state. rewrite promises_emit_all, Hprom.
      apply nth_error_pending. lia.
  - intros g stats generated Hr Hg.
    rewrite <- Hclock in Hr, Hg.
    pose proof (rebuild_returns options (trigger_reason t) (trigger_modules t)
                  w0 g stats generated Hr Hg) as Hret.
    cbv zeta in Hret. rewrite Hret in Hrun.
    destruct o as [r|e]; [|discriminate Hrun].
    exists r. rewrite promise_state_settle, Nat.eqb_refl.
    unfold promise_state. rewrite promises_emit_all, Hprom.
    rewrite nth_error_pending by lia.
    split; [reflexivity|].
    injection Hrun as Hr' _. subst r. split; reflexivity.
Qed.

Lemma debounce_resolves_last_caller_witness :
  let ts := [Session.trigger 1000; Session.trigger 1100; Session.trigger 1250] in
  let ps := fst (run_triggers Session.options ts (Session.wired 0)) in
  let w'' := run_to_idle Session.options
               (snd (run_triggers Session.options ts (Session.wired 0))) in
  let expiry := (last_time ts + DEBOUNCE_MS)%Z in
  List.length ps = List.length ts /\
  timers (host w'') = [] /\
  (forall p, In p (removelast ps) -> promise_state p w'' = Some Pending) /\
  (forall g stats generated,
      readAndGroup (fileManager Session.options) expiry = Return (g, stats) ->
      generateFiles (generationCoordinator Session.options) expiry
                    (canonicalize (JObject g)) (root Session.options)
        = Return generated ->
      exists r,
        promise_state (last ps 0) w'' = Some (Fulfilled r) /\
        grouped r = canonicalize (JObject g) /\
        jsonText r = JSON_stringify (canonicalize (JObject g))).
Proof.
  apply (debounce_resolves_last_caller Session.options
           [Session.trigger 1000; Session.trigger 1100; Session.trigger 1250]
           (Session.wired 0)).
  - split; reflexivity.
  - split; [discriminate|].
    intros t [<-|[<-|[<-|[]]]]; unfold last_time, DEBOUNCE_MS; simpl; lia.
Defined.

(** C2, as stated, fails: of two calls 100 ms apart, the promise of the
    first is still pending after the one rebuild has completed; only the
    second caller gets the result. *)
Lemma debounce_fan_out_counterexample :
  let ts := [Session.trigger 1000; Session.trigger 1100] in
  let ps := fst (run_triggers Session.options ts (Session.wired 0)) in
  let w'' := run_to_idle Session.options
               (snd (run_triggers Session.options ts (Session.wired 0))) in
  idle (Session.wired 0) /\
  coalesced ts /\
  rebuild_count w'' = 1 /\
  ~ (forall p, In p ps ->
               exists r, promise_state p w'' = Some (Fulfilled r)).
Proof.
  cbv zeta. split; [split; reflexivity|]. split.
  { split; [discriminate|].
    intros t [<-|[<-|[]]]; unfold last_time, DEBOUNCE_MS; simpl; lia. }
  split; [reflexivity|].
  intros H. destruct (H 0 (or_introl eq_refl)) as [r Hr].
  vm_compute in Hr. discriminate Hr.
Qed.

(** C6, evaluated where the code departs from it: the aggregation throws
    while a debounced rebuild runs from its timer. [rebuild] itself throws
    the error, but the promise [debouncedRebuild] returned stays pending
    with no timer left to settle it; the error surfaces as an unhandled
    rejection of the timer callback. *)
Theorem debounced_rebuild_error_is_lost :
  let burst := run_triggers Session.options_unreadable [Session.trigger 1000]
                            (Session.wired 0) in
  let w'' := run_to_idle Session.options_unreadable (snd burst) in
  fst (rebuild Session.options_unreadable "change" Session.test_modules
               (Session.wired 1300))
    = Throw "ENOENT: no such file or directory" /\
  fst burst = [0] /\
  promise_state 0 w'' = Some Pending /\
  timers (host w'') = [] /\
  In (EvUnhandledRejection "ENOENT: no such file or directory")
     (trace (host w'')).
Proof.
  cbv zeta. repeat split; try reflexivity.
  vm_compute. right. left. reflexivity.
Qed.

(* ===================================================================== *)
(** * Invariants along the steps of the event loop *)
(* ===================================================================== *)

Section Steps.

Variable options : RebuildManagerOptions.

Lemma steps_trans (w1 w2 w3 : World) :
  steps options w1 w2 -> steps options w2 w3 -> steps options w1 w3.
Proof.
  induction 1 as [|a b c Hab _ IH]; intros H; [exact H|].
  eapply steps_next; [exact Hab | now apply IH].
Qed.

Lemma steps_one (w1 w2 : World) : step options w1 w2 -> steps options w1 w2.
Proof. intros H. eapply steps_next; [exact H | apply steps_refl]. Qed.

Lemma create_one_timer (t0 : Z) : one_timer (create t0).
Proof. split; [cbn; lia | intros x []]. Qed.

Lemma idle_one_timer (w : World) : idle w -> one_timer w.
Proof.
  intros [_ Ht]. split; [rewrite Ht; cbn; lia|].
  intros x Hx. rewrite Ht in Hx. destruct Hx.
Qed.

Lemma this_settle (p : nat) (s : PromiseState) (w : World) :
  this (settle p s w) = this w.
Proof.
  unfold settle. destruct (nth_error (promises (host w)) p) as [[| |]|];
    reflexivity.
Qed.

Lemma rebuildTimer_run_timer (x : Timer) (w : World) :
  rebuildTimer (this (run_timer options x w)) = rebuildTimer (this w).
Proof.
  destruct (run_timer_spec options x w) as (o & evs & _ & _ & ->).
  destruct o; rewrite ?this_settle, this_emit_all; reflexivity.
Qed.

Lemma promises_run_timer (x : Timer) (w : World) (p : nat) :
  p <> timer_resolve x ->
  promise_state p (run_timer options x w) = promise_state p w.
Proof.
  intros Hp.
  destruct (run_timer_spec options x w) as (o & evs & _ & _ & ->).
  destruct o as [r|e].
  - rewrite promise_state_settle.
    destruct (Nat.eqb_spec p (timer_resolve x)); [contradiction|].
    unfold promise_state. now rewrite promises_emit_all.
  - unfold promise_state. now rewrite promises_emit_all.
Qed.

(** The two paths of [debouncedRebuild], on a manager that keeps the timer
    discipline. *)
Lemma debouncedRebuild_cases (reason : string)
    (mods : list EnvironmentModuleNode) (w : World) :
  timers_tracked w ->
  snd (debouncedRebuild options reason mods w)
    = scheduled (clock (host w)) reason mods w
  \/ exists (o : Outcome RebuildResult) (evs : list Event),
       snd (debouncedRebuild options reason mods w)
       = set_promises (promises (host w) ++ [settled o])
           (emit_all evs (pending_cleared w)).
Proof.
  intros Htr.
  destruct (Z.eq_dec (lastRebuildCall (this w)) 0) as [E0|Hne].
  { left. rewrite debouncedRebuild_scheduled by (auto). reflexivity. }
  destruct (Z_lt_ge_dec (clock (host w) - lastRebuildCall (this w)) MAX_WAIT_MS)
    as [Hlt|Hge].
  { left. rewrite debouncedRebuild_scheduled by (auto). reflexivity. }
  right.
  rewrite (debouncedRebuild_forced options reason mods w Htr Hne Hge).
  destruct (rebuild_emits options reason mods (pending_cleared w))
    as (o & evs & Hrun & _).
  rewrite Hrun. exists o, (EvReadAndGroup :: evs). cbn [snd].
  rewrite promises_emit_all. reflexivity.
Qed.

Lemma filter_length_le {A : Type} (f : A -> bool) (l : list A) :
  List.length (filter f l) <= List.length l.
Proof.
  induction l as [|a l IH]; simpl; [lia|]. destruct (f a); simpl; lia.
Qed.

(** Every step keeps the timer discipline. *)
Lemma one_timer_step (w w' : World) :
  one_timer w -> step options w w' -> one_timer w'.
Proof.
  intros [Hlen Htr] Hstep.
  destruct Hstep as [server virtualId w|env w|reason mods w|reason mods w
                     |x w Hx|t w].
  - split; [exact Hlen | exact Htr].
  - split; [exact Hlen | exact Htr].
  - destruct (debouncedRebuild_cases reason mods w Htr)
      as [->|(o & evs & ->)].
    + split; [cbn; lia|]. intros y [<-|[]]. reflexivity.
    + split.
      * cbn [set_promises host timers]. rewrite timers_emit_all. cbn. lia.
      * intros y Hy. cbn [set_promises host timers] in Hy.
        rewrite timers_emit_all in Hy. destruct Hy.
  - destruct (rebuild_emits options reason mods w) as (o & evs & -> & _).
    cbn [snd]. split.
    + now rewrite timers_emit_all.
    + intros y Hy. rewrite timers_emit_all in Hy. rewrite this_emit_all.
      now apply Htr.
  - unfold expire. split.
    + rewrite timers_run_timer. cbn [set_clock set_timers host timers].
      pose proof (filter_length_le
                    (fun y => negb (timer_id y =? timer_id x)%nat)
                    (timers (host w))). lia.
    + intros y Hy. rewrite timers_run_timer in Hy.
      cbn [set_clock set_timers host timers] in Hy.
      apply filter_In in Hy. destruct Hy as [Hy _].
      rewrite rebuildTimer_run_timer. now apply Htr.
  - split; [exact Hlen | exact Htr].
Qed.

Lemma promise_state_lt (p : nat) (w : World) (s : PromiseState) :
  promise_state p w = Some s -> p < List.length (promises (host w)).
Proof.
  unfold promise_state. intros H. apply nth_error_Some. congruence.
Qed.

(** No step settles an orphaned promise, or hands it to a timer. *)
Lemma orphaned_step (p : nat) (w w' : World) :
  one_timer w -> orphaned p w -> step options w w' -> orphaned p w'.
Proof.
  intros [_ Htr] [Hp Hno] Hstep.
  pose proof (promise_state_lt p w _ Hp) as Hlt.
  destruct Hstep as [server virtualId w|env w|reason mods w|reason mods w
                     |x w Hx|t w].
  - split; [exact Hp | exact Hno].
  - split; [exact Hp | exact Hno].
  - destruct (debouncedRebuild_cases reason mods w Htr)
      as [->|(o & evs & ->)].
    + split.
      * unfold promise_state in *. cbn [scheduled host promises].
        now rewrite nth_error_app1.
      * intros (y & Hy & Hres). cbn [scheduled host timers] in Hy.
        destruct Hy as [<-|[]]. cbn [timer_resolve] in Hres. lia.
    + split.
      * unfold promise_state in *. cbn [set_promises host promises].
        now rewrite nth_error_app1.
      * intros (y & Hy & _). cbn [set_promises host timers] in Hy.
        rewrite timers_emit_all in Hy. destruct Hy.
  - destruct (rebuild_emits options reason mods w) as (o & evs & -> & _).
    cbn [snd]. split.
    + unfold promise_state in *. now rewrite promises_emit_all.
    + intros (y & Hy & Hres). rewrite timers_emit_all in Hy.
      apply Hno. now exists y.
  - assert (Hne : p <> timer_resolve x).
    { intros ->. apply Hno. now exists x. }
    unfold expire. split.
    + rewrite (promises_run_timer x _ p Hne). exact Hp.
    + intros (y & Hy & Hres). rewrite timers_run_timer in Hy.
      cbn [set_clock set_timers host timers] in Hy.
      apply filter_In in Hy. destruct Hy as [Hy _].
      apply Hno. now exists y.
  - split; [exact Hp | exact Hno].
Qed.

Lemma one_timer_steps (w w' : World) :
  one_timer w -> steps options w w' -> one_timer w'.
Proof.
  intros H Hs. induction Hs as [|a b c Hab _ IH]; [exact H|].
  apply IH. now apply (one_timer_step a b).
Qed.

(** An orphaned promise stays pending, whatever happens next. *)
Lemma orphaned_never_settles (p : nat) (w w' : World) :
  one_timer w -> orphaned p w -> steps options w w' ->
  promise_state p w' = Some Pending.
Proof.
  intros H1 Ho Hs. induction Hs as [w|a b c Hab _ IH]; [exact (proj1 Ho)|].
  apply IH.
  - now apply (one_timer_step a b).
  - now apply (orphaned_step p a b).
Qed.

(** The runs of the event loop are made of steps. *)
Lemma steps_advance_to (t : Z) (w : World) :
  one_timer w -> steps options w (advance_to options t w).
Proof.
  intros [Hlen _]. unfold advance_to.
  destruct (timers (host w)) as [|x [|y l]] eqn:E; [| |cbn in Hlen; lia].
  - cbn [filter fold_left]. apply steps_one, step_tick.
  - cbn [filter]. destruct (due x <=? t)%Z; cbn [fold_left].
    + eapply steps_next; [|apply steps_one, step_tick].
      apply step_expire. rewrite E. now left.
    + apply steps_one, step_tick.
Qed.

Lemma steps_run_to_idle (w : World) :
  one_timer w -> steps options w (run_to_idle options w).
Proof.
  intros [Hlen _]. unfold run_to_idle.
  destruct (timers (host w)) as [|x [|y l]] eqn:E; [| |cbn in Hlen; lia].
  - apply steps_refl.
  - cbn [fold_left]. apply steps_one, step_expire. rewrite E. now left.
Qed.

Lemma steps_run_triggers (ts : list Trigger) :
  forall w, one_timer w ->
            steps options w (snd (run_triggers options ts w)).
Proof.
  induction ts as [|t ts IH]; intros w H1; [apply steps_refl|].
  cbn [run_triggers].
  pose proof (steps_advance_to (at_time t) w H1) as Ha.
  pose proof (one_timer_steps _ _ H1 Ha) as H2.
  destruct (debouncedRebuild options (trigger_reason t) (trigger_modules t)
              (advance_to options (at_time t) w)) as [p w1] eqn:Ed.
  assert (Hs : step options (advance_to options (at_time t) w) w1).
  { replace w1 with (snd (debouncedRebuild options (trigger_reason t)
                            (trigger_modules t)
                            (advance_to options (at_time t) w)))
      by now rewrite Ed.
    apply step_debouncedRebuild. }
  pose proof (one_timer_step _ _ H2 Hs) as H3.
  specialize (IH w1 H3).
  destruct (run_triggers options ts w1) as [ps w2]. cbn [snd] in *.
  eapply steps_trans; [exact Ha|].
  eapply steps_next; [exact Hs | exact IH].
Qed.

(** After a burst inside one window and the expiry of its timer, the
    callers before the last one wait forever: their promises are pending
    and stay so whatever the manager does next. *)
Lemma earlier_callers_never_resolve (ts : list Trigger) (w w''' : World)
    (p : nat) :
  idle w ->
  coalesced ts ->
  In p (removelast (fst (run_triggers options ts w))) ->
  steps options (run_to_idle options (snd (run_triggers options ts w))) w''' ->
  promise_state p w''' = Some Pending.
Proof.
  intros Hidle [Hne Hts] Hin Hsteps.
  destruct (exists_last Hne) as (ts' & t & ->).
  rewrite last_time_app in *.
  destruct (burst_then_expiry options ts' t w Hidle Hts)
    as (Hps & Hprom & _ & Htimers & o & evs & _ & Hw'').
  set (w0 := set_lastRebuildCall 0 _) in *.
  rewrite Hps, removelast_seq in Hin. apply in_seq in Hin.
  assert (Ht'' : timers (host (run_to_idle options
                                 (snd (run_triggers options (ts' ++ [t]) w))))
                 = []).
  { rewrite Hw''. destruct o; rewrite ?timers_settle, timers_emit_all;
      exact Htimers. }
  refine (orphaned_never_settles p _ w''' _ _ Hsteps).
  - split; [rewrite Ht''; cbn; lia|].
    intros y Hy. rewrite Ht'' in Hy. destruct Hy.
  - split.
    + rewrite Hw''. destruct o as [r|e].
      * rewrite promise_state_settle.
        destruct (Nat.eqb_spec p (List.length (promises (host w))
                                  + List.length ts')); [lia|].
        unfold promise_state. rewrite promises_emit_all, Hprom.
        apply nth_error_pending. lia.
      * unfold promise_state. rewrite promises_emit_all, Hprom.
        apply nth_error_pending. lia.
    + intros (y & Hy & _). rewrite Ht'' in Hy. destruct Hy.
Qed.

(** The defect behind C6, in general: when the aggregation throws in the
    rebuild run by the timer of a burst, the error is an unhandled
    rejection of the timer callback, and the promise of the last caller is
    never settled. *)
Lemma timer_rebuild_error_never_reaches_caller (ts : list Trigger)
    (w w''' : World) (e : Error) :
  idle w ->
  coalesced ts ->
  readAndGroup (fileManager options) (last_time ts + DEBOUNCE_MS) = Throw e ->
  let w'' := run_to_idle options (snd (run_triggers options ts w)) in
  In (EvUnhandledRejection e) (trace (host w'')) /\
  (steps options w'' w''' ->
   promise_state (last (fst (run_triggers options ts w)) 0) w'''
     = Some Pending).
Proof.
  intros Hidle [Hne Hts] Hthrow. cbv zeta.
  destruct (exists_last Hne) as (ts' & t & ->).
  rewrite last_time_app in *.
  destruct (burst_then_expiry options ts' t w Hidle Hts)
    as (Hps & Hprom & Hclock & Htimers & o & evs & Hrun & Hw'').
  set (w0 := set_lastRebuildCall 0 _) in *.
  rewrite <- Hclock in Hthrow.
  rewrite (rebuild_read_throws options _ _ w0 e Hthrow) in Hrun.
  injection Hrun as <- _.
  rewrite Hps, last_seq, Hw''. split.
  - rewrite trace_emit_all. apply in_or_app. right.
    change (EvReadAndGroup :: evs ++ [EvUnhandledRejection e])
      with ((EvReadAndGroup :: evs) ++ [EvUnhandledRejection e]).
    apply in_or_app. right. now left.
  - intros Hsteps.
    refine (orphaned_never_settles _ _ w''' _ _ Hsteps).
    + split.
      * rewrite timers_emit_all, Htimers. cbn. lia.
      * intros y Hy. rewrite timers_emit_all, Htimers in Hy. destruct Hy.
    + split.
      * unfold promise_state. rewrite promises_emit_all, Hprom.
        apply nth_error_pending. lia.
      * intros (y & Hy & _). rewrite timers_emit_all, Htimers in Hy.
        destruct Hy.
Qed.

End Steps.

(* ===================================================================== *)
(** * The max-wait escape *)
(* ===================================================================== *)

Section MaxWait.

Variable options : RebuildManagerOptions.

Lemma last_cons_default {A : Type} (x : A) (l : list A) (d d' : A) :
  last (x :: l) d = last (x :: l) d'.
Proof.
  revert x. induction l as [|y l IH]; intros x; [reflexivity|].
  change (last (y :: l) d = last (y :: l) d'). apply IH.
Qed.

Lemma pending_since_quiet (start latest t : Z) (w : World) :
  pending_since start latest w ->
  (0 <= t - latest < DEBOUNCE_MS)%Z ->
  (t - start < MAX_WAIT_MS)%Z ->
  quiet_until t w.
Proof.
  intros (Hl & Hne & Htr & Hdue) Ht Hs. split.
  - intros x Hx. split; [now apply Htr|]. rewrite (Hdue x Hx). lia.
  - right. rewrite Hl. exact Hs.
Qed.

(** While the triggers keep coming and the window is younger than
    [MAX_WAIT_MS], every call only replaces the timer. *)
Lemma run_triggers_pending (ts : list Trigger) :
  forall (start latest : Z) (w : World),
    pending_since start latest w ->
    follow_closely latest ts ->
    (forall t, In t ts -> (at_time t - start < MAX_WAIT_MS)%Z) ->
    let w' := snd (run_triggers options ts w) in
    pending_since start (last (map at_time ts) latest) w' /\
    trace (host w') = trace (host w).
Proof.
  induction ts as [|t ts IH]; intros start latest w Hp Hc Hyoung.
  - cbn. split; [exact Hp | reflexivity].
  - destruct Hc as [Hgap Hc].
    pose proof (Hyoung t (or_introl eq_refl)) as Hy.
    pose proof (pending_since_quiet start latest (at_time t) w Hp Hgap Hy)
      as Hq.
    cbn [run_triggers].
    rewrite (debounce_step options (at_time t) t w Hq) by lia.
    set (w1 := scheduled (at_time t) (trigger_reason t) (trigger_modules t) w).
    assert (Hp1 : pending_since start (at_time t) w1).
    { destruct Hp as (Hl & Hne & _ & _). subst w1. repeat split.
      - cbn [scheduled this lastRebuildCall].
        destruct (Z.eqb_spec (lastRebuildCall (this w)) 0); congruence.
      - exact Hne.
      - intros x [<-|[]]. reflexivity.
      - intros x [<-|[]]. reflexivity. }
    specialize (IH start (at_time t) w1 Hp1 Hc
                  (fun u Hu => Hyoung u (or_intror Hu))).
    cbv zeta in IH.
    destruct (run_triggers options ts w1) as [ps w2]. cbn [snd] in *.
    destruct IH as [IH1 IH2]. split.
    + destruct ts as [|u ts]; [exact IH1|].
      cbn [map] in *.
      change (last (at_time t :: at_time u :: map at_time ts) latest)
        with (last (at_time u :: map at_time ts) latest).
      now rewrite (last_cons_default _ _ latest (at_time t)).
    + rewrite IH2. reflexivity.
Qed.

Lemma run_triggers_snoc (ts : list Trigger) (t : Trigger) :
  forall w,
    snd (run_triggers options (ts ++ [t]) w)
    = snd (debouncedRebuild options (trigger_reason t) (trigger_modules t)
             (advance_to options (at_time t)
                         (snd (run_triggers options ts w)))).
Proof.
  induction ts as [|u ts IH]; intros w.
  - cbn [app run_triggers snd].
    now destruct (debouncedRebuild options (trigger_reason t)
                    (trigger_modules t) (advance_to options (at_time t) w)).
  - cbn [app run_triggers].
    destruct (debouncedRebuild options (trigger_reason u)
                (trigger_modules u) (advance_to options (at_time u) w))
      as [p w2].
    specialize (IH w2).
    destruct (run_triggers options (ts ++ [t]) w2) as [ps1 wa].
    destruct (run_triggers options ts w2) as [ps2 wb].
    cbn [snd] in *. exact IH.
Qed.

(** Max-wait escape: from an idle manager, when triggers keep coming less
    than [DEBOUNCE_MS] apart, so that no timer ever expires, the first
    trigger that comes [MAX_WAIT_MS] or more after the first one runs the
    rebuild at once, and the manager is idle again. *)
Lemma max_wait_escape (first : Trigger) (ts : list Trigger)
    (forced : Trigger) (w : World) :
  idle w ->
  at_time first <> 0%Z ->
  follow_closely (at_time first) (ts ++ [forced]) ->
  (forall t, In t ts -> (at_time t - at_time first < MAX_WAIT_MS)%Z) ->
  (at_time forced - at_time first >= MAX_WAIT_MS)%Z ->
  let w' := snd (run_triggers options (first :: ts ++ [forced]) w) in
  rebuild_count w' = S (rebuild_count w) /\
  idle w' /\
  clock (host w') = at_time forced.
Proof.
  intros Hidle Hne Hclose Hyoung Hforced. cbv zeta.
  set (w1 := scheduled (at_time first) (trigger_reason first)
                       (trigger_modules first) w).
  assert (Hfirst : snd (run_triggers options (first :: ts ++ [forced]) w)
                   = snd (run_triggers options (ts ++ [forced]) w1)).
  { cbn [run_triggers].
    rewrite (debounce_step options (at_time first) first w
               (idle_quiet (at_time first) w Hidle)) by lia.
    fold w1. now destruct (run_triggers options (ts ++ [forced]) w1). }
  rewrite Hfirst. clear Hfirst.
  assert (Hp1 : pending_since (at_time first) (at_time first) w1).
  { destruct Hidle as [Hl _]. subst w1. repeat split.
    - cbn [scheduled this lastRebuildCall]. now rewrite Hl.
    - exact Hne.
    - intros x [<-|[]]. reflexivity.
    - intros x [<-|[]]. reflexivity. }
  assert (Htrace1 : trace (host w1) = trace (host w)) by reflexivity.
  assert (Hclose' : follow_closely (at_time first) ts /\
                    (0 <= at_time forced
                          - last (map at_time ts) (at_time first)
                     < DEBOUNCE_MS)%Z).
  { clear - Hclose. revert Hclose. generalize (at_time first) as prev.
    induction ts as [|t ts IH]; intros prev H.
    - cbn in *. destruct H as [H _]. split; [exact I | exact H].
    - cbn [app follow_closely] in H. destruct H as [Hgap H].
      destruct (IH _ H) as [IH1 IH2]. split; [split; assumption|].
      destruct ts as [|u ts]; [exact IH2|].
      cbn [map] in *.
      change (last (at_time t :: at_time u :: map at_time ts) prev)
        with (last (at_time u :: map at_time ts) prev).
      now rewrite (last_cons_default _ _ prev (at_time t)). }
  destruct Hclose' as [Hclose1 Hlast].
  pose proof (run_triggers_pending ts (at_time first) (at_time first) w1
                Hp1 Hclose1 Hyoung) as Hrun.
  cbv zeta in Hrun.
  destruct (run_triggers options ts w1) as [ps wa] eqn:E.
  cbn [snd] in Hrun. destruct Hrun as [Hpa Htr].
  rewrite (run_triggers_snoc ts forced w1), E. cbn [snd].
  destruct Hpa as (Hl & _ & Htracked & Hdue).
  (* no timer is due when the forcing trigger comes *)
  assert (Hadv : advance_to options (at_time forced) wa
                 = set_clock (at_time forced) wa).
  { unfold advance_to.
    assert (Hnil : filter (fun x => (due x <=? at_time forced)%Z)
                          (timers (host wa)) = []).
    { induction (timers (host wa)) as [|x l IHl]; [reflexivity|].
      cbn [filter].
      rewrite (Hdue x (or_introl eq_refl)).
      destruct (Z.leb_spec (last (map at_time ts) (at_time first)
                            + DEBOUNCE_MS) (at_time forced)); [lia|].
      apply IHl. intros y Hy. apply Hdue. now right. }
    now rewrite Hnil. }
  rewrite Hadv.
  rewrite debouncedRebuild_forced.
  - destruct (rebuild_emits options (trigger_reason forced)
                (trigger_modules forced)
                (pending_cleared (set_clock (at_time forced) wa)))
      as (o & evs & -> & Hevs).
    cbn [snd]. split; [|split].
    + unfold rebuild_count. cbn [set_promises host trace].
      fold (rebuild_count (emit_all (EvReadAndGroup :: evs)
              (pending_cleared (set_clock (at_time forced) wa)))).
      rewrite rebuild_count_emit_all. cbn [filter is_pipeline_start].
      rewrite (filter_none _ _ Hevs). cbn [List.length].
      unfold rebuild_count, pending_cleared.
      cbn [set_timers set_lastRebuildCall set_clock host trace].
      rewrite Htr, Htrace1. lia.
    + split.
      * cbn [set_promises this]. now rewrite this_emit_all.
      * cbn [set_promises host timers]. now rewrite timers_emit_all.
    + cbn [set_promises host clock]. now rewrite clock_emit_all.
  - intros x Hx. now apply Htracked.
  - cbn [set_clock this]. rewrite Hl. exact Hne.
  - cbn [set_clock this host clock]. rewrite Hl. exact Hforced.
Qed.

End MaxWait.

(* ===================================================================== *)
(** * The canonicalizer *)
(* ===================================================================== *)

Lemma All_Forall {A : Type} (P : A -> Prop) (l : list A) :
  All P l <-> Forall P l.
Proof.
  induction l as [|x l IH]; simpl.
  - split; [constructor | trivial].
  - rewrite IH. split.
    + intros [Hx Hl]. now constructor.
    + intros H. inversion H. now split.
Qed.

(** ** The order on keys *)

Lemma key_ltb_lt (a b : string) :
  key_ltb a b = true <-> String_as_OT.lt a b.
Proof.
  unfold key_ltb, String_as_OT.lt.
  destruct (String_as_OT.compare a b); split; congruence.
Qed.

Lemma key_ltb_irrefl (a : string) : key_ltb a a = false.
Proof.
  destruct (key_ltb a a) eqn:E; [|reflexivity].
  apply key_ltb_lt in E.
  exfalso. exact (StrictOrder_Irreflexive (R := String_as_OT.lt) a E).
Qed.

Lemma key_ltb_asym (a b : string) :
  key_ltb a b = true -> key_ltb b a = false.
Proof.
  intros H. destruct (key_ltb b a) eqn:E; [|reflexivity].
  apply key_ltb_lt in H, E. exfalso.
  apply (StrictOrder_Irreflexive (R := String_as_OT.lt) a).
  now transitivity b.
Qed.

Lemma key_ltb_total (a b : string) :
  key_ltb a b = false -> key_ltb b a = false -> a = b.
Proof.
  intros Hab Hba.
  destruct (String_as_OT.compare_spec a b) as [E|L|L].
  - exact E.
  - apply key_ltb_lt in L. congruence.
  - apply key_ltb_lt in L. congruence.
Qed.

Lemma key_ltb_trans_false (a b c : string) :
  key_ltb b a = false -> key_ltb c b = false -> key_ltb c a = false.
Proof.
  intros Hba Hcb. destruct (key_ltb c a) eqn:E; [|reflexivity].
  exfalso. apply key_ltb_lt in E.
  destruct (String_as_OT.compare_spec a b) as [Eab|L|L].
  - change (a = b) in Eab. subst b. apply key_ltb_lt in E. congruence.
  - assert (String_as_OT.lt c b) by now transitivity a.
    apply key_ltb_lt in H. congruence.
  - apply key_ltb_lt in L. congruence.
Qed.

Lemma key_le_trans (a b c : string * JSONValue) :
  key_le a b -> key_le b c -> key_le a c.
Proof. unfold key_le. intros H1 H2. eapply key_ltb_trans_false; eauto. Qed.

(** ** Insertion sort on members *)

Lemma insert_member_perm (kv : string * JSONValue)
    (l : list (string * JSONValue)) :
  Permutation (insert_member kv l) (kv :: l).
Proof.
  induction l as [|kv' l IH]; simpl; [reflexivity|].
  destruct (key_ltb (fst kv') (fst kv)).
  - rewrite IH. apply perm_swap.
  - reflexivity.
Qed.

Lemma sort_members_perm (l : list (string * JSONValue)) :
  Permutation (sort_members l) l.
Proof.
  induction l as [|kv l IH]; simpl; [reflexivity|].
  rewrite insert_member_perm. now constructor.
Qed.

Lemma insert_member_sorted (kv : string * JSONValue)
    (l : list (string * JSONValue)) :
  StronglySorted key_le l -> StronglySorted key_le (insert_member kv l).
Proof.
  induction l as [|kv' l IH]; intros Hs; simpl.
  - repeat constructor.
  - inversion Hs as [|? ? Hl Hall]; subst.
    destruct (key_ltb (fst kv') (fst kv)) eqn:E.
    + constructor; [now apply IH|].
      rewrite (insert_member_perm kv l). constructor; [|exact Hall].
      unfold key_le. now apply key_ltb_asym.
    + constructor; [exact Hs|]. constructor; [exact E|].
      rewrite Forall_forall in *. intros y Hy.
      apply (key_le_trans kv kv' y); [exact E | now apply Hall].
Qed.

Lemma sort_members_sorted (l : list (string * JSONValue)) :
  StronglySorted key_le (sort_members l).
Proof.
  induction l as [|kv l IH]; simpl; [constructor|].
  now apply insert_member_sorted.
Qed.

(** Sorting is the identity on a sorted list (the sort is stable). *)
Lemma sort_members_id (l : list (string * JSONValue)) :
  StronglySorted key_le l -> sort_members l = l.
Proof.
  induction l as [|kv l IH]; intros Hs; simpl; [reflexivity|].
  inversion Hs as [|? ? Hl Hall]; subst.
  rewrite (IH Hl). destruct l as [|kv' l]; simpl; [reflexivity|].
  inversion Hall as [|? ? Hle _]; subst.
  unfold key_le in Hle. now rewrite Hle.
Qed.

(** Two sorted arrangements of the same members, with distinct keys, are
    the same list. *)
Lemma sorted_perm_unique (l1 l2 : list (string * JSONValue)) :
  StronglySorted key_le l1 -> StronglySorted key_le l2 ->
  NoDup (keys l1) -> Permutation l1 l2 -> l1 = l2.
Proof.
  revert l2. induction l1 as [|a l1 IH]; intros l2 Hs1 Hs2 Hnd Hp.
  - apply Permutation_nil in Hp. now subst.
  - destruct l2 as [|b l2].
    { apply Permutation_sym, Permutation_nil in Hp. discriminate. }
    inversion Hs1 as [|? ? Hs1' Ha]; subst.
    inversion Hs2 as [|? ? Hs2' Hb]; subst.
    simpl in Hnd. inversion Hnd as [|? ? Hnotin Hnd']; subst.
    assert (Hab : a = b).
    { assert (Hina : In a (b :: l2))
        by (eapply Permutation_in; [exact Hp | now left]).
      assert (Hinb : In b (a :: l1))
        by (eapply Permutation_in;
            [apply Permutation_sym; exact Hp | now left]).
      destruct Hina as [E|Hina]; [now symmetry|].
      destruct Hinb as [E|Hinb]; [exact E|].
      rewrite Forall_forall in Ha, Hb.
      pose proof (Ha b Hinb) as H1. pose proof (Hb a Hina) as H2.
      unfold key_le in H1, H2.
      assert (Hk : fst a = fst b) by now apply key_ltb_total.
      exfalso. apply Hnotin. rewrite Hk.
      unfold keys. now apply in_map. }
    rewrite <- Hab in *. f_equal. apply IH; try assumption.
    now apply Permutation_cons_inv in Hp.
Qed.

Lemma sort_members_perm_eq (l1 l2 : list (string * JSONValue)) :
  NoDup (keys l1) -> Permutation l1 l2 -> sort_members l1 = sort_members l2.
Proof.
  intros Hnd Hp. apply sorted_perm_unique.
  - apply sort_members_sorted.
  - apply sort_members_sorted.
  - unfold keys. eapply Permutation_NoDup; [|exact Hnd].
    apply Permutation_map, Permutation_sym, sort_members_perm.
  - rewrite sort_members_perm, Hp. symmetry. apply sort_members_perm.
Qed.

(** ** canonicalize *)

Lemma canonicalize_object (members : list (string * JSONValue)) :
  canonicalize (JObject members) =
    JObject (sort_members (map canonicalize_member members)).
Proof. reflexivity. Qed.

Lemma keys_canonicalize_member (l : list (string * JSONValue)) :
  keys (map canonicalize_member l) = keys l.
Proof.
  unfold keys. rewrite map_map. apply map_ext. now intros [k x].
Qed.

Lemma map_fixed {A : Type} (f : A -> A) (l : list A) :
  Forall (fun x => f x = x) l -> map f l = l.
Proof.
  induction 1 as [|x l Hx _ IH]; simpl; [reflexivity|]. now rewrite Hx, IH.
Qed.

Lemma canonicalize_idempotent (d : JSONValue) :
  canonicalize (canonicalize d) = canonicalize d.
Proof.
  induction d as [| | | |items IH|members IH] using JSONValue_nested_ind;
    try reflexivity.
  - simpl. f_equal. rewrite map_map.
    apply map_ext_Forall. exact IH.
  - rewrite !canonicalize_object. f_equal.
    set (l := map canonicalize_member members).
    assert (Hfix : Forall (fun kv => canonicalize_member kv = kv)
                          (sort_members l)).
    { eapply Permutation_Forall;
        [apply Permutation_sym, sort_members_perm|].
      subst l. rewrite Forall_map.
      eapply Forall_impl; [|exact IH].
      intros [k x] Hx. simpl in *. now rewrite Hx. }
    rewrite (map_fixed _ _ Hfix).
    apply sort_members_id, sort_members_sorted.
Qed.

Lemma canonicalize_order_independent (d1 : JSONValue) :
  forall d2, well_formed d1 -> unordered_equal d1 d2 ->
             canonicalize d1 = canonicalize d2.
Proof.
  induction d1 as [| | | |items IH|members IH] using JSONValue_nested_ind;
    intros d2 Hwf Hue; inversion Hue; subst; try reflexivity.
  - (* sequences *)
    simpl. f_equal.
    simpl in Hwf. apply All_Forall in Hwf.
    match goal with H : Forall2 _ items _ |- _ => rename H into H2 end.
    clear Hue. induction H2 as [|x y l l' Hxy _ IH2]; [reflexivity|].
    inversion IH as [|? ? Hx IH']; subst.
    inversion Hwf as [|? ? Hwx Hwf']; subst.
    simpl. rewrite (Hx y Hwx Hxy). f_equal. now apply IH2.
  - (* mappings *)
    match goal with
    | Hp : Permutation members ?m, H2 : Forall2 _ ?m ?m2 |- _ =>
        rename Hp into Hperm; rename H2 into Hpair; rename m into m';
        rename m2 into members2
    end.
    rewrite !canonicalize_object. f_equal.
    destruct Hwf as [Hnd Hwf]. apply All_Forall in Hwf.
    assert (Hmap : map canonicalize_member m'
                   = map canonicalize_member members2).
    { assert (IH' : Forall (fun kv => forall d2, well_formed (snd kv) ->
                              unordered_equal (snd kv) d2 ->
                              canonicalize (snd kv) = canonicalize d2) m')
        by (eapply Permutation_Forall; eassumption).
      assert (Hwf' : Forall (fun kv => match kv with
                                       | (_, x) => well_formed x
                                       end) m')
        by (eapply Permutation_Forall; eassumption).
      clear Hperm Hue IH Hwf Hnd.
      induction Hpair as [|[k1 x1] [k2 x2] l l' [Hk Hx] _ IHp];
        [reflexivity|].
      inversion IH' as [|? ? H1 IH'']; subst.
      inversion Hwf' as [|? ? Hw1 Hwf'']; subst.
      simpl in *. subst k2. rewrite (H1 x2 Hw1 Hx). f_equal.
      now apply IHp. }
    rewrite <- Hmap.
    apply sort_members_perm_eq.
    + now rewrite keys_canonicalize_member.
    + now apply Permutation_map.
Qed.

(** C9: [canonicalize] is idempotent, and two JavaScript values that are
    equal as unordered trees have the same canonical form, hence the same
    serialization. *)
Theorem canonicalize_idempotent_order_independent :
  (forall d, canonicalize (canonicalize d) = canonicalize d) /\
  (forall d1 d2,
      well_formed d1 -> well_formed d2 -> unordered_equal d1 d2 ->
      JSON_stringify (canonicalize d1) = JSON_stringify (canonicalize d2)).
Proof.
  split.
  - exact canonicalize_idempotent.
  - intros d1 d2 Hwf1 _ Hue.
    now rewrite (canonicalize_order_independent d1 d2 Hwf1 Hue).
Qed.

Lemma unordered_equal_refl (d : JSONValue) : unordered_equal d d.
Proof.
  induction d as [|b|n|s|items IH|members IH] using JSONValue_nested_ind;
    try constructor.
  - induction IH; constructor; assumption.
  - apply (ue_object members members members); [reflexivity|].
    induction IH as [|[k x] l Hx _ IHl]; constructor; [|exact IHl].
    split; [reflexivity | exact Hx].
Qed.

Lemma canonicalize_idempotent_order_independent_witness :
  JSON_stringify (canonicalize (JObject Session.locales)) =
  JSON_stringify (canonicalize (JObject Session.locales_reordered)).
Proof.
  apply (proj2 canonicalize_idempotent_order_independent).
  - simpl. repeat split; repeat constructor; simpl; intuition discriminate.
  - simpl. repeat split; repeat constructor; simpl; intuition discriminate.
  - eapply ue_object.
    + apply perm_swap.
    + constructor; [split; [reflexivity | apply unordered_equal_refl]|].
      constructor; [|constructor].
      split; [reflexivity|].
      eapply ue_object; [apply perm_swap|].
      repeat constructor; apply unordered_equal_refl.
Defined.

(* ===================================================================== *)
(** * JSON.parse after JSON.stringify *)
(* ===================================================================== *)

(** ** Strings *)

Lemma append_assoc (a b c : string) :
  ((a ++ b) ++ c)%string = (a ++ (b ++ c))%string.
Proof. induction a as [|x a IH]; simpl; [reflexivity|]. now rewrite IH. Qed.

Lemma append_nil_r (a : string) : (a ++ "")%string = a.
Proof. induction a as [|x a IH]; simpl; [reflexivity|]. now rewrite IH. Qed.

Lemma length_append (a b : string) :
  String.length (a ++ b) = String.length a + String.length b.
Proof. induction a as [|x a IH]; simpl; [reflexivity|]. now rewrite IH. Qed.

(** ** String literals *)

Lemma parse_chars_quote_char (c : ascii) (rest : string) :
  parse_chars (quote_char c ++ rest) = push_char c (parse_chars rest).
Proof.
  destruct c as [[] [] [] [] [] [] [] []]; reflexivity.
Qed.

Lemma parse_chars_quote_chars (s rest : string) :
  parse_chars (quote_chars s ++ String "034" rest) = Parsed (s, rest).
Proof.
  induction s as [|c s IH]; [reflexivity|].
  cbn [quote_chars]. rewrite append_assoc, parse_chars_quote_char, IH.
  reflexivity.
Qed.

Lemma quote_append (s rest : string) :
  (quote s ++ rest)%string
  = String "034" (quote_chars s ++ String "034" rest)%string.
Proof.
  unfold quote. cbn [append]. now rewrite append_assoc.
Qed.

(** ** Numbers *)

Lemma scan_digits_end (rest : string) :
  ends_value rest = true -> scan_digits rest = (Nil, rest).
Proof.
  destruct rest as [|c rest]; [reflexivity|]. simpl.
  intros H. apply andb_true_iff in H. destruct H as [H _].
  apply negb_true_iff in H. now rewrite H.
Qed.

Lemma scan_digits_uint (d : uint) (rest : string) :
  ends_value rest = true ->
  scan_digits (NilEmpty.string_of_uint d ++ rest) = (d, rest).
Proof.
  intros H. induction d as [|d IH|d IH|d IH|d IH|d IH|d IH|d IH|d IH|d IH|d IH];
    [now apply scan_digits_end| ..];
    cbn [NilEmpty.string_of_uint append scan_digits]; rewrite IH; reflexivity.
Qed.

(** [N.to_uint] writes no leading zero. *)
Lemma to_uint_normal (n : N) :
  N.to_uint n = D0 Nil \/
  (N.to_uint n <> Nil /\ forall d, N.to_uint n <> D0 d).
Proof.
  pose proof (DecimalN.Unsigned.to_of (N.to_uint n)) as H.
  rewrite DecimalN.Unsigned.of_to in H.
  unfold unorm in H.
  destruct (nzhead (N.to_uint n)) eqn:E.
  - left. now symmetry.
  - exfalso. exact (DecimalFacts.nzhead_nonzero _ _ E).
  - right. rewrite H. split; [discriminate|]. intros d; discriminate.
  - right. rewrite H. split; [discriminate|]. intros d; discriminate.
  - right. rewrite H. split; [discriminate|]. intros d; discriminate.
  - right. rewrite H. split; [discriminate|]. intros d; discriminate.
  - right. rewrite H. split; [discriminate|]. intros d; discriminate.
  - right. rewrite H. split; [discriminate|]. intros d; discriminate.
  - right. rewrite H. split; [discriminate|]. intros d; discriminate.
  - right. rewrite H. split; [discriminate|]. intros d; discriminate.
  - right. rewrite H. split; [discriminate|]. intros d; discriminate.
Qed.

Lemma to_uint_zero (n : N) : N.to_uint n = D0 Nil -> n = 0%N.
Proof.
  intros H. rewrite <- (DecimalN.Unsigned.of_to n), H. reflexivity.
Qed.

Lemma string_of_uint_to_uint (n : N) :
  NilZero.string_of_uint (N.to_uint n) = NilEmpty.string_of_uint (N.to_uint n).
Proof.
  destruct (to_uint_normal n) as [->|[Hn _]]; [reflexivity|].
  destruct (N.to_uint n); [contradiction | reflexivity ..].
Qed.

Lemma ends_value_no_fraction (rest : string) :
  ends_value rest = true -> starts_fraction_or_exponent rest = false.
Proof.
  destruct rest as [|c rest]; [reflexivity|]. simpl.
  intros H. apply andb_true_iff in H. destruct H as [_ H].
  now apply negb_true_iff in H.
Qed.

(** The digits of [n] read back as [n]. *)
Lemma parse_int_to_uint (negative : bool) (n : N) (rest : string) :
  ends_value rest = true ->
  parse_int negative (NilZero.string_of_uint (N.to_uint n) ++ rest) =
    if negative then
      if (n =? 0)%N then Unsupported
      else Parsed (NInt (- Z.of_N n), rest)
    else Parsed (NInt (Z.of_N n), rest).
Proof.
  intros Hend. rewrite string_of_uint_to_uint.
  unfold parse_int. rewrite (scan_digits_uint _ _ Hend).
  rewrite (ends_value_no_fraction _ Hend).
  rewrite DecimalN.Unsigned.of_to.
  destruct (to_uint_normal n) as [H0|[Hnil Hd0]].
  - rewrite H0. reflexivity.
  - destruct (N.to_uint n) as [|d|d|d|d|d|d|d|d|d|d]; try reflexivity.
    + contradiction.
    + exfalso. now apply (Hd0 d).
Qed.

Lemma uint_string_head (d : uint) :
  d <> Nil ->
  exists c s, NilEmpty.string_of_uint d = String c s /\ is_digit c = true.
Proof.
  destruct d; [contradiction | ..]; intros _; eexists _, _; split;
    reflexivity.
Qed.

Lemma to_uint_nonnil (n : N) : N.to_uint n <> Nil.
Proof.
  destruct (to_uint_normal n) as [->|[H _]]; [discriminate | exact H].
Qed.

(** What [parse_value] does on a digit. *)
Lemma parse_value_digit (fuel : nat) (c : ascii) (s : string) :
  is_digit c = true ->
  parse_value (S fuel) (String c s) =
    parse_bind (parse_int false (String c s))
               (fun p => Parsed (JNumber (fst p), snd p)).
Proof.
  intros H.
  destruct c as [[] [] [] [] [] [] [] []]; cbv in H; try discriminate H;
    reflexivity.
Qed.

Lemma parse_value_minus (fuel : nat) (s : string) :
  parse_value (S fuel) (String "-" s) =
    parse_bind (parse_int true s)
               (fun p => Parsed (JNumber (fst p), snd p)).
Proof. reflexivity. Qed.

Lemma parse_value_number (fuel : nat) (n : number) (rest : string) :
  finite n ->
  ends_value rest = true ->
  parse_value (S fuel) (number_to_json n ++ rest) = Parsed (JNumber n, rest).
Proof.
  intros Hfin Hend. destruct n as [z| |b]; try contradiction.
  assert (Hnonneg : forall m : N,
    parse_value (S fuel) (NilZero.string_of_uint (N.to_uint m) ++ rest)
    = Parsed (JNumber (NInt (Z.of_N m)), rest)).
  { intros m.
    pose proof (parse_int_to_uint false m rest Hend) as Hp.
    rewrite string_of_uint_to_uint in *.
    destruct (uint_string_head (N.to_uint m) (to_uint_nonnil m))
      as (c & s & Hs & Hc).
    rewrite Hs in *. cbn [append] in *.
    rewrite (parse_value_digit fuel c _ Hc), Hp. reflexivity. }
  destruct z as [|p|p]; cbn [number_to_json].
  - exact (Hnonneg 0%N).
  - exact (Hnonneg (Npos p)).
  - cbn [append]. rewrite parse_value_minus.
    rewrite (parse_int_to_uint true (Npos p) rest Hend). reflexivity.
Qed.

(** ** Values *)

Lemma value_start_facts (c : ascii) :
  value_start c = true ->
  is_ws c = false /\
  (N_of_ascii c =? 93)%N = false /\
  (N_of_ascii c =? 125)%N = false.
Proof.
  intros H.
  destruct c as [[] [] [] [] [] [] [] []]; cbv in H; try discriminate H;
    repeat split.
Qed.

Lemma stringify_start (v : JSONValue) :
  exists c s, JSON_stringify v = String c s /\ value_start c = true.
Proof.
  destruct v as [|[]|[z| |b]|s|items|members];
    try (eexists _, _; split; reflexivity).
  destruct z as [|p|p]; cbn [JSON_stringify number_to_json].
  - eexists _, _; split; reflexivity.
  - rewrite string_of_uint_to_uint.
    destruct (uint_string_head _ (to_uint_nonnil (Z.to_N (Zpos p))))
      as (c & s & -> & Hc).
    exists c, s. split; [reflexivity|].
    unfold value_start. rewrite Hc. now rewrite !orb_true_r.
  - eexists _, _; split; reflexivity.
Qed.

Lemma skip_ws_start (c : ascii) (s : string) :
  is_ws c = false -> skip_ws (String c s) = String c s.
Proof. intros H. simpl. now rewrite H. Qed.

Lemma parse_value_literal (fuel : nat) (rest : string) :
  parse_value (S fuel) ("null" ++ rest) = Parsed (JNull, rest) /\
  parse_value (S fuel) ("true" ++ rest) = Parsed (JBool true, rest) /\
  parse_value (S fuel) ("false" ++ rest) = Parsed (JBool false, rest).
Proof. repeat split. Qed.

Lemma parse_value_string (fuel : nat) (s rest : string) :
  parse_value (S fuel) (quote s ++ rest) = Parsed (JString s, rest).
Proof.
  rewrite quote_append.
  change (parse_value (S fuel)
            (String "034" (quote_chars s ++ String "034" rest)))
    with (parse_bind (parse_chars (quote_chars s ++ String "034" rest))
            (fun p => Parsed (JString (fst p), snd p))).
  now rewrite parse_chars_quote_chars.
Qed.

Lemma parse_value_array (fuel : nat) (s : string) :
  parse_value (S fuel) (String "[" s) =
    if head_is 93 (skip_ws s) then Parsed (JArray [], tail (skip_ws s))
    else parse_elements fuel s [].
Proof. reflexivity. Qed.

Lemma parse_value_object (fuel : nat) (s : string) :
  parse_value (S fuel) (String "{" s) =
    if head_is 125 (skip_ws s) then Parsed (JObject [], tail (skip_ws s))
    else parse_members fuel s [].
Proof. reflexivity. Qed.

Lemma parse_elements_comma (fuel : nat) (s rest : string)
    (x : JSONValue) (acc : list JSONValue) :
  parse_value fuel s = Parsed (x, String "," rest) ->
  parse_elements (S fuel) s acc = parse_elements fuel rest (acc ++ [x]).
Proof. intros H. cbn [parse_elements]. rewrite H. reflexivity. Qed.

Lemma parse_elements_close (fuel : nat) (s rest : string)
    (x : JSONValue) (acc : list JSONValue) :
  parse_value fuel s = Parsed (x, String "]" rest) ->
  parse_elements (S fuel) s acc = Parsed (JArray (acc ++ [x]), rest).
Proof. intros H. cbn [parse_elements]. rewrite H. reflexivity. Qed.

Lemma parse_members_key (fuel : nat) (k s : string)
    (acc : list (string * JSONValue)) :
  parse_members (S fuel) (quote k ++ String ":" s) acc =
    parse_bind (parse_value fuel s) (fun p =>
      let r2 := skip_ws (snd p) in
      if head_is 44 r2 then
        parse_members fuel (tail r2) (set_property acc k (fst p))
      else if head_is 125 r2 then
        Parsed (JObject (set_property acc k (fst p)), tail r2)
      else SyntaxError).
Proof.
  rewrite quote_append. cbn [parse_members skip_ws is_ws].
  change (is_ws "034") with false. cbn [head_is tail].
  change (N_of_ascii "034" =? 34)%N with true. cbn iota.
  rewrite parse_chars_quote_chars. reflexivity.
Qed.

Lemma parse_members_comma (fuel : nat) (k s rest : string) (x : JSONValue)
    (acc : list (string * JSONValue)) :
  parse_value fuel s = Parsed (x, String "," rest) ->
  parse_members (S fuel) (quote k ++ String ":" s) acc =
    parse_members fuel rest (set_property acc k x).
Proof. intros H. rewrite parse_members_key, H. reflexivity. Qed.

Lemma parse_members_close (fuel : nat) (k s rest : string) (x : JSONValue)
    (acc : list (string * JSONValue)) :
  parse_value fuel s = Parsed (x, String "}" rest) ->
  parse_members (S fuel) (quote k ++ String ":" s) acc =
    Parsed (JObject (set_property acc k x), rest).
Proof. intros H. rewrite parse_members_key, H. reflexivity. Qed.

Lemma set_property_new (acc : list (string * JSONValue)) (k : string)
    (x : JSONValue) :
  ~ In k (keys acc) -> set_property acc k x = acc ++ [(k, x)].
Proof.
  induction acc as [|[k' x'] acc IH]; intros Hn; simpl; [reflexivity|].
  destruct (String.eqb_spec k' k) as [->|Hne].
  - exfalso. apply Hn. now left.
  - rewrite IH; [reflexivity|]. intros Hin. apply Hn. now right.
Qed.

Lemma parse_elements_roundtrip (items : list JSONValue) :
  Forall reads_back items ->
  All well_formed items ->
  All finite_numbers items ->
  items <> [] ->
  forall (fuel : nat) (acc : list JSONValue) (rest : string),
    fold_right (fun x n => S (size x + n)) 0 items <= fuel ->
    parse_elements fuel
      (join "," (map JSON_stringify items) ++ String "]" rest) acc
    = Parsed (JArray (acc ++ items), rest).
Proof.
  induction items as [|x items IH]; intros Hrb Hwf Hfin Hne fuel acc rest Hfuel;
    [contradiction|].
  inversion Hrb as [|? ? Hx Hrb']; subst.
  destruct Hwf as [Hwx Hwf]. destruct Hfin as [Hfx Hfin].
  cbn [fold_right] in Hfuel.
  destruct fuel as [|fuel]; [lia|].
  destruct items as [|y items].
  - cbn [map join].
    apply parse_elements_close.
    apply Hx; try assumption; [lia | reflexivity].
  - change (join "," (map JSON_stringify (x :: y :: items)))
      with (JSON_stringify x ++ "," ++ join "," (map JSON_stringify (y :: items)))%string.
    rewrite append_assoc.
    change (("," ++ join "," (map JSON_stringify (y :: items))) ++ String "]" rest)%string
      with (String "," (join "," (map JSON_stringify (y :: items)) ++ String "]" rest))%string.
    erewrite parse_elements_comma;
      [| apply Hx; try assumption; [lia | reflexivity] ].
    rewrite IH; try assumption.
    + now rewrite <- app_assoc.
    + discriminate.
    + cbn [fold_right] in *. lia.
Qed.

Lemma parse_members_roundtrip (members : list (string * JSONValue)) :
  Forall (fun kv => reads_back (snd kv)) members ->
  All (fun kv => match kv with (_, x) => well_formed x end) members ->
  All (fun kv => match kv with (_, x) => finite_numbers x end) members ->
  members <> [] ->
  forall (fuel : nat) (acc : list (string * JSONValue)) (rest : string),
    NoDup (keys (acc ++ members)) ->
    fold_right (fun kv n => match kv with
                            | (_, x) => S (size x + n)
                            end) 0 members <= fuel ->
    parse_members fuel
      (join "," (map stringify_member members) ++ String "}" rest) acc
    = Parsed (JObject (acc ++ members), rest).
Proof.
  induction members as [|[k x] members IH];
    intros Hrb Hwf Hfin Hne fuel acc rest Hnd Hfuel; [contradiction|].
  inversion Hrb as [|? ? Hx Hrb']; subst. cbn [snd] in Hx.
  destruct Hwf as [Hwx Hwf]. destruct Hfin as [Hfx Hfin].
  cbn [fold_right] in Hfuel.
  destruct fuel as [|fuel]; [lia|].
  assert (Hnew : ~ In k (keys acc)).
  { unfold keys in *. rewrite map_app in Hnd. cbn [map fst] in Hnd.
    apply NoDup_remove_2 in Hnd. intros Hin. apply Hnd.
    apply in_or_app. now left. }
  destruct members as [|[k' y] members].
  - cbn [map join stringify_member].
    rewrite !append_assoc.
    change ((":" ++ JSON_stringify x ++ String "}" rest)%string)
      with (String ":" (JSON_stringify x ++ String "}" rest)%string).
    erewrite parse_members_close;
      [| apply Hx; try assumption; [lia | reflexivity] ].
    now rewrite set_property_new.
  - change (join "," (map stringify_member ((k, x) :: (k', y) :: members)))
      with ((quote k ++ ":" ++ JSON_stringify x) ++ "," ++
            join "," (map stringify_member ((k', y) :: members)))%string.
    rewrite !append_assoc.
    change ((":" ++ JSON_stringify x ++ "," ++
             join "," (map stringify_member ((k', y) :: members)) ++
             String "}" rest)%string)
      with (String ":" (JSON_stringify x ++
              String "," (join "," (map stringify_member ((k', y) :: members))
                          ++ String "}" rest))%string).
    erewrite parse_members_comma;
      [| apply Hx; try assumption; [lia | reflexivity] ].
    rewrite set_property_new by assumption.
    rewrite IH; try assumption.
    + now rewrite <- app_assoc.
    + discriminate.
    + now rewrite <- app_assoc.
    + cbn [fold_right] in *. lia.
Qed.

Lemma stringify_object (members : list (string * JSONValue)) :
  JSON_stringify (JObject members) =
    ("{" ++ join "," (map stringify_member members) ++ "}")%string.
Proof. reflexivity. Qed.

Lemma join_start {A : Type} (f : A -> string) (x : A) (l : list A)
    (c : ascii) (s : string) :
  f x = String c s ->
  exists s', join "," (map f (x :: l)) = String c s'.
Proof.
  intros H. destruct l as [|y l]; cbn [map join]; rewrite H.
  - now exists s.
  - eexists. reflexivity.
Qed.

(** Every well-formed value with finite numbers is read back from its
    serialization, whatever follows it. *)
Lemma parse_value_roundtrip (v : JSONValue) : reads_back v.
Proof.
  induction v as [|b|n|s|items IH|members IH] using JSONValue_nested_ind;
    intros Hwf Hfin fuel rest Hfuel Hend;
    (destruct fuel as [|fuel]; [cbn [size] in Hfuel; lia|]).
  - apply parse_value_literal.
  - destruct b; apply parse_value_literal.
  - now apply parse_value_number.
  - apply parse_value_string.
  - cbn [JSON_stringify]. cbn [append]. rewrite parse_value_array.
    destruct items as [|x items].
    + reflexivity.
    + destruct (stringify_start x) as (c & s & Hs & Hc).
      destruct (join_start JSON_stringify x items c s Hs) as [s' Hj].
      destruct (value_start_facts c Hc) as (Hws & H93 & _).
      rewrite append_assoc.
      assert (Hhead : head_is 93
                (skip_ws (join "," (map JSON_stringify (x :: items))
                          ++ "]" ++ rest)) = false).
      { rewrite Hj. cbn [append]. rewrite (skip_ws_start c _ Hws).
        exact H93. }
      rewrite Hhead.
      change ("]" ++ rest)%string with (String "]" rest).
      rewrite parse_elements_roundtrip; try assumption.
      * reflexivity.
      * discriminate.
      * cbn [size] in Hfuel. lia.
  - rewrite stringify_object. cbn [append]. rewrite parse_value_object.
    destruct members as [|[k x] members].
    + reflexivity.
    + rewrite append_assoc.
      assert (Hhead : head_is 125
                (skip_ws (join "," (map stringify_member ((k, x) :: members))
                          ++ "}" ++ rest)) = false).
      { destruct (join_start stringify_member (k, x) members "034"
                    (quote_chars k ++ String "034" "" ++ ":" ++ JSON_stringify x)%string)
          as [s' Hj].
        - cbn [stringify_member]. unfold quote. cbn [append].
          now rewrite !append_assoc.
        - rewrite Hj. reflexivity. }
      rewrite Hhead.
      change ("}" ++ rest)%string with (String "}" rest).
      destruct Hwf as [Hnd Hwf].
      rewrite parse_members_roundtrip; try assumption.
      * reflexivity.
      * discriminate.
      * cbn [size] in Hfuel. lia.
Qed.

(** ** Enough fuel *)

Lemma stringify_nonempty (v : JSONValue) :
  1 <= String.length (JSON_stringify v).
Proof.
  destruct (stringify_start v) as (c & s & -> & _). simpl. lia.
Qed.

Lemma size_join {A : Type} (f : A -> string) (cost : A -> nat) (l : list A) :
  Forall (fun a => cost a <= String.length (f a)) l ->
  fold_right (fun a n => S (cost a + n)) 0 l
    <= String.length (join "," (map f l)) + 1.
Proof.
  induction 1 as [|x l Hx Hl IH]; [simpl; lia|].
  destruct l as [|y l].
  - cbn [map join fold_right]. lia.
  - change (join "," (map f (x :: y :: l)))
      with (f x ++ "," ++ join "," (map f (y :: l)))%string.
    rewrite !length_append.
    change (fold_right (fun a n => S (cost a + n)) 0 (x :: y :: l))
      with (S (cost x + fold_right (fun a n => S (cost a + n)) 0 (y :: l))).
    cbn [String.length]. lia.
Qed.

Lemma size_le_length (v : JSONValue) :
  size v <= String.length (JSON_stringify v).
Proof.
  induction v as [|b|n|s|items IH|members IH] using JSONValue_nested_ind;
    try apply stringify_nonempty.
  - cbn [JSON_stringify size]. rewrite !length_append.
    pose proof (size_join JSON_stringify size items IH) as H.
    cbn [String.length]. lia.
  - rewrite stringify_object. cbn [size]. rewrite !length_append.
    assert (H : fold_right (fun kv n => S (size (snd kv) + n)) 0 members
                <= String.length (join "," (map stringify_member members)) + 1).
    { apply size_join. eapply Forall_impl; [|exact IH].
      intros [k x] Hx. cbn [snd stringify_member] in *.
      rewrite !length_append. lia. }
    assert (E : fold_right (fun kv n => match kv with
                                        | (_, x) => S (size x + n)
                                        end) 0 members
                = fold_right (fun kv n => S (size (snd kv) + n)) 0 members).
    { clear. induction members as [|[k x] l IHl]; simpl; [reflexivity|].
      now rewrite IHl. }
    rewrite E. cbn [String.length]. lia.
Qed.

(** [JSON.parse(JSON.stringify(v))] is [v], for a JavaScript value [v]
    whose numbers are finite. *)
Lemma JSON_parse_stringify (v : JSONValue) :
  well_formed v -> finite_numbers v ->
  JSON_parse (JSON_stringify v) = Parsed v.
Proof.
  intros Hwf Hfin. unfold JSON_parse.
  pose proof (parse_value_roundtrip v Hwf Hfin
                (S (2 * String.length (JSON_stringify v))) ""%string) as H.
  rewrite append_nil_r in H. rewrite H.
  - reflexivity.
  - pose proof (size_le_length v). lia.
  - reflexivity.
Qed.

(** ** canonicalize keeps values well formed *)

Lemma All_map {A B : Type} (P : B -> Prop) (f : A -> B) (l : list A) :
  All P (map f l) <-> All (fun a => P (f a)) l.
Proof.
  induction l as [|x l IH]; simpl; [tauto|]. now rewrite IH.
Qed.

Lemma canonicalize_well_formed (v : JSONValue) :
  well_formed v -> well_formed (canonicalize v).
Proof.
  induction v as [| | | |items IH|members IH] using JSONValue_nested_ind;
    intros Hwf; try exact I.
  - cbn [canonicalize well_formed] in *.
    apply All_Forall. apply All_Forall in Hwf. rewrite Forall_map.
    rewrite Forall_forall in *. intros x Hx. apply IH; auto.
  - rewrite canonicalize_object. destruct Hwf as [Hnd Hwf].
    cbn [well_formed]. split.
    + unfold keys.
      eapply Permutation_NoDup;
        [apply Permutation_map, Permutation_sym, sort_members_perm|].
      fold (keys (map canonicalize_member members)).
      now rewrite keys_canonicalize_member.
    + apply All_Forall.
      eapply Permutation_Forall;
        [apply Permutation_sym, sort_members_perm|].
      rewrite Forall_map. apply All_Forall in Hwf.
      rewrite Forall_forall in *. intros [k x] Hin.
      cbn [canonicalize_member]. apply (IH (k, x) Hin). exact (Hwf (k, x) Hin).
Qed.

Lemma canonicalize_finite_numbers (v : JSONValue) :
  finite_numbers v -> finite_numbers (canonicalize v).
Proof.
  induction v as [| | | |items IH|members IH] using JSONValue_nested_ind;
    intros Hfin; try exact Hfin.
  - cbn [canonicalize finite_numbers] in *.
    apply All_Forall. apply All_Forall in Hfin. rewrite Forall_map.
    rewrite Forall_forall in *. intros x Hx. apply IH; auto.
  - rewrite canonicalize_object. cbn [finite_numbers] in *.
    apply All_Forall.
    eapply Permutation_Forall;
      [apply Permutation_sym, sort_members_perm|].
    rewrite Forall_map. apply All_Forall in Hfin.
    rewrite Forall_forall in *. intros [k x] Hin.
    cbn [canonicalize_member]. apply (IH (k, x) Hin). exact (Hfin (k, x) Hin).
Qed.

(** C8, as amended: for every completed rebuild whose aggregated document
    is a JavaScript value without a non-finite number (NaN or an infinity;
    the numbers of the embedding are the integers), [JSON.parse] of the
    [jsonText] of the result is [grouped], the canonical document, and the
    cache handed to the completion callback carries the same pair. *)
Theorem rebuild_jsonText_round_trips :
  forall (options : RebuildManagerOptions) (reason : string)
         (mods : list EnvironmentModuleNode) (w w' : World)
         (r : RebuildResult),
    rebuild options reason mods w = (Return r, w') ->
    (forall g stats,
        readAndGroup (fileManager options) (clock (host w)) = Return (g, stats) ->
        well_formed (JObject g) /\ finite_numbers (JObject g)) ->
    JSON_parse (jsonText r) = Parsed (grouped r) /\
    exists evs,
      trace (host w') = trace (host w) ++ evs /\
      forall cache,
        In (EvOnRebuildComplete cache) evs ->
        cache_jsonText cache = jsonText r /\ cache_grouped cache = grouped r.
Proof.
  intros options reason mods w w' r Hrun Hdoc.
  destruct (readAndGroup (fileManager options) (clock (host w)))
    as [[g stats]|e] eqn:Hr.
  2:{ rewrite (rebuild_read_throws options reason mods w e Hr) in Hrun.
      discriminate Hrun. }
  destruct (generateFiles (generationCoordinator options) (clock (host w))
              (canonicalize (JObject g)) (root options))
    as [generated|e] eqn:Hg.
  2:{ rewrite (rebuild_generate_throws options reason mods w g stats e Hr Hg)
        in Hrun. discriminate Hrun. }
  pose proof (rebuild_returns options reason mods w g stats generated Hr Hg)
    as H. cbv zeta in H. rewrite H in Hrun. clear H.
  set (canonical := canonicalize (JObject g)) in *.
  assert (Er : r = {| modules :=
                        match invalidation_result
                                (emit_all (read_and_generate_events options
                                             stats canonical generated) w) mods
                        with Some l => l | None => [] end;
                      grouped := canonical;
                      jsonText := JSON_stringify canonical |})
    by congruence.
  assert (Ew : w' = emit_all
                 (completion_events options reason
                    {| cache_modules :=
                         invalidation_result
                           (emit_all (read_and_generate_events options stats
                                        canonical generated) w) mods;
                       cache_grouped := canonical;
                       cache_jsonText := JSON_stringify canonical |})
                 (emit_all
                    (invalidation_events options
                       (emit_all (read_and_generate_events options stats
                                    canonical generated) w) mods)
                    (emit_all (read_and_generate_events options stats
                                 canonical generated) w)))
    by congruence.
  clear Hrun. subst r w'. unfold jsonText, grouped.
  destruct (Hdoc g stats eq_refl) as [Hwf Hfin].
  split.
  - apply JSON_parse_stringify; subst canonical.
    + now apply canonicalize_well_formed.
    + now apply canonicalize_finite_numbers.
  - eexists. split.
    + rewrite !trace_emit_all, <- !app_assoc. reflexivity.
    + intros cache Hin.
      apply in_app_or in Hin. destruct Hin as [Hin|Hin].
      { exfalso. unfold read_and_generate_events in Hin.
        destruct (logger options); simpl in Hin;
          repeat (destruct Hin as [Hin|Hin]; try discriminate Hin);
          exact Hin. }
      apply in_app_or in Hin. destruct Hin as [Hin|Hin].
      { exfalso. revert Hin.
        set (w1 := emit_all _ w).
        unfold invalidation_events, reload_events.
        destruct (serverRef (this w1)) as [srv|];
          destruct (resolvedVirtualId (this w1)) as [[|c0 v0]|];
          try (destruct (logger options); simpl; intros Hin;
               repeat (destruct Hin as [Hin|Hin]; try discriminate Hin);
               exact Hin).
        intros Hin. apply in_app_or in Hin. destruct Hin as [Hin|Hin].
        - destruct (environment (this w1)) as [env|]; [|exact Hin].
          destruct (moduleGraph env), (hot env); simpl in Hin;
            repeat (destruct Hin as [Hin|Hin]; try discriminate Hin);
            exact Hin.
        - destruct (logger options); simpl in Hin;
            repeat (destruct Hin as [Hin|Hin]; try discriminate Hin);
            exact Hin. }
      unfold completion_events in Hin.
      destruct (onRebuildComplete options), (logger options); simpl in Hin;
        repeat (destruct Hin as [Hin|Hin]; try discriminate Hin);
        try contradiction;
        injection Hin as <-; split; reflexivity.
Qed.

Lemma rebuild_jsonText_round_trips_witness :
  let r := {| modules := [];
              grouped := canonicalize (JObject Session.locales);
              jsonText :=
                JSON_stringify (canonicalize (JObject Session.locales)) |} in
  let w' := snd (rebuild Session.options "change" Session.test_modules
                         (Session.wired 1000)) in
  JSON_parse (jsonText r) = Parsed (grouped r) /\
  exists evs,
    trace (host w') = trace (host (Session.wired 1000)) ++ evs /\
    forall cache,
      In (EvOnRebuildComplete cache) evs ->
      cache_jsonText cache = jsonText r /\ cache_grouped cache = grouped r.
Proof.
  apply (rebuild_jsonText_round_trips Session.options "change"
           Session.test_modules (Session.wired 1000)).
  - reflexivity.
  - intros g stats Hg. injection Hg as <- _.
    split; simpl; repeat split; repeat constructor; simpl; try lia;
      intuition discriminate.
Defined.

(** C8, as stated, fails: a locale file with a NaN among its values is
    aggregated, the rebuild completes, [jsonText] holds [null] in its place,
    and parsing [jsonText] does not give back [grouped]. *)
Lemma rebuild_jsonText_round_trip_counterexample :
  ~ (forall r w',
       rebuild Session.options_nan "change" Session.test_modules
               (Session.wired 1000) = (Return r, w') ->
       JSON_parse (jsonText r) = Parsed (grouped r)).
Proof.
  intros H.
  destruct (rebuild Session.options_nan "change" Session.test_modules
              (Session.wired 1000)) as [[r|e] w'] eqn:Hrun;
    vm_compute in Hrun; [|discriminate Hrun].
  specialize (H r w' eq_refl).
  injection Hrun as <- _. vm_compute in H. discriminate H.
Qed.

(* ===================================================================== *)
(** * The parser never runs out of fuel *)
(* ===================================================================== *)

Lemma skip_ws_length (s : string) :
  String.length (skip_ws s) <= String.length s.
Proof.
  induction s as [|c s IH]; simpl; [lia|].
  destruct (is_ws c); simpl; lia.
Qed.

Lemma tail_length (s : string) : String.length (tail s) <= String.length s.
Proof. destruct s; simpl; lia. Qed.

Lemma head_is_length (n : N) (s : string) :
  head_is n s = true -> String.length s = S (String.length (tail s)).
Proof. destruct s; simpl; [discriminate | reflexivity]. Qed.

Lemma push_char_parsed (c : ascii) (r : ParseResult (string * string))
    (str rest : string) :
  push_char c r = Parsed (str, rest) ->
  exists str', r = Parsed (str', rest).
Proof.
  destruct r as [[str' rest']| | |]; simpl; try discriminate.
  intros [= _ <-]. now exists str'.
Qed.

Lemma push_char_fuel (c : ascii) (r : ParseResult (string * string)) :
  r <> OutOfFuel -> push_char c r <> OutOfFuel.
Proof. destruct r; simpl; congruence. Qed.

(** A string literal is never out of fuel, and what is left after it is
    shorter. *)
Lemma parse_chars_progress (n : nat) :
  forall s, String.length s <= n ->
    parse_chars s <> OutOfFuel /\
    forall str rest, parse_chars s = Parsed (str, rest) ->
                     String.length rest < String.length s.
Proof.
  induction n as [|n IH]; intros s Hlen.
  - destruct s; [|simpl in Hlen; lia].
    split; [discriminate|]. intros str rest H. discriminate H.
  - destruct s as [|c s]; [split; [discriminate | intros ? ? H; discriminate H]|].
    simpl in Hlen.
    assert (Hrec : forall s' : string,
               String.length s' <= String.length s ->
               forall c', push_char c' (parse_chars s') <> OutOfFuel /\
                 forall str rest,
                   push_char c' (parse_chars s') = Parsed (str, rest) ->
                   String.length rest < S (String.length s)).
    { intros s' Hs' c'. destruct (IH s' ltac:(lia)) as [Hf Hp]. split.
      - now apply push_char_fuel.
      - intros str rest H. apply push_char_parsed in H.
        destruct H as [str' H]. specialize (Hp _ _ H). lia. }
    cbn [parse_chars String.length].
    destruct (N_of_ascii c =? 34)%N.
    { split; [discriminate|]. intros str rest [= _ <-]. lia. }
    destruct (N_of_ascii c =? 92)%N.
    2:{ destruct (N_of_ascii c <? 32)%N.
        - split; [discriminate | intros ? ? H; discriminate H].
        - apply Hrec. lia. }
    destruct s as [|e s2];
      [split; [discriminate | intros ? ? H; discriminate H]|].
    cbn [String.length] in *.
    repeat match goal with
           | |- context [if (N_of_ascii e =? ?k)%N then _ else _] =>
               destruct (N_of_ascii e =? k)%N;
               [apply Hrec; cbn [String.length]; lia|]
           end.
    destruct (N_of_ascii e =? 117)%N;
      [|split; [discriminate | intros ? ? H; discriminate H]].
    destruct s2 as [|h1 [|h2 [|h3 [|h4 s3]]]];
      try (split; [discriminate | intros ? ? H; discriminate H]).
    destruct (hex_value h1), (hex_value h2), (hex_value h3), (hex_value h4);
      try (split; [discriminate | intros ? ? H; discriminate H]).
    match goal with
    | |- context [if ?b then _ else _] => destruct b
    end.
    + apply Hrec. cbn [String.length]. lia.
    + split; [discriminate | intros ? ? H; discriminate H].
Qed.

Lemma scan_digits_length (s : string) :
  String.length (snd (scan_digits s)) <= String.length s /\
  (fst (scan_digits s) <> Nil ->
   String.length (snd (scan_digits s)) < String.length s).
Proof.
  induction s as [|c s [IH1 IH2]]; simpl.
  - split; [lia | intros H; now elim H].
  - destruct (is_digit c).
    + destruct (scan_digits s) as [d rest]. simpl in *. split; lia.
    + simpl. split; [lia | intros H; now elim H].
Qed.

Lemma parse_int_progress (negative : bool) (s : string) :
  parse_int negative s <> OutOfFuel /\
  forall n rest, parse_int negative s = Parsed (n, rest) ->
                 String.length rest < String.length s.
Proof.
  unfold parse_int.
  pose proof (scan_digits_length s) as [_ Hlt].
  destruct (scan_digits s) as [d rest]. cbn [fst snd] in Hlt.
  assert (Hgen :
    (if starts_fraction_or_exponent rest
     then Unsupported
     else if negative
          then if (N.of_uint d =? 0)%N
               then Unsupported
               else Parsed (NInt (- Z.of_N (N.of_uint d)), rest)
          else Parsed (NInt (Z.of_N (N.of_uint d)), rest)) <> OutOfFuel /\
    forall n rest0,
      (if starts_fraction_or_exponent rest
       then Unsupported
       else if negative
            then if (N.of_uint d =? 0)%N
                 then Unsupported
                 else Parsed (NInt (- Z.of_N (N.of_uint d)), rest)
            else Parsed (NInt (Z.of_N (N.of_uint d)), rest))
      = Parsed (n, rest0) ->
      d <> Nil -> String.length rest0 < String.length s).
  { destruct (starts_fraction_or_exponent rest), negative;
      try destruct (N.of_uint d =? 0)%N;
      (split; [discriminate|]); intros n rest0 H Hd;
      try discriminate H; injection H as _ <-; now apply Hlt. }
  destruct Hgen as [Hf Hp].
  destruct d as [|d|d|d|d|d|d|d|d|d|d];
    try (split; [exact Hf | intros n rest0 H; apply (Hp n rest0 H); discriminate]).
  - split; [discriminate | intros ? ? H; discriminate H].
  - destruct d;
      try (split; [discriminate | intros ? ? H; discriminate H]).
    split; [exact Hf | intros n rest0 H; apply (Hp n rest0 H); discriminate].
Qed.

Lemma parse_number_progress (s : string) :
  parse_number s <> OutOfFuel /\
  forall n rest, parse_number s = Parsed (n, rest) ->
                 String.length rest < String.length s.
Proof.
  destruct s as [|c s]; simpl.
  - split; [discriminate | intros ? ? H; discriminate H].
  - destruct (N_of_ascii c =? 45)%N.
    + destruct (parse_int_progress true s) as [Hf Hp]. split; [exact Hf|].
      intros n rest H. specialize (Hp _ _ H). lia.
    + exact (parse_int_progress false (String c s)).
Qed.

Lemma strip_prefix_length (word s rest : string) :
  strip_prefix word s = Some rest -> String.length rest <= String.length s.
Proof.
  revert s. induction word as [|a word IH]; intros s; simpl.
  - intros [= <-]. lia.
  - destruct s as [|b s]; [discriminate|].
    destruct (Ascii.eqb a b); [|discriminate].
    intros H. apply IH in H. simpl. lia.
Qed.

Lemma expect_progress (word s : string) (v : JSONValue) :
  expect word s v <> OutOfFuel /\
  forall v' rest, expect word s v = Parsed (v', rest) ->
                  String.length rest <= String.length s.
Proof.
  unfold expect. destruct (strip_prefix word s) as [rest|] eqn:E.
  - split; [discriminate|]. intros v' rest' [= _ <-].
    now apply strip_prefix_length in E.
  - split; [discriminate | intros ? ? H; discriminate H].
Qed.

Lemma progresses_error (s : string) :
  progresses SyntaxError s /\ progresses Unsupported s.
Proof.
  split; (split; [discriminate | intros ? ? H; discriminate H]).
Qed.

(** With two units of fuel per character the three mutually recursive
    parsers make progress. *)
Lemma parse_progress (fuel : nat) :
  (forall s, 2 * String.length s + 1 <= fuel ->
             progresses (parse_value fuel s) s) /\
  (forall s acc, 2 * String.length s + 2 <= fuel ->
                 progresses (parse_elements fuel s acc) s) /\
  (forall s acc, 2 * String.length s + 2 <= fuel ->
                 progresses (parse_members fuel s acc) s).
Proof.
  induction fuel as [|fuel (IHv & IHe & IHm)].
  { repeat split; intros; lia. }
  split; [|split].
  - (* parse_value *)
    intros s Hfuel. cbn [parse_value].
    pose proof (skip_ws_length s) as Hskip.
    destruct (skip_ws s) as [|c rest]; [apply progresses_error|].
    cbn [String.length] in Hskip. cbv zeta.
    destruct (N_of_ascii c =? 110)%N.
    { destruct (expect_progress "ull" rest JNull) as [Hf Hp].
      split; [exact Hf|]. intros v r H. specialize (Hp _ _ H). lia. }
    destruct (N_of_ascii c =? 116)%N.
    { destruct (expect_progress "rue" rest (JBool true)) as [Hf Hp].
      split; [exact Hf|]. intros v r H. specialize (Hp _ _ H). lia. }
    destruct (N_of_ascii c =? 102)%N.
    { destruct (expect_progress "alse" rest (JBool false)) as [Hf Hp].
      split; [exact Hf|]. intros v r H. specialize (Hp _ _ H). lia. }
    destruct (N_of_ascii c =? 34)%N.
    { destruct (parse_chars_progress (String.length rest) rest (le_n _))
        as [Hf Hp].
      destruct (parse_chars rest) as [[str r]| | |]; cbn [parse_bind];
        try apply progresses_error; [|congruence].
      split; [discriminate|]. intros v r' [= _ <-].
      specialize (Hp _ _ eq_refl). lia. }
    destruct (N_of_ascii c =? 91)%N.
    { pose proof (skip_ws_length rest) as Hskip'.
      pose proof (tail_length (skip_ws rest)) as Htail.
      destruct (head_is 93 (skip_ws rest)).
      - split; [discriminate|]. intros v r [= _ <-]. lia.
      - destruct (IHe rest [] ltac:(lia)) as [Hf Hp].
        split; [exact Hf|]. intros v r H. specialize (Hp _ _ H). lia. }
    destruct (N_of_ascii c =? 123)%N.
    { pose proof (skip_ws_length rest) as Hskip'.
      pose proof (tail_length (skip_ws rest)) as Htail.
      destruct (head_is 125 (skip_ws rest)).
      - split; [discriminate|]. intros v r [= _ <-]. lia.
      - destruct (IHm rest [] ltac:(lia)) as [Hf Hp].
        split; [exact Hf|]. intros v r H. specialize (Hp _ _ H). lia. }
    destruct ((N_of_ascii c =? 45)%N || is_digit c);
      [|apply progresses_error].
    destruct (parse_number_progress (String c rest)) as [Hf Hp].
    destruct (parse_number (String c rest)) as [[n r]| | |];
      cbn [parse_bind]; try apply progresses_error; [|congruence].
    split; [discriminate|]. intros v r' [= _ <-].
    specialize (Hp _ _ eq_refl). cbn [String.length] in Hp. lia.
  - (* parse_elements *)
    intros s acc Hfuel. cbn [parse_elements].
    destruct (IHv s ltac:(lia)) as [Hf Hp].
    destruct (parse_value fuel s) as [[v r1]| | |]; cbn [parse_bind fst snd];
      try apply progresses_error; [|congruence].
    specialize (Hp _ _ eq_refl).
    pose proof (skip_ws_length r1) as Hskip.
    pose proof (tail_length (skip_ws r1)) as Htail.
    destruct (head_is 44 (skip_ws r1)) eqn:H44.
    + apply head_is_length in H44.
      destruct (IHe (tail (skip_ws r1)) (acc ++ [v]) ltac:(lia)) as [Hf' Hp'].
      split; [exact Hf'|]. intros v' r H. specialize (Hp' _ _ H). lia.
    + destruct (head_is 93 (skip_ws r1)); [|apply progresses_error].
      split; [discriminate|]. intros v' r [= _ <-]. lia.
  - (* parse_members *)
    intros s acc Hfuel. cbn [parse_members]. cbv zeta.
    pose proof (skip_ws_length s) as Hskip.
    destruct (head_is 34 (skip_ws s)) eqn:H34; [|apply progresses_error].
    apply head_is_length in H34.
    destruct (parse_chars_progress (String.length (tail (skip_ws s)))
                (tail (skip_ws s)) (le_n _)) as [Hf Hp].
    destruct (parse_chars (tail (skip_ws s))) as [[k r1]| | |];
      cbn [parse_bind fst snd]; try apply progresses_error; [|congruence].
    specialize (Hp _ _ eq_refl).
    pose proof (skip_ws_length r1) as Hskip1.
    destruct (head_is 58 (skip_ws r1)) eqn:H58; [|apply progresses_error].
    apply head_is_length in H58.
    destruct (IHv (tail (skip_ws r1)) ltac:(lia)) as [Hfv Hpv].
    destruct (parse_value fuel (tail (skip_ws r1))) as [[v r2]| | |];
      cbn [parse_bind fst snd]; try apply progresses_error; [|congruence].
    specialize (Hpv _ _ eq_refl).
    pose proof (skip_ws_length r2) as Hskip2.
    pose proof (tail_length (skip_ws r2)) as Htail2.
    destruct (head_is 44 (skip_ws r2)) eqn:H44.
    + apply head_is_length in H44.
      destruct (IHm (tail (skip_ws r2)) (set_property acc k v) ltac:(lia))
        as [Hf' Hp'].
      split; [exact Hf'|]. intros v' r H. specialize (Hp' _ _ H). lia.
    + destruct (head_is 125 (skip_ws r2)); [|apply progresses_error].
      split; [discriminate|]. intros v' r [= _ <-]. lia.
Qed.

(** [JSON.parse] always answers: a value, a syntax error, or text outside
    the embedding. *)
Lemma JSON_parse_has_fuel (text : string) : JSON_parse text <> OutOfFuel.
Proof.
  unfold JSON_parse.
  destruct (proj1 (parse_progress (S (2 * String.length text))) text
              ltac:(lia)) as [Hf _].
  destruct (parse_value (S (2 * String.length text)) text) as [[v r]| | |];
    cbn [parse_bind fst snd]; try congruence.
  destruct (skip_ws r); discriminate.
Qed.

(* ===================================================================== *)
(** * The pipeline under failure, the wiring guard *)
(* ===================================================================== *)

Section PipelineFailure.

Variable options : RebuildManagerOptions.

(** A collaborator throws: [rebuild] throws the same error, and what it
    did until then is the call of the aggregation and, when that one
    returned, the call of the generation. *)
Lemma rebuild_pipeline_throws (reason : string)
    (mods : list EnvironmentModuleNode) (w : World) (e : Error) :
  pipeline_throws options (clock (host w)) e ->
  exists evs,
    rebuild options reason mods w
      = (Throw e, emit_all (EvReadAndGroup :: evs) w) /\
    existsb is_pipeline_start evs = false /\
    existsb is_invalidation evs = false /\
    existsb is_completion evs = false /\
    existsb is_unhandled_rejection evs = false.
Proof.
  intros [Hr | (g & stats & Hr & Hg)].
  - exists []. rewrite (rebuild_read_throws options reason mods w e Hr).
    repeat split.
  - rewrite (rebuild_generate_throws options reason mods w g stats e Hr Hg).
    eexists. split; [reflexivity|].
    destruct (logger options); repeat split.
Qed.

End PipelineFailure.

(** X1. When the aggregation or the generation throws, [rebuild] throws
    the same error and stops there: no invalidation, no completion
    callback, and the fields of the manager, the timers and the promises
    are left as they were. *)
Theorem rebuild_failure_stops_pipeline :
  forall (options : RebuildManagerOptions) (reason : string)
         (mods : list EnvironmentModuleNode) (w : World) (e : Error),
    pipeline_throws options (clock (host w)) e ->
    exists (w' : World) (evs : list Event),
      rebuild options reason mods w = (Throw e, w') /\
      trace (host w') = trace (host w) ++ evs /\
      existsb is_invalidation evs = false /\
      existsb is_completion evs = false /\
      this w' = this w /\
      timers (host w') = timers (host w) /\
      promises (host w') = promises (host w).
Proof.
  intros options reason mods w e H.
  destruct (rebuild_pipeline_throws options reason mods w e H)
    as (evs & Hrun & _ & Hinv & Hdone & _).
  exists (emit_all (EvReadAndGroup :: evs) w), (EvReadAndGroup :: evs).
  split; [exact Hrun|].
  rewrite trace_emit_all, this_emit_all, timers_emit_all, promises_emit_all.
  cbn [existsb is_invalidation is_completion orb].
  repeat split; assumption.
Qed.

Lemma rebuild_failure_stops_pipeline_witness :
  exists (w' : World) (evs : list Event),
    rebuild Session.options_unreadable "change" Session.test_modules
            (Session.wired 1000)
      = (Throw "ENOENT: no such file or directory", w') /\
    trace (host w') = trace (host (Session.wired 1000)) ++ evs /\
    existsb is_invalidation evs = false /\
    existsb is_completion evs = false /\
    this w' = this (Session.wired 1000) /\
    timers (host w') = timers (host (Session.wired 1000)) /\
    promises (host w') = promises (host (Session.wired 1000)).
Proof.
  apply (rebuild_failure_stops_pipeline Session.options_unreadable "change"
           Session.test_modules (Session.wired 1000)
           "ENOENT: no such file or directory").
  left. reflexivity.
Defined.

(** X2. [invalidateModule] returns [undefined] exactly when the server
    reference is missing or the resolved virtual identifier is missing or
    the empty string; in particular a call of [setServer] with an empty
    identifier leaves the manager unwired. *)
Theorem invalidateModule_undefined_iff :
  forall (options : RebuildManagerOptions)
         (mods : list EnvironmentModuleNode) (w : World),
    (fst (invalidateModule options mods w) = Return None <->
     serverRef (this w) = None \/
     resolvedVirtualId (this w) = None \/
     resolvedVirtualId (this w) = Some EmptyString) /\
    (forall server,
        fst (invalidateModule options mods (setServer server EmptyString w))
        = Return None).
Proof.
  intros options mods w. split.
  - rewrite invalidateModule_eq. cbn [fst]. unfold invalidation_result.
    destruct (serverRef (this w)) as [srv|],
             (resolvedVirtualId (this w)) as [[|c v]|];
      split; intros H; try reflexivity; try discriminate H; auto;
      destruct H as [H|[H|H]]; discriminate H.
  - intros server. rewrite invalidateModule_eq. reflexivity.
Qed.

(* ===================================================================== *)
(** * The debounce bookkeeping, whatever happens *)
(* ===================================================================== *)

Section Discipline.

Variable options : RebuildManagerOptions.

Lemma disciplined_step (w w' : World) :
  disciplined w -> step options w w' -> disciplined w'.
Proof.
  intros [Hone Hclosed] Hstep.
  split; [now apply (one_timer_step options w w')|].
  destruct Hone as [_ Htr].
  destruct Hstep as [server virtualId w|env w|reason mods w|reason mods w
                     |x w Hx|t w].
  - exact Hclosed.
  - exact Hclosed.
  - destruct (debouncedRebuild_cases options reason mods w Htr)
      as [->|(o & evs & ->)].
    + cbn [scheduled host timers]. discriminate.
    + intros _. cbn [set_promises this]. now rewrite this_emit_all.
  - destruct (rebuild_emits options reason mods w) as (o & evs & -> & _).
    cbn [snd]. rewrite timers_emit_all, this_emit_all. exact Hclosed.
  - intros _. unfold expire. apply lastRebuildCall_run_timer.
  - exact Hclosed.
Qed.

Lemma disciplined_steps (w w' : World) :
  disciplined w -> steps options w w' -> disciplined w'.
Proof.
  intros H Hs. induction Hs as [|a b c Hab _ IH]; [exact H|].
  apply IH. now apply (disciplined_step a b).
Qed.

Lemma promise_state_emit_all (p : nat) (evs : list Event) (w : World) :
  promise_state p (emit_all evs w) = promise_state p w.
Proof. unfold promise_state. now rewrite promises_emit_all. Qed.

(** The callback of a timer leaves a settled promise as it is. *)
Lemma settled_run_timer (x : Timer) (w : World) (p : nat)
    (s : PromiseState) :
  promise_state p w = Some s -> s <> Pending ->
  promise_state p (run_timer options x w) = Some s.
Proof.
  intros Hp Hs.
  destruct (run_timer_spec options x w) as (o & evs & _ & _ & ->).
  destruct o as [r|e].
  - rewrite promise_state_settle, promise_state_emit_all.
    change (promise_state p (set_lastRebuildCall 0 w))
      with (promise_state p w).
    rewrite Hp. destruct (p =? timer_resolve x)%nat; [|reflexivity].
    destruct s; [contradiction | reflexivity | reflexivity].
  - rewrite promise_state_emit_all. exact Hp.
Qed.

(** A settled promise stays as it is. *)
Lemma settled_step (p : nat) (s : PromiseState) (w w' : World) :
  one_timer w -> promise_state p w = Some s -> s <> Pending ->
  step options w w' -> promise_state p w' = Some s.
Proof.
  intros [_ Htr] Hp Hs Hstep.
  pose proof (promise_state_lt p w _ Hp) as Hlt.
  destruct Hstep as [server virtualId w|env w|reason mods w|reason mods w
                     |x w Hx|t w].
  - exact Hp.
  - exact Hp.
  - destruct (debouncedRebuild_cases options reason mods w Htr)
      as [->|(o & evs & ->)];
      unfold promise_state in *; cbn [scheduled set_promises host promises];
      now rewrite nth_error_app1.
  - destruct (rebuild_emits options reason mods w) as (o & evs & -> & _).
    cbn [snd]. now rewrite promise_state_emit_all.
  - unfold expire. now apply settled_run_timer.
  - exact Hp.
Qed.

Lemma settled_steps (p : nat) (s : PromiseState) (w w' : World) :
  one_timer w -> promise_state p w = Some s -> s <> Pending ->
  steps options w w' -> promise_state p w' = Some s.
Proof.
  intros H1 Hp Hs Hsteps. induction Hsteps as [w|a b c Hab _ IH];
    [exact Hp|].
  apply IH.
  - now apply (one_timer_step options a b).
  - now apply (settled_step p s a b).
Qed.

(** The trace only grows. *)
Lemma trace_step (w w' : World) :
  one_timer w -> step options w w' ->
  exists evs, trace (host w') = trace (host w) ++ evs.
Proof.
  intros [_ Htr] Hstep.
  destruct Hstep as [server virtualId w|env w|reason mods w|reason mods w
                     |x w Hx|t w].
  - exists []. now rewrite app_nil_r.
  - exists []. now rewrite app_nil_r.
  - destruct (debouncedRebuild_cases options reason mods w Htr)
      as [->|(o & evs & ->)].
    + exists []. now rewrite app_nil_r.
    + exists evs. cbn [set_promises host trace].
      now rewrite trace_emit_all.
  - destruct (rebuild_emits options reason mods w) as (o & evs & -> & _).
    cbn [snd]. eexists. now rewrite trace_emit_all.
  - unfold expire.
    destruct (run_timer_spec options x
                (set_clock (Z.max (clock (host w)) (due x))
                   (set_timers
                      (filter (fun y => negb (timer_id y =? timer_id x)%nat)
                              (timers (host w))) w)))
      as (o & evs & _ & _ & ->).
    destruct o as [r|e]; rewrite ?trace_settle, trace_emit_all;
      eexists; reflexivity.
  - exists []. now rewrite app_nil_r.
Qed.

Lemma trace_steps (w w' : World) :
  one_timer w -> steps options w w' ->
  exists evs, trace (host w') = trace (host w) ++ evs.
Proof.
  intros H1 Hsteps. induction Hsteps as [w|a b c Hab _ IH].
  - exists []. now rewrite app_nil_r.
  - destruct (trace_step a b H1 Hab) as (evs1 & E1).
    destruct (IH (one_timer_step options a b H1 Hab)) as (evs2 & E2).
    exists (evs1 ++ evs2). now rewrite E2, E1, app_assoc.
Qed.

End Discipline.

(** X4. From its construction on, whatever is called and whenever the
    timers expire, the manager has at most one timer armed, that timer is
    the one [rebuildTimer] remembers, and when no timer is armed no
    debounce window is open ([lastRebuildCall] is 0). *)
Theorem debounce_bookkeeping_invariant :
  forall (options : RebuildManagerOptions) (t0 : Z) (w : World),
    steps options (create t0) w ->
    List.length (timers (host w)) <= 1 /\
    (forall x, In x (timers (host w)) ->
               rebuildTimer (this w) = Some (timer_id x)) /\
    (timers (host w) = [] -> lastRebuildCall (this w) = 0%Z).
Proof.
  intros options t0 w Hsteps.
  assert (H0 : disciplined (create t0)).
  { split; [apply create_one_timer | reflexivity]. }
  destruct (disciplined_steps options _ _ H0 Hsteps) as [[Hlen Htr] Hc].
  repeat split; assumption.
Qed.

Lemma debounce_bookkeeping_invariant_witness :
  let w := run_to_idle Session.options
             (snd (run_triggers Session.options
                     [Session.trigger 1000; Session.trigger 1100]
                     (create 0))) in
  List.length (timers (host w)) <= 1 /\
  (forall x, In x (timers (host w)) ->
             rebuildTimer (this w) = Some (timer_id x)) /\
  (timers (host w) = [] -> lastRebuildCall (this w) = 0%Z).
Proof.
  apply (debounce_bookkeeping_invariant Session.options 0).
  eapply steps_trans.
  - apply (steps_run_triggers Session.options
             [Session.trigger 1000; Session.trigger 1100] (create 0)).
    apply create_one_timer.
  - apply steps_run_to_idle.
    apply (one_timer_steps Session.options (create 0)).
    + apply create_one_timer.
    + apply steps_run_triggers. apply create_one_timer.
Defined.

(* ===================================================================== *)
(** * One call of debouncedRebuild *)
(* ===================================================================== *)

(** X5. A call of [debouncedRebuild] with no window open, or less than
    [MAX_WAIT_MS] after the start of the open window, runs nothing: it
    returns a new pending promise, replaces the armed timer by one due
    [DEBOUNCE_MS] later that will resolve this promise with the reason and
    modules of this call, keeps the start of an open window and otherwise
    records the time of the call as the start, and leaves the earlier
    promises as they are. *)
Theorem debouncedRebuild_defers :
  forall (options : RebuildManagerOptions) (reason : string)
         (mods : list EnvironmentModuleNode) (w : World),
    timers_tracked w ->
    (lastRebuildCall (this w) = 0 \/
     clock (host w) - lastRebuildCall (this w) < MAX_WAIT_MS)%Z ->
    let p := fst (debouncedRebuild options reason mods w) in
    let w' := snd (debouncedRebuild options reason mods w) in
    promise_state p w = None /\
    promise_state p w' = Some Pending /\
    trace (host w') = trace (host w) /\
    (exists x,
        timers (host w') = [x] /\
        rebuildTimer (this w') = Some (timer_id x) /\
        due x = (clock (host w) + DEBOUNCE_MS)%Z /\
        timer_resolve x = p /\
        timer_reason x = reason /\
        timer_modules x = mods) /\
    lastRebuildCall (this w') =
      (if (lastRebuildCall (this w) =? 0)%Z then clock (host w)
       else lastRebuildCall (this w)) /\
    (forall q s, promise_state q w = Some s -> promise_state q w' = Some s).
Proof.
  intros options reason mods w Htr Hyoung. cbv zeta.
  rewrite (debouncedRebuild_scheduled options reason mods w Htr Hyoung).
  cbn [fst snd]. unfold promise_state.
  cbn [scheduled host this promises trace timers rebuildTimer
       lastRebuildCall].
  split; [apply nth_error_None; lia|].
  split; [rewrite nth_error_app2 by lia; now rewrite Nat.sub_diag|].
  split; [reflexivity|].
  split; [eexists; repeat split|].
  split; [reflexivity|].
  intros q s Hq. rewrite nth_error_app1; [exact Hq|].
  apply nth_error_Some. congruence.
Qed.

Lemma debouncedRebuild_defers_witness :
  let w := set_clock 1200
             (scheduled 1000 "change" Session.test_modules
                        (Session.wired 1000)) in
  let p := fst (debouncedRebuild Session.options "add"
                                 Session.test_modules w) in
  let w' := snd (debouncedRebuild Session.options "add"
                                  Session.test_modules w) in
  promise_state p w = None /\
  promise_state p w' = Some Pending /\
  trace (host w') = trace (host w) /\
  (exists x,
      timers (host w') = [x] /\
      rebuildTimer (this w') = Some (timer_id x) /\
      due x = (clock (host w) + DEBOUNCE_MS)%Z /\
      timer_resolve x = p /\
      timer_reason x = "add" /\
      timer_modules x = Session.test_modules) /\
  lastRebuildCall (this w') =
    (if (lastRebuildCall (this w) =? 0)%Z then clock (host w)
     else lastRebuildCall (this w)) /\
  (forall q s, promise_state q w = Some s -> promise_state q w' = Some s).
Proof.
  apply (debouncedRebuild_defers Session.options "add" Session.test_modules
           (set_clock 1200
              (scheduled 1000 "change" Session.test_modules
                         (Session.wired 1000)))).
  - intros x [<-|[]]. reflexivity.
  - right. unfold MAX_WAIT_MS. simpl. lia.
Defined.

(** X6. [debouncedRebuild] runs the pipeline during the call exactly when
    a window is open and the call comes [MAX_WAIT_MS] or more after its
    start (the bound itself included); in every other case the pipeline
    does not run during the call. *)
Theorem debouncedRebuild_runs_at_once_iff :
  forall (options : RebuildManagerOptions) (reason : string)
         (mods : list EnvironmentModuleNode) (w : World),
    timers_tracked w ->
    let w' := snd (debouncedRebuild options reason mods w) in
    (rebuild_count w' = S (rebuild_count w) <->
     lastRebuildCall (this w) <> 0%Z /\
     (MAX_WAIT_MS <= clock (host w) - lastRebuildCall (this w))%Z) /\
    (rebuild_count w' = rebuild_count w <->
     lastRebuildCall (this w) = 0%Z \/
     (clock (host w) - lastRebuildCall (this w) < MAX_WAIT_MS)%Z).
Proof.
  intros options reason mods w Htr. cbv zeta.
  destruct (Z.eq_dec (lastRebuildCall (this w)) 0) as [E0|Hne].
  { rewrite (debouncedRebuild_scheduled options reason mods w Htr
               (or_introl E0)).
    cbn [snd]. unfold rebuild_count. cbn [scheduled host trace].
    split; split; intros H; lia. }
  destruct (Z_lt_ge_dec (clock (host w) - lastRebuildCall (this w))
                        MAX_WAIT_MS) as [Hlt|Hge].
  { rewrite (debouncedRebuild_scheduled options reason mods w Htr
               (or_intror Hlt)).
    cbn [snd]. unfold rebuild_count. cbn [scheduled host trace].
    split; split; intros H; lia. }
  rewrite (debouncedRebuild_forced options reason mods w Htr Hne Hge).
  destruct (rebuild_emits options reason mods (pending_cleared w))
    as (o & evs & -> & Hevs).
  cbn [snd].
  assert (Hc : rebuild_count
                 (set_promises
                    (promises (host (emit_all (EvReadAndGroup :: evs)
                                       (pending_cleared w)))
                     ++ [settled o])
                    (emit_all (EvReadAndGroup :: evs) (pending_cleared w)))
               = S (rebuild_count w)).
  { unfold rebuild_count. cbn [set_promises host trace].
    rewrite trace_emit_all, filter_app, length_app.
    cbn [filter is_pipeline_start]. rewrite (filter_none _ _ Hevs).
    unfold pending_cleared.
    cbn [set_timers set_lastRebuildCall host trace List.length]. lia. }
  rewrite Hc.
  split; split; intros H; lia.
Qed.

Lemma debouncedRebuild_runs_at_once_iff_witness :
  let w := set_clock 3000
             (scheduled 1000 "change" Session.test_modules
                        (Session.wired 1000)) in
  let w' := snd (debouncedRebuild Session.options "change"
                                  Session.test_modules w) in
  (rebuild_count w' = S (rebuild_count w) <->
   lastRebuildCall (this w) <> 0%Z /\
   (MAX_WAIT_MS <= clock (host w) - lastRebuildCall (this w))%Z) /\
  (rebuild_count w' = rebuild_count w <->
   lastRebuildCall (this w) = 0%Z \/
   (clock (host w) - lastRebuildCall (this w) < MAX_WAIT_MS)%Z).
Proof.
  apply (debouncedRebuild_runs_at_once_iff Session.options "change"
           Session.test_modules
           (set_clock 3000
              (scheduled 1000 "change" Session.test_modules
                         (Session.wired 1000)))).
  intros x [<-|[]]. reflexivity.
Defined.

(** X7. On the max-wait path of [debouncedRebuild] an error thrown by the
    aggregation or the generation rejects the promise returned to the
    caller with that error; nothing is left unhandled, the completion
    callback does not run, and the manager is idle afterwards. *)
Theorem max_wait_rebuild_error_rejects :
  forall (options : RebuildManagerOptions) (reason : string)
         (mods : list EnvironmentModuleNode) (w : World) (e : Error),
    timers_tracked w ->
    lastRebuildCall (this w) <> 0%Z ->
    (clock (host w) - lastRebuildCall (this w) >= MAX_WAIT_MS)%Z ->
    pipeline_throws options (clock (host w)) e ->
    let p := fst (debouncedRebuild options reason mods w) in
    let w' := snd (debouncedRebuild options reason mods w) in
    promise_state p w' = Some (Rejected e) /\
    idle w' /\
    exists evs,
      trace (host w') = trace (host w) ++ evs /\
      existsb is_unhandled_rejection evs = false /\
      existsb is_completion evs = false /\
      existsb is_invalidation evs = false.
Proof.
  intros options reason mods w e Htr Hne Hge Hthrow. cbv zeta.
  rewrite (debouncedRebuild_forced options reason mods w Htr Hne Hge).
  destruct (rebuild_pipeline_throws options reason mods (pending_cleared w) e
              Hthrow) as (evs & -> & _ & Hinv & Hdone & Hun).
  cbn [fst snd settled]. split; [|split].
  - unfold promise_state. cbn [set_promises host promises].
    rewrite nth_error_app2 by lia. now rewrite Nat.sub_diag.
  - split.
    + cbn [set_promises this]. now rewrite this_emit_all.
    + cbn [set_promises host timers]. now rewrite timers_emit_all.
  - exists (EvReadAndGroup :: evs). cbn [set_promises host trace].
    rewrite trace_emit_all.
    cbn [existsb is_unhandled_rejection is_completion is_invalidation orb].
    repeat split; assumption.
Qed.

Lemma max_wait_rebuild_error_rejects_witness :
  let w := set_clock 3200
             (scheduled 1000 "change" Session.test_modules
                        (Session.wired 1000)) in
  let p := fst (debouncedRebuild Session.options_unreadable "change"
                                 Session.test_modules w) in
  let w' := snd (debouncedRebuild Session.options_unreadable "change"
                                  Session.test_modules w) in
  promise_state p w' = Some (Rejected "ENOENT: no such file or directory") /\
  idle w' /\
  exists evs,
    trace (host w') = trace (host w) ++ evs /\
    existsb is_unhandled_rejection evs = false /\
    existsb is_completion evs = false /\
    existsb is_invalidation evs = false.
Proof.
  apply (max_wait_rebuild_error_rejects Session.options_unreadable "change"
           Session.test_modules
           (set_clock 3200
              (scheduled 1000 "change" Session.test_modules
                         (Session.wired 1000)))
           "ENOENT: no such file or directory").
  - intros x [<-|[]]. reflexivity.
  - simpl. discriminate.
  - unfold MAX_WAIT_MS. simpl. lia.
  - left. reflexivity.
Defined.

(* ===================================================================== *)
(** * Sequences of calls *)
(* ===================================================================== *)

Section Sequences.

Variable options : RebuildManagerOptions.

Lemma follow_closely_app (previous : Z) (ts : list Trigger) (t : Trigger) :
  follow_closely previous (ts ++ [t]) -> follow_closely previous ts.
Proof.
  revert previous. induction ts as [|u ts IH]; intros previous H.
  - exact I.
  - cbn [app follow_closely] in *. destruct H as [Hgap H].
    split; [exact Hgap | now apply IH].
Qed.

(** The callback of a timer fulfils the promise of its call when the
    collaborators return. *)
Lemma run_timer_fulfils (x : Timer) (w : World) :
  collaborators_return options ->
  promise_state (timer_resolve x) w = Some Pending ->
  exists r,
    promise_state (timer_resolve x) (run_timer options x w)
    = Some (Fulfilled r).
Proof.
  intros [Hread Hgen] Hp.
  destruct (Hread (clock (host w))) as (g & stats & Hr).
  destruct (Hgen (clock (host w)) (canonicalize (JObject g)) (root options))
    as (generated & Hg).
  pose proof (rebuild_returns options (timer_reason x) (timer_modules x)
                (set_lastRebuildCall 0 w) g stats generated Hr Hg) as Hrun.
  cbv zeta in Hrun. unfold run_timer. rewrite Hrun. clear Hrun.
  eexists. rewrite promise_state_settle, Nat.eqb_refl.
  rewrite !promise_state_emit_all.
  change (promise_state (timer_resolve x) (set_lastRebuildCall 0 w))
    with (promise_state (timer_resolve x) w).
  rewrite Hp. reflexivity.
Qed.

(** The only armed timer is due: the event loop runs its callback. *)
Lemma advance_to_due (x : Timer) (t : Z) (w : World) :
  timers (host w) = [x] -> (due x <= t)%Z ->
  advance_to options t w =
    set_clock t
      (run_timer options x
         (set_clock (Z.max (clock (host w)) (due x)) (set_timers [] w))).
Proof.
  intros H Hdue. unfold advance_to, expire. rewrite H. cbn [filter].
  destruct (Z.leb_spec (due x) t) as [_|Hlt]; [|lia].
  cbn [fold_left]. rewrite H. cbn [filter]. rewrite Nat.eqb_refl.
  reflexivity.
Qed.

Lemma advance_to_none (t : Z) (w : World) :
  timers (host w) = [] -> advance_to options t w = set_clock t w.
Proof. intros H. unfold advance_to. now rewrite H. Qed.

Lemma one_timer_cases (w : World) :
  one_timer w ->
  timers (host w) = [] \/ exists x, timers (host w) = [x].
Proof.
  intros [Hlen _]. destruct (timers (host w)) as [|x [|y l]];
    [now left | right; now exists x | cbn in Hlen; lia].
Qed.

(** When the event loop has run up to a time after the armed timer was
    due, the manager is idle, the pipeline has run once for that timer,
    and its promise is fulfilled when the collaborators return. *)
Lemma advance_past_due (previous t : Z) (w : World) :
  armed_since previous w ->
  (previous + DEBOUNCE_MS < t)%Z ->
  let w0 := advance_to options t w in
  idle w0 /\
  clock (host w0) = t /\
  rebuild_count w0 = rebuild_count w + List.length (timers (host w)) /\
  (forall p s, promise_state p w = Some s -> s <> Pending ->
               promise_state p w0 = Some s) /\
  (collaborators_return options ->
   forall x, In x (timers (host w)) ->
             exists r, promise_state (timer_resolve x) w0
                       = Some (Fulfilled r)).
Proof.
  intros [[Hone Hclosed] Harmed] Ht. cbv zeta.
  destruct (one_timer_cases w Hone) as [E|(x & E)].
  - rewrite (advance_to_none t w E), E.
    repeat split.
    + cbn [set_clock this]. now apply Hclosed.
    + cbn [set_clock host timers]. exact E.
    + cbn [List.length]. unfold rebuild_count. cbn [set_clock host trace].
      lia.
    + intros p s Hp _. exact Hp.
    + intros _ y [].
  - destruct (Harmed x) as [Hdue Hp]; [rewrite E; now left|].
    rewrite (advance_to_due x t w E) by lia. rewrite E.
    set (w1 := set_clock (Z.max (clock (host w)) (due x)) (set_timers [] w)).
    repeat split.
    + cbn [set_clock this]. apply lastRebuildCall_run_timer.
    + cbn [set_clock host timers]. now rewrite timers_run_timer.
    + unfold rebuild_count at 1. cbn [set_clock host trace].
      fold (rebuild_count (run_timer options x w1)).
      rewrite rebuild_count_run_timer. cbn [List.length].
      unfold rebuild_count, w1. cbn [set_clock set_timers host trace]. lia.
    + intros p s Hps Hs.
      change (promise_state p (run_timer options x w1) = Some s).
      now apply settled_run_timer.
    + intros Hret y [<-|[]].
      change (exists r, promise_state (timer_resolve x)
                          (run_timer options x w1) = Some (Fulfilled r)).
      now apply run_timer_fulfils.
Qed.

(** A call on an idle manager arms the one timer. *)
Lemma debouncedRebuild_idle (reason : string)
    (mods : list EnvironmentModuleNode) (w : World) :
  idle w ->
  debouncedRebuild options reason mods w
  = (List.length (promises (host w)),
     scheduled (clock (host w)) reason mods w).
Proof.
  intros [Hl Ht]. apply debouncedRebuild_scheduled.
  - intros x Hx. rewrite Ht in Hx. destruct Hx.
  - now left.
Qed.

Lemma armed_since_scheduled (t : Z) (reason : string)
    (mods : list EnvironmentModuleNode) (w : World) :
  armed_since t (scheduled t reason mods w).
Proof.
  split; [split; [split|]|].
  - cbn. lia.
  - intros x [<-|[]]. reflexivity.
  - cbn [scheduled host timers]. discriminate.
  - intros x [<-|[]]. cbn [due timer_resolve]. split; [lia|].
    unfold promise_state. cbn [scheduled host promises].
    rewrite nth_error_app2 by lia. now rewrite Nat.sub_diag.
Qed.

Lemma armed_since_one_timer (previous : Z) (w : World) :
  armed_since previous w -> one_timer w.
Proof. now intros [[H _] _]. Qed.

(** Triggers that keep their distance: every one of them gets its own run
    of the pipeline. *)
Lemma run_triggers_apart (ts : list Trigger) :
  forall (previous : Z) (w : World),
    armed_since previous w ->
    keep_apart previous ts ->
    let ps := fst (run_triggers options ts w) in
    let w'' := run_to_idle options (snd (run_triggers options ts w)) in
    List.length ps = List.length ts /\
    rebuild_count w'' =
      rebuild_count w + List.length (timers (host w)) + List.length ts /\
    idle w'' /\
    (collaborators_return options ->
     (forall x, In x (timers (host w)) ->
                exists r, promise_state (timer_resolve x) w''
                          = Some (Fulfilled r)) /\
     (forall p, In p ps ->
                exists r, promise_state p w'' = Some (Fulfilled r))).
Proof.
  induction ts as [|t ts IH]; intros previous w Harmed Hapart.
  - cbn [run_triggers fst snd List.length]. cbv zeta.
    destruct Harmed as [[Hone Hclosed] Harmed].
    destruct (one_timer_cases w Hone) as [E|(x & E)].
    + unfold run_to_idle. rewrite E. cbn [fold_left List.length].
      repeat split; try lia; auto.
      * intros y [].
      * intros p [].
    + rewrite (run_to_idle_single options x w E), E.
      set (w1 := set_clock (Z.max (clock (host w)) (due x))
                           (set_timers [] w)).
      repeat split.
      * rewrite rebuild_count_run_timer. cbn [List.length].
        unfold rebuild_count, w1. cbn [set_clock set_timers host trace].
        lia.
      * apply lastRebuildCall_run_timer.
      * now rewrite timers_run_timer.
      * intros y [<-|[]]. apply run_timer_fulfils; [assumption|].
        apply (Harmed x). rewrite E. now left.
      * intros p [].
  - destruct Hapart as [Hgap Hapart]. cbv zeta.
    destruct (advance_past_due previous (at_time t) w Harmed Hgap)
      as (Hidle & Hclock & Hcount & Hkeep & Hfulfil).
    cbn [run_triggers].
    rewrite (debouncedRebuild_idle (trigger_reason t) (trigger_modules t)
               _ Hidle).
    rewrite Hclock.
    set (w0 := advance_to options (at_time t) w) in *.
    set (w1 := scheduled (at_time t) (trigger_reason t) (trigger_modules t)
                         w0).
    pose proof (armed_since_scheduled (at_time t) (trigger_reason t)
                  (trigger_modules t) w0) as Harmed1. fold w1 in Harmed1.
    specialize (IH (at_time t) w1 Harmed1 Hapart). cbv zeta in IH.
    assert (Hsteps : steps options w1
                       (run_to_idle options
                          (snd (run_triggers options ts w1)))).
    { pose proof (armed_since_one_timer _ _ Harmed1) as H1.
      eapply steps_trans; [apply (steps_run_triggers options ts w1 H1)|].
      apply steps_run_to_idle.
      apply (one_timer_steps options w1); [exact H1|].
      now apply steps_run_triggers. }
    destruct (run_triggers options ts w1) as [ps w2]. cbn [fst snd] in *.
    destruct IH as (Hlen & Hc & Hidle2 & Hps).
    split; [cbn [List.length]; now rewrite Hlen|].
    split.
    { rewrite Hc. unfold w1 at 1 2.
      unfold rebuild_count at 1. cbn [scheduled host trace timers].
      fold (rebuild_count w0). rewrite Hcount. cbn [List.length]. lia. }
    split; [exact Hidle2|].
    intros Hret. destruct (Hps Hret) as [Hmine Hothers]. split.
    + intros x Hx. destruct (Hfulfil Hret x Hx) as (r & Hr).
      exists r.
      apply (settled_steps options _ _ w1 _
               (armed_since_one_timer _ _ Harmed1)); [|discriminate|exact Hsteps].
      unfold promise_state in *. unfold w1. cbn [scheduled host promises].
      rewrite nth_error_app1; [exact Hr|].
      apply nth_error_Some. congruence.
    + intros p [<-|Hp]; [|now apply Hothers].
      apply (Hmine {| timer_id := next_timer (host w0);
                      due := at_time t + DEBOUNCE_MS;
                      timer_reason := trigger_reason t;
                      timer_modules := trigger_modules t;
                      timer_resolve := List.length (promises (host w0)) |}).
      now left.
Qed.

End Sequences.

(** X8. From an idle manager, triggers that keep coming less than
    [DEBOUNCE_MS] apart run no rebuild while the window is younger than
    [MAX_WAIT_MS]; the first trigger that comes [MAX_WAIT_MS] or more after
    the first one runs the pipeline during the call, once, and leaves the
    manager idle.  (The clock does not read 0 at the first trigger: 0 is
    what [lastRebuildCall] holds when no window is open.) *)
Theorem continuous_triggers_rebuild_at_max_wait :
  forall (options : RebuildManagerOptions) (first : Trigger)
         (ts : list Trigger) (forced : Trigger) (w : World),
    idle w ->
    at_time first <> 0%Z ->
    follow_closely (at_time first) (ts ++ [forced]) ->
    (forall t, In t ts -> (at_time t - at_time first < MAX_WAIT_MS)%Z) ->
    (at_time forced - at_time first >= MAX_WAIT_MS)%Z ->
    let before := snd (run_triggers options (first :: ts) w) in
    let w' := snd (run_triggers options (first :: ts ++ [forced]) w) in
    rebuild_count before = rebuild_count w /\
    rebuild_count w' = S (rebuild_count w) /\
    idle w' /\
    clock (host w') = at_time forced.
Proof.
  intros options first ts forced w Hidle Hne Hclose Hyoung Hforced.
  cbv zeta. split.
  - cbn [run_triggers].
    rewrite (debounce_step options (at_time first) first w
               (idle_quiet (at_time first) w Hidle)) by lia.
    set (w1 := scheduled (at_time first) (trigger_reason first)
                         (trigger_modules first) w).
    assert (Hp1 : pending_since (at_time first) (at_time first) w1).
    { destruct Hidle as [Hl _]. subst w1. repeat split.
      - cbn [scheduled this lastRebuildCall]. now rewrite Hl.
      - exact Hne.
      - intros x [<-|[]]. reflexivity.
      - intros x [<-|[]]. reflexivity. }
    pose proof (run_triggers_pending options ts (at_time first)
                  (at_time first) w1 Hp1
                  (follow_closely_app _ _ _ Hclose) Hyoung) as Hrun.
    cbv zeta in Hrun.
    destruct (run_triggers options ts w1) as [ps w2]. cbn [snd] in *.
    destruct Hrun as [_ Htrace].
    unfold rebuild_count. rewrite Htrace. reflexivity.
  - exact (max_wait_escape options first ts forced w Hidle Hne Hclose Hyoung
             Hforced).
Qed.

Lemma continuous_triggers_rebuild_at_max_wait_witness :
  let first := Session.trigger 1000 in
  let ts := [Session.trigger 1250; Session.trigger 1500;
             Session.trigger 1750; Session.trigger 2000;
             Session.trigger 2250; Session.trigger 2500;
             Session.trigger 2750] in
  let forced := Session.trigger 3000 in
  let before := snd (run_triggers Session.options (first :: ts)
                                  (Session.wired 0)) in
  let w' := snd (run_triggers Session.options (first :: ts ++ [forced])
                              (Session.wired 0)) in
  rebuild_count before = rebuild_count (Session.wired 0) /\
  rebuild_count w' = S (rebuild_count (Session.wired 0)) /\
  idle w' /\
  clock (host w') = at_time forced.
Proof.
  apply (continuous_triggers_rebuild_at_max_wait Session.options
           (Session.trigger 1000)
           [Session.trigger 1250; Session.trigger 1500;
            Session.trigger 1750; Session.trigger 2000;
            Session.trigger 2250; Session.trigger 2500;
            Session.trigger 2750]
           (Session.trigger 3000) (Session.wired 0)).
  - split; reflexivity.
  - simpl. discriminate.
  - unfold DEBOUNCE_MS. simpl. repeat split; lia.
  - intros t Ht. unfold MAX_WAIT_MS. simpl in Ht.
    repeat (destruct Ht as [<-|Ht]; [simpl; lia|]). destruct Ht.
  - unfold MAX_WAIT_MS. simpl. lia.
Defined.

(** X9. From an idle manager, triggers that each come more than
    [DEBOUNCE_MS] after the one before are not coalesced, the timers
    expiring when they are due: once the last timer has expired the
    pipeline has run once per trigger, the manager is idle, and when the
    collaborators return every caller's promise is fulfilled. *)
Theorem spaced_triggers_each_rebuild :
  forall (options : RebuildManagerOptions) (first : Trigger)
         (ts : list Trigger) (w : World),
    idle w ->
    keep_apart (at_time first) ts ->
    let ps := fst (run_triggers options (first :: ts) w) in
    let w'' :=
      run_to_idle options (snd (run_triggers options (first :: ts) w)) in
    List.length ps = S (List.length ts) /\
    rebuild_count w'' = rebuild_count w + S (List.length ts) /\
    idle w'' /\
    (collaborators_return options ->
     forall p, In p ps ->
               exists r, promise_state p w'' = Some (Fulfilled r)).
Proof.
  intros options first ts w Hidle Hapart.
  assert (Harmed : armed_since (at_time first - DEBOUNCE_MS - 1) w).
  { split; [split; [now apply idle_one_timer | now destruct Hidle]|].
    intros x Hx. destruct Hidle as [_ Ht]. rewrite Ht in Hx. destruct Hx. }
  assert (Hall : keep_apart (at_time first - DEBOUNCE_MS - 1) (first :: ts)).
  { split; [lia | exact Hapart]. }
  pose proof (run_triggers_apart options (first :: ts) _ w Harmed Hall) as H.
  cbv zeta in H |- *.
  destruct H as (Hlen & Hc & Hi & Hps).
  destruct Hidle as [_ Ht]. rewrite Ht in Hc. cbn [List.length] in Hc, Hlen.
  split; [exact Hlen|]. split; [lia|]. split; [exact Hi|].
  intros Hret. exact (proj2 (Hps Hret)).
Qed.

(** The collaborators of the session return. *)
Lemma session_collaborators_return : collaborators_return Session.options.
Proof.
  split.
  - intros t. eexists _, _. reflexivity.
  - intros t document rootPath. eexists. reflexivity.
Qed.

Lemma spaced_triggers_each_rebuild_witness :
  let first := Session.trigger 1000 in
  let ts := [Session.trigger 1400; Session.trigger 2500] in
  let ps := fst (run_triggers Session.options (first :: ts)
                              (Session.wired 0)) in
  let w'' :=
    run_to_idle Session.options
      (snd (run_triggers Session.options (first :: ts) (Session.wired 0))) in
  List.length ps = S (List.length ts) /\
  rebuild_count w'' = rebuild_count (Session.wired 0) + S (List.length ts) /\
  idle w'' /\
  (forall p, In p ps ->
             exists r, promise_state p w'' = Some (Fulfilled r)).
Proof.
  destruct (spaced_triggers_each_rebuild Session.options
              (Session.trigger 1000)
              [Session.trigger 1400; Session.trigger 2500] (Session.wired 0))
    as (Hlen & Hcount & Hidle & Hps).
  - split; reflexivity.
  - unfold DEBOUNCE_MS. simpl. repeat split; lia.
  - split; [exact Hlen|]. split; [exact Hcount|]. split; [exact Hidle|].
    exact (Hps session_collaborators_return).
Defined.

(** X10. A call of [debouncedRebuild] made while a timer is armed
    abandons the promise of the call that armed it: on either path the
    timer is cancelled, and whatever happens afterwards that promise stays
    pending. *)
Theorem replaced_call_never_settles :
  forall (options : RebuildManagerOptions) (reason : string)
         (mods : list EnvironmentModuleNode) (x : Timer) (w w' : World),
    one_timer w ->
    In x (timers (host w)) ->
    promise_state (timer_resolve x) w = Some Pending ->
    steps options (snd (debouncedRebuild options reason mods w)) w' ->
    promise_state (timer_resolve x) w' = Some Pending.
Proof.
  intros options reason mods x w w' Hone Hx Hp Hsteps.
  pose proof (promise_state_lt _ _ _ Hp) as Hlt.
  refine (orphaned_never_settles options (timer_resolve x) _ w' _ _ Hsteps).
  - apply (one_timer_step options w); [exact Hone|]. apply step_debouncedRebuild.
  - destruct Hone as [_ Htr].
    destruct (debouncedRebuild_cases options reason mods w Htr)
      as [->|(o & evs & ->)]; split.
    + unfold promise_state in *. cbn [scheduled host promises].
      now rewrite nth_error_app1.
    + intros (y & Hy & Hres). cbn [scheduled host timers] in Hy.
      destruct Hy as [<-|[]]. cbn [timer_resolve] in Hres. lia.
    + unfold promise_state in *. cbn [set_promises host promises].
      now rewrite nth_error_app1.
    + intros (y & Hy & _). cbn [set_promises host timers] in Hy.
      rewrite timers_emit_all in Hy. destruct Hy.
Qed.

Lemma replaced_call_never_settles_witness :
  let x := {| timer_id := 1; due := 1300; timer_reason := "change";
              timer_modules := Session.test_modules; timer_resolve := 0 |} in
  let w := scheduled 1000 "change" Session.test_modules
                     (Session.wired 1000) in
  let w' := run_to_idle Session.options
              (snd (debouncedRebuild Session.options "add"
                      Session.test_modules (set_clock 1100 w))) in
  promise_state (timer_resolve x) w' = Some Pending.
Proof.
  apply (replaced_call_never_settles Session.options "add"
           Session.test_modules
           {| timer_id := 1; due := 1300; timer_reason := "change";
              timer_modules := Session.test_modules; timer_resolve := 0 |}
           (set_clock 1100
              (scheduled 1000 "change" Session.test_modules
                         (Session.wired 1000)))).
  - split; [simpl; lia | intros y [<-|[]]; reflexivity].
  - left. reflexivity.
  - reflexivity.
  - apply steps_run_to_idle.
    apply (one_timer_step Session.options
             (set_clock 1100
                (scheduled 1000 "change" Session.test_modules
                           (Session.wired 1000)))).
    + split; [simpl; lia | intros y [<-|[]]; reflexivity].
    + apply step_debouncedRebuild.
Defined.

(** X11. When the aggregation or the generation throws in the rebuild
    that an expired timer runs, the error reaches nobody: it is an
    unhandled rejection of the timer callback, and whatever happens
    afterwards the promise returned to the caller stays pending. *)
Theorem timer_error_is_swallowed :
  forall (options : RebuildManagerOptions) (x : Timer) (w w' : World)
         (e : Error),
    one_timer w ->
    In x (timers (host w)) ->
    promise_state (timer_resolve x) w = Some Pending ->
    pipeline_throws options (Z.max (clock (host w)) (due x)) e ->
    steps options (expire options x w) w' ->
    promise_state (timer_resolve x) w' = Some Pending /\
    In (EvUnhandledRejection e) (trace (host w')).
Proof.
  intros options x w w' e Hone Hx Hp Hthrow Hsteps.
  assert (Hone1 : one_timer (expire options x w)).
  { apply (one_timer_step options w); [exact Hone|]. now apply step_expire. }
  assert (Hnil : filter (fun y => negb (timer_id y =? timer_id x)%nat)
                        (timers (host w)) = []).
  { destruct (one_timer_cases w Hone) as [E|(y & E)];
      rewrite E in *; [destruct Hx|].
    destruct Hx as [->|[]]. cbn [filter]. now rewrite Nat.eqb_refl. }
  set (w0 := set_clock (Z.max (clock (host w)) (due x)) (set_timers [] w)).
  assert (Hexp : expire options x w = run_timer options x w0).
  { unfold expire. now rewrite Hnil. }
  destruct (rebuild_pipeline_throws options (timer_reason x)
              (timer_modules x) (set_lastRebuildCall 0 w0) e Hthrow)
    as (evs & Hrun & _).
  assert (Hrt : run_timer options x w0 =
                emit (EvUnhandledRejection e)
                     (emit_all (EvReadAndGroup :: evs)
                               (set_lastRebuildCall 0 w0))).
  { unfold run_timer. now rewrite Hrun. }
  split.
  - refine (orphaned_never_settles options (timer_resolve x) _ w' Hone1 _
              Hsteps).
    rewrite Hexp, Hrt. split.
    + unfold promise_state. cbn [emit host promises].
      rewrite promises_emit_all. exact Hp.
    + intros (y & Hy & _).
      cbn [emit host timers] in Hy. rewrite timers_emit_all in Hy.
      destruct Hy.
  - destruct (trace_steps options _ _ Hone1 Hsteps) as (more & ->).
    rewrite Hexp, Hrt. cbn [emit host trace].
    apply in_or_app. left. apply in_or_app. right. now left.
Qed.

Lemma timer_error_is_swallowed_witness :
  let x := {| timer_id := 1; due := 1300; timer_reason := "change";
              timer_modules := Session.test_modules; timer_resolve := 0 |} in
  let w := scheduled 1000 "change" Session.test_modules
                     (Session.wired 1000) in
  let w' := expire Session.options_unreadable x w in
  promise_state (timer_resolve x) w' = Some Pending /\
  In (EvUnhandledRejection "ENOENT: no such file or directory")
     (trace (host w')).
Proof.
  apply (timer_error_is_swallowed Session.options_unreadable
           {| timer_id := 1; due := 1300; timer_reason := "change";
              timer_modules := Session.test_modules; timer_resolve := 0 |}
           (scheduled 1000 "change" Session.test_modules
                      (Session.wired 1000))).
  - split; [simpl; lia | intros y [<-|[]]; reflexivity].
  - left. reflexivity.
  - reflexivity.
  - left. reflexivity.
  - apply steps_refl.
Defined.

(* ===================================================================== *)
(** * What a coalesced rebuild is called with; direct calls of rebuild *)
(* ===================================================================== *)

(** X12. In a burst of calls inside one debounce window, the one rebuild
    that runs at the expiry of the last timer is the rebuild of the last
    call: it runs [DEBOUNCE_MS] after that call, with the reason and the
    modules of that call and the wiring of the manager; the reasons and
    modules passed by the earlier calls are not used. *)
Theorem burst_rebuilds_with_last_arguments :
  forall (options : RebuildManagerOptions) (ts : list Trigger) (t : Trigger)
         (w : World),
    idle w ->
    (forall u, In u (ts ++ [t]) ->
               (0 <= at_time t - at_time u < DEBOUNCE_MS)%Z) ->
    let w'' :=
      run_to_idle options (snd (run_triggers options (ts ++ [t]) w)) in
    exists w0,
      clock (host w0) = (at_time t + DEBOUNCE_MS)%Z /\
      trace (host w0) = trace (host w) /\
      serverRef (this w0) = serverRef (this w) /\
      resolvedVirtualId (this w0) = resolvedVirtualId (this w) /\
      environment (this w0) = environment (this w) /\
      trace (host w'') =
        trace (host (snd (rebuild options (trigger_reason t)
                                  (trigger_modules t) w0))) ++
        match fst (rebuild options (trigger_reason t) (trigger_modules t) w0)
        with
        | Return _ => []
        | Throw e => [EvUnhandledRejection e]
        end.
Proof.
  intros options ts t w Hidle Hburst. cbv zeta.
  pose proof (burst_then_expiry options ts t w Hidle Hburst) as H.
  cbv zeta in H.
  destruct H as (_ & _ & Hclock & _ & o & evs & Hrun & Hidle').
  pose proof (after_burst_spec ts t w) as Hspec. cbv zeta in Hspec.
  destruct Hspec as (_ & _ & Htrace & _ & Hs & Hv & He).
  eexists. split; [exact Hclock|].
  split; [exact Htrace|]. split; [exact Hs|]. split; [exact Hv|].
  split; [exact He|].
  rewrite Hidle', Hrun. cbn [fst snd].
  destruct o as [r|e].
  - now rewrite trace_settle, app_nil_r.
  - rewrite !trace_emit_all.
    change (EvReadAndGroup :: evs ++ [EvUnhandledRejection e])
      with ((EvReadAndGroup :: evs) ++ [EvUnhandledRejection e]).
    now rewrite app_assoc.
Qed.

Lemma burst_rebuilds_with_last_arguments_witness :
  let earlier := {| at_time := 1000; trigger_reason := "add";
                    trigger_modules := [Session.virtual_module] |} in
  let t := Session.trigger 1100 in
  let w'' :=
    run_to_idle Session.options
      (snd (run_triggers Session.options ([earlier] ++ [t])
                         (Session.wired 0))) in
  exists w0,
    clock (host w0) = (at_time t + DEBOUNCE_MS)%Z /\
    trace (host w0) = trace (host (Session.wired 0)) /\
    serverRef (this w0) = serverRef (this (Session.wired 0)) /\
    resolvedVirtualId (this w0) = resolvedVirtualId (this (Session.wired 0)) /\
    environment (this w0) = environment (this (Session.wired 0)) /\
    trace (host w'') =
      trace (host (snd (rebuild Session.options (trigger_reason t)
                                (trigger_modules t) w0))) ++
      match fst (rebuild Session.options (trigger_reason t)
                         (trigger_modules t) w0)
      with
      | Return _ => []
      | Throw e => [EvUnhandledRejection e]
      end.
Proof.
  apply (burst_rebuilds_with_last_arguments Session.options
           [{| at_time := 1000; trigger_reason := "add";
               trigger_modules := [Session.virtual_module] |}]
           (Session.trigger 1100) (Session.wired 0)).
  - split; reflexivity.
  - intros u Hu. unfold DEBOUNCE_MS. simpl in Hu.
    repeat (destruct Hu as [<-|Hu]; [simpl; lia|]). destruct Hu.
Defined.

(** X13. A direct call of [rebuild] runs the pipeline once and leaves the
    debounce bookkeeping alone: the fields of the manager, the armed timer,
    the promises and the clock are as before, so a debounced rebuild that
    was pending still runs when its timer expires. *)
Theorem rebuild_leaves_debounce_pending :
  forall (options : RebuildManagerOptions) (reason : string)
         (mods : list EnvironmentModuleNode) (w : World),
    one_timer w ->
    let w' := snd (rebuild options reason mods w) in
    this w' = this w /\
    timers (host w') = timers (host w) /\
    promises (host w') = promises (host w) /\
    clock (host w') = clock (host w) /\
    rebuild_count w' = S (rebuild_count w) /\
    rebuild_count (run_to_idle options w') =
      S (rebuild_count w) + List.length (timers (host w)).
Proof.
  intros options reason mods w Hone. cbv zeta.
  destruct (rebuild_emits options reason mods w) as (o & evs & Hrun & Hevs).
  rewrite Hrun. cbn [snd].
  rewrite this_emit_all, timers_emit_all, promises_emit_all, clock_emit_all.
  assert (Hc : rebuild_count (emit_all (EvReadAndGroup :: evs) w)
               = S (rebuild_count w)).
  { rewrite rebuild_count_emit_all. cbn [filter is_pipeline_start].
    rewrite (filter_none _ _ Hevs). cbn [List.length]. lia. }
  repeat split; [exact Hc|].
  destruct (one_timer_cases w Hone) as [E|(x & E)].
  - unfold run_to_idle. rewrite timers_emit_all, E. cbn [fold_left List.length].
    rewrite Hc. lia.
  - rewrite (run_to_idle_single options x); [|now rewrite timers_emit_all].
    rewrite rebuild_count_run_timer, E. cbn [List.length].
    unfold rebuild_count at 1. cbn [set_clock set_timers host trace].
    fold (rebuild_count (emit_all (EvReadAndGroup :: evs) w)).
    rewrite Hc. lia.
Qed.

Lemma rebuild_leaves_debounce_pending_witness :
  let w := scheduled 1000 "change" Session.test_modules
                     (Session.wired 1000) in
  let w' := snd (rebuild Session.options "manual" Session.test_modules w) in
  this w' = this w /\
  timers (host w') = timers (host w) /\
  promises (host w') = promises (host w) /\
  clock (host w') = clock (host w) /\
  rebuild_count w' = S (rebuild_count w) /\
  rebuild_count (run_to_idle Session.options w') =
    S (rebuild_count w) + List.length (timers (host w)).
Proof.
  apply (rebuild_leaves_debounce_pending Session.options "manual"
           Session.test_modules
           (scheduled 1000 "change" Session.test_modules
                      (Session.wired 1000))).
  split; [simpl; lia | intros y [<-|[]]; reflexivity].
Defined.

(* ===================================================================== *)
(** * How often the pipeline runs, whatever the timing *)
(* ===================================================================== *)

Section Bounds.

Variable options : RebuildManagerOptions.

(** The runs so far and the run an armed timer still owes: the event
    loop only turns the second into the first. *)
Lemma owed_advance_to (t : Z) (w : World) :
  one_timer w ->
  let w' := advance_to options t w in
  rebuild_count w' + List.length (timers (host w'))
    = rebuild_count w + List.length (timers (host w)) /\
  rebuild_count w <= rebuild_count w'.
Proof.
  intros Hone. cbv zeta.
  destruct (one_timer_cases w Hone) as [E|(x & E)].
  - rewrite (advance_to_none options t w E).
    unfold rebuild_count. cbn [set_clock host trace timers]. lia.
  - destruct (Z.leb_spec (due x) t) as [Hdue|Hlater].
    + rewrite (advance_to_due options x t w E Hdue), E.
      set (w1 := run_timer options x
                   (set_clock (Z.max (clock (host w)) (due x))
                      (set_timers [] w))).
      assert (Hc : rebuild_count w1 = S (rebuild_count w)).
      { unfold w1. rewrite rebuild_count_run_timer. reflexivity. }
      assert (Ht : timers (host w1) = []).
      { unfold w1. now rewrite timers_run_timer. }
      change (rebuild_count (set_clock t w1)) with (rebuild_count w1).
      change (timers (host (set_clock t w1))) with (timers (host w1)).
      rewrite Hc, Ht. cbn [List.length]. lia.
    + unfold advance_to. rewrite E. cbn [filter].
      destruct (Z.leb_spec (due x) t) as [Hdue|_]; [lia|].
      cbn [fold_left]. unfold rebuild_count.
      cbn [set_clock host trace timers]. rewrite E. lia.
Qed.

(** One call owes at most one more run, and at least one run follows
    it. *)
Lemma owed_debouncedRebuild (reason : string)
    (mods : list EnvironmentModuleNode) (w : World) :
  one_timer w ->
  let w' := snd (debouncedRebuild options reason mods w) in
  rebuild_count w' + List.length (timers (host w'))
    <= rebuild_count w + List.length (timers (host w)) + 1 /\
  rebuild_count w <= rebuild_count w' /\
  rebuild_count w + 1
    <= rebuild_count w' + List.length (timers (host w')).
Proof.
  intros [_ Htr]. cbv zeta.
  destruct (Z.eq_dec (lastRebuildCall (this w)) 0) as [E0|Hne];
    [|destruct (Z_lt_ge_dec (clock (host w) - lastRebuildCall (this w))
                            MAX_WAIT_MS) as [Hlt|Hge]].
  - rewrite (debouncedRebuild_scheduled options reason mods w Htr
               (or_introl E0)).
    cbn [snd]. unfold rebuild_count.
    cbn [scheduled host trace timers List.length]. lia.
  - rewrite (debouncedRebuild_scheduled options reason mods w Htr
               (or_intror Hlt)).
    cbn [snd]. unfold rebuild_count.
    cbn [scheduled host trace timers List.length]. lia.
  - rewrite (debouncedRebuild_forced options reason mods w Htr Hne Hge).
    destruct (rebuild_emits options reason mods (pending_cleared w))
      as (o & evs & -> & Hevs).
    cbn [snd].
    set (w1 := emit_all (EvReadAndGroup :: evs) (pending_cleared w)).
    assert (Hc : rebuild_count w1 = S (rebuild_count w)).
    { unfold w1. rewrite rebuild_count_emit_all.
      cbn [filter is_pipeline_start]. rewrite (filter_none _ _ Hevs).
      cbn [List.length]. unfold rebuild_count, pending_cleared.
      cbn [set_timers set_lastRebuildCall host trace]. lia. }
    assert (Ht : timers (host w1) = []).
    { unfold w1. now rewrite timers_emit_all. }
    change (rebuild_count
              (set_promises (promises (host w1) ++ [settled o]) w1))
      with (rebuild_count w1).
    change (timers (host
              (set_promises (promises (host w1) ++ [settled o]) w1)))
      with (timers (host w1)).
    rewrite Hc, Ht. cbn [List.length]. lia.
Qed.

Lemma owed_run_to_idle (w : World) :
  one_timer w ->
  rebuild_count (run_to_idle options w)
    = rebuild_count w + List.length (timers (host w)) /\
  timers (host (run_to_idle options w)) = [].
Proof.
  intros Hone. destruct (one_timer_cases w Hone) as [E|(x & E)].
  - unfold run_to_idle. rewrite E. cbn [fold_left List.length].
    split; [lia | exact E].
  - rewrite (run_to_idle_single options x w E), E.
    rewrite rebuild_count_run_timer, timers_run_timer.
    unfold rebuild_count.
    cbn [set_clock set_timers host trace timers List.length].
    split; [lia | reflexivity].
Qed.

Lemma owed_run_triggers (ts : list Trigger) :
  forall w,
    one_timer w ->
    let w' := snd (run_triggers options ts w) in
    one_timer w' /\
    rebuild_count w' + List.length (timers (host w'))
      <= rebuild_count w + List.length (timers (host w)) + List.length ts /\
    rebuild_count w + List.length (timers (host w))
      <= rebuild_count w' + List.length (timers (host w')) /\
    (ts <> [] ->
     rebuild_count w + 1
       <= rebuild_count w' + List.length (timers (host w'))).
Proof.
  induction ts as [|t ts IH]; intros w Hone; cbv zeta.
  - cbn [run_triggers snd List.length].
    split; [exact Hone|]. split; [lia|]. split; [lia|].
    intros H. now contradiction H.
  - cbn [run_triggers].
    pose proof (owed_advance_to (at_time t) w Hone) as Ha. cbv zeta in Ha.
    assert (Hone0 : one_timer (advance_to options (at_time t) w)).
    { apply (one_timer_steps options w); [exact Hone|].
      now apply steps_advance_to. }
    set (w0 := advance_to options (at_time t) w) in *.
    pose proof (owed_debouncedRebuild (trigger_reason t) (trigger_modules t)
                  w0 Hone0) as Hd. cbv zeta in Hd.
    assert (Hone1 : one_timer
                      (snd (debouncedRebuild options (trigger_reason t)
                              (trigger_modules t) w0))).
    { apply (one_timer_step options w0); [exact Hone0|].
      apply step_debouncedRebuild. }
    destruct (debouncedRebuild options (trigger_reason t)
                (trigger_modules t) w0) as [p w1].
    cbn [snd] in Hd, Hone1.
    specialize (IH w1 Hone1). cbv zeta in IH.
    destruct (run_triggers options ts w1) as [ps w2]. cbn [snd] in *.
    destruct IH as (Hone2 & Hup & Hmono & _).
    destruct Hone0 as [Hlen0 _]. cbn [List.length].
    split; [exact Hone2|]. split; [lia|]. split; [lia|].
    intros _. lia.
Qed.

Lemma run_triggers_app (ts1 ts2 : list Trigger) :
  forall w,
    snd (run_triggers options (ts1 ++ ts2) w)
    = snd (run_triggers options ts2 (snd (run_triggers options ts1 w))).
Proof.
  induction ts1 as [|u ts1 IH]; intros w.
  - reflexivity.
  - cbn [app run_triggers].
    destruct (debouncedRebuild options (trigger_reason u)
                (trigger_modules u) (advance_to options (at_time u) w))
      as [p w2].
    specialize (IH w2).
    destruct (run_triggers options (ts1 ++ ts2) w2) as [ps1 wa].
    destruct (run_triggers options ts1 w2) as [ps2 wb].
    cbn [snd] in *. exact IH.
Qed.

(** A run of the pipeline starts at or after every call: the runs that
    had started when the call was made are fewer than the runs at the
    end. *)
Lemma call_is_followed_by_a_run (before after : list Trigger) (t : Trigger)
    (w : World) :
  one_timer w ->
  let at_call :=
    advance_to options (at_time t) (snd (run_triggers options before w)) in
  rebuild_count at_call + 1
    <= rebuild_count
         (run_to_idle options
            (snd (run_triggers options (before ++ t :: after) w))).
Proof.
  intros Hone. cbv zeta.
  rewrite run_triggers_app.
  pose proof (owed_run_triggers before w Hone) as Hb. cbv zeta in Hb.
  destruct Hb as (Hone_b & _).
  set (wb := snd (run_triggers options before w)) in *.
  cbn [run_triggers].
  assert (Hone0 : one_timer (advance_to options (at_time t) wb)).
  { apply (one_timer_steps options wb); [exact Hone_b|].
    now apply steps_advance_to. }
  set (w0 := advance_to options (at_time t) wb) in *.
  pose proof (owed_debouncedRebuild (trigger_reason t) (trigger_modules t)
                w0 Hone0) as Hd. cbv zeta in Hd.
  assert (Hone1 : one_timer
                    (snd (debouncedRebuild options (trigger_reason t)
                            (trigger_modules t) w0))).
  { apply (one_timer_step options w0); [exact Hone0|].
    apply step_debouncedRebuild. }
  destruct (debouncedRebuild options (trigger_reason t)
              (trigger_modules t) w0) as [p w1].
  cbn [snd] in Hd, Hone1.
  pose proof (owed_run_triggers after w1 Hone1) as Ha. cbv zeta in Ha.
  destruct (run_triggers options after w1) as [ps w2]. cbn [snd] in *.
  destruct Ha as (Hone2 & _ & Hmono & _).
  destruct (owed_run_to_idle w2 Hone2) as [Hc _].
  rewrite Hc. lia.
Qed.

End Bounds.

(** X14. Whatever the times of the calls (the timers expiring when they
    are due), debouncing neither loses a trigger nor multiplies the work:
    from an idle manager, after one or more calls of [debouncedRebuild] and
    the expiry of the last timer, every call has been followed by a run of
    the pipeline that started at or after the call (the runs that had
    started when the call was made are fewer than the runs at the end),
    the pipeline has run at most once per call, and no timer is left
    armed. *)
Theorem debounce_runs_between_one_and_n :
  forall (options : RebuildManagerOptions) (ts : list Trigger) (w : World),
    idle w ->
    ts <> [] ->
    let w'' := run_to_idle options (snd (run_triggers options ts w)) in
    (forall before t after,
        ts = before ++ t :: after ->
        rebuild_count
          (advance_to options (at_time t)
             (snd (run_triggers options before w))) + 1
        <= rebuild_count w'') /\
    rebuild_count w + 1 <= rebuild_count w'' /\
    rebuild_count w'' <= rebuild_count w + List.length ts /\
    timers (host w'') = [].
Proof.
  intros options ts w Hidle Hne. cbv zeta.
  split.
  { intros before t after ->.
    apply (call_is_followed_by_a_run options before after t w
             (idle_one_timer w Hidle)). }
  pose proof (owed_run_triggers options ts w (idle_one_timer w Hidle)) as H.
  cbv zeta in H. destruct H as (Hone & Hup & _ & Hlow).
  destruct (owed_run_to_idle options _ Hone) as [Hc Ht].
  destruct Hidle as [_ Hnil]. rewrite Hnil in Hup. cbn [List.length] in Hup.
  specialize (Hlow Hne). rewrite Hc. repeat split; [lia | lia | exact Ht].
Qed.

Lemma debounce_runs_between_one_and_n_witness :
  let ts := [Session.trigger 1000; Session.trigger 1100;
             Session.trigger 1600; Session.trigger 1700;
             Session.trigger 3200] in
  let w'' := run_to_idle Session.options
               (snd (run_triggers Session.options ts (Session.wired 0))) in
  (forall before t after,
      ts = before ++ t :: after ->
      rebuild_count
        (advance_to Session.options (at_time t)
           (snd (run_triggers Session.options before (Session.wired 0)))) + 1
      <= rebuild_count w'') /\
  rebuild_count (Session.wired 0) + 1 <= rebuild_count w'' /\
  rebuild_count w'' <= rebuild_count (Session.wired 0) + List.length ts /\
  timers (host w'') = [].
Proof.
  apply (debounce_runs_between_one_and_n Session.options
           [Session.trigger 1000; Session.trigger 1100;
            Session.trigger 1600; Session.trigger 1700;
            Session.trigger 3200] (Session.wired 0)).
  - split; reflexivity.
  - discriminate.
Defined.

(* ===================================================================== *)
(** * parseExportedMessages *)
(* ===================================================================== *)

Lemma strip_prefix_app (word rest : string) :
  strip_prefix word (word ++ rest) = Some rest.
Proof.
  induction word as [|a word IH]; [reflexivity|].
  cbn [append strip_prefix]. now rewrite Ascii.eqb_refl.
Qed.

Lemma strip_prefix_Some (word s rest : string) :
  strip_prefix word s = Some rest -> s = (word ++ rest)%string.
Proof.
  revert s. induction word as [|a word IH]; intros s H.
  - cbn in H. now injection H as ->.
  - destruct s as [|b s]; [discriminate H|]. cbn [strip_prefix] in H.
    destruct (Ascii.eqb_spec a b) as [->|_]; [|discriminate H].
    cbn [append]. now rewrite (IH s H).
Qed.

(** The text has no default export exactly when the words
    [export default] occur nowhere in it. *)
Lemma match_export_default_None (code : string) :
  match_export_default code = None <->
  forall before after,
    code <> (before ++ "export default" ++ after)%string.
Proof.
  induction code as [|c code IH].
  - split; [|reflexivity].
    intros _ [|b before] after H; discriminate H.
  - cbn [match_export_default].
    destruct (strip_prefix "export default" (String c code)) as [rest|] eqn:E.
    + split; [discriminate|]. intros H. exfalso.
      apply (H EmptyString rest). exact (strip_prefix_Some _ _ _ E).
    + rewrite IH. split.
      * intros H [|b before] after Heq.
        -- cbn [append] in Heq.
           change (String c code = ("export default" ++ after)%string) in Heq.
           rewrite Heq, strip_prefix_app in E. discriminate E.
        -- cbn [append] in Heq. injection Heq as _ Heq.
           exact (H before after Heq).
      * intros H before after Heq.
        apply (H (String c before) after). cbn [append]. now rewrite Heq.
Qed.

Lemma digit_is_token (c : ascii) :
  is_digit c = true -> is_regex_space c = false /\ c <> ";"%char.
Proof.
  intros H.
  destruct c as [[] [] [] [] [] [] [] []]; cbv in H; try discriminate H;
    (split; [reflexivity | discriminate]).
Qed.

Lemma value_start_not_space (c : ascii) :
  value_start c = true -> is_regex_space c = false.
Proof.
  intros H.
  destruct c as [[] [] [] [] [] [] [] []]; cbv in H; try discriminate H;
    reflexivity.
Qed.

(** A decimal numeral ends in a digit. *)
Lemma uint_string_last (d : uint) :
  d <> Nil ->
  exists s z,
    NilEmpty.string_of_uint d = (s ++ String z "")%string /\
    is_digit z = true.
Proof.
  induction d as [|d IH|d IH|d IH|d IH|d IH|d IH|d IH|d IH|d IH|d IH];
    intros Hne; [contradiction | ..];
    (destruct (Decimal.uint_eq_dec d Nil) as [->|Hd];
     [ exists EmptyString; eexists; split; reflexivity
     | destruct (IH Hd) as (s & z & E & Hz);
       cbn [NilEmpty.string_of_uint]; rewrite E;
       eexists (String _ s), z; split; [reflexivity | exact Hz] ]).
Qed.

(** The serialization of a value ends in a character that is neither
    white space nor a semicolon. *)
Lemma stringify_last (v : JSONValue) :
  exists s z,
    JSON_stringify v = (s ++ String z "")%string /\
    is_regex_space z = false /\ z <> ";"%char.
Proof.
  assert (Hnum : forall n : N,
             exists s z,
               NilZero.string_of_uint (N.to_uint n)
               = (s ++ String z "")%string /\
               is_regex_space z = false /\ z <> ";"%char).
  { intros n. rewrite string_of_uint_to_uint.
    destruct (uint_string_last _ (to_uint_nonnil n)) as (s & z & E & Hz).
    exists s, z. split; [exact E | now apply digit_is_token]. }
  destruct v as [|[]|[z| |b]|s|items|members].
  - exists "nul"%string, "l"%char. repeat split. discriminate.
  - exists "tru"%string, "e"%char. repeat split. discriminate.
  - exists "fals"%string, "e"%char. repeat split. discriminate.
  - destruct z as [|p|p]; cbn [JSON_stringify number_to_json].
    + apply (Hnum (Z.to_N 0)).
    + apply (Hnum (Z.to_N (Zpos p))).
    + destruct (Hnum (Npos p)) as (s & c & E & Hc).
      rewrite E. exists (String "-" s), c. split; [reflexivity | exact Hc].
  - exists "nul"%string, "l"%char. repeat split. discriminate.
  - exists "nul"%string, "l"%char. repeat split. discriminate.
  - exists (String "034" (quote_chars s)), "034"%char.
    split; [|split; [reflexivity | discriminate]].
    reflexivity.
  - exists ("[" ++ join "," (map JSON_stringify items))%string, "]"%char.
    split; [|split; [reflexivity | discriminate]].
    reflexivity.
  - exists ("{" ++ join "," (map stringify_member members))%string, "}"%char.
    split; [|split; [reflexivity | discriminate]].
    rewrite stringify_object. reflexivity.
Qed.

Lemma skip_regex_space_gap (gap : string) (c : ascii) (s : string) :
  all_regex_space gap = true ->
  is_regex_space c = false ->
  skip_regex_space (gap ++ String c s) = String c s.
Proof.
  intros Hgap Hc. induction gap as [|g gap IH].
  - cbn [append skip_regex_space]. now rewrite Hc.
  - cbn [all_regex_space] in Hgap. apply andb_true_iff in Hgap.
    destruct Hgap as [Hg Hgap]. cbn [append skip_regex_space].
    rewrite Hg. now apply IH.
Qed.

Lemma all_regex_space_token (a b : string) (z : ascii) :
  is_regex_space z = false ->
  all_regex_space (a ++ String z b) = false.
Proof.
  intros Hz. induction a as [|c a IH]; cbn [append all_regex_space].
  - now rewrite Hz.
  - rewrite IH. apply andb_false_r.
Qed.

Lemma strip_statement_end_eq (s : string) :
  strip_statement_end s =
    if ends_statement s then EmptyString
    else match s with
         | EmptyString => EmptyString
         | String c s' => String c (strip_statement_end s')
         end.
Proof. destruct s; reflexivity. Qed.

(** What [replace] leaves of a text that ends in a token followed by an
    optional semicolon and white space: the text up to the token. *)
Lemma strip_statement_end_token (s tl : string) (z : ascii) :
  is_regex_space z = false -> z <> ";"%char ->
  ends_statement tl = true ->
  strip_statement_end (s ++ String z tl) = (s ++ String z "")%string.
Proof.
  intros Hz Hsemi Htl. induction s as [|c s IH].
  - cbn [append]. rewrite strip_statement_end_eq.
    cbn [ends_statement all_regex_space].
    destruct (Ascii.eqb_spec z ";") as [E|_]; [contradiction|].
    rewrite Hz. cbn [andb].
    rewrite strip_statement_end_eq, Htl. reflexivity.
  - cbn [append]. rewrite strip_statement_end_eq.
    cbn [ends_statement all_regex_space].
    rewrite (all_regex_space_token s tl z Hz), andb_false_r.
    destruct (Ascii.eqb c ";"); now rewrite IH.
Qed.

(** X15. [parseExportedMessages] reads back what a module that exports
    serialized messages carries: for [export default], optional white
    space, [JSON.stringify(v)], an optional semicolon and optional trailing
    white space, it returns [v] (for a value [v] with finite numbers). *)
Theorem parseExportedMessages_reads_module :
  forall (v : JSONValue) (gap terminator trailing : string),
    well_formed v ->
    finite_numbers v ->
    all_regex_space gap = true ->
    all_regex_space trailing = true ->
    terminator = EmptyString \/ terminator = ";"%string ->
    parseExportedMessages
      ("export default" ++ gap ++ JSON_stringify v ++ terminator ++ trailing)
    = Return (Parsed v).
Proof.
  intros v gap terminator trailing Hwf Hfin Hgap Htrail Hterm.
  unfold parseExportedMessages.
  assert (Hmatch :
    match_export_default
      ("export default" ++ gap ++ JSON_stringify v ++ terminator ++ trailing)
    = Some (JSON_stringify v ++ terminator ++ trailing)%string).
  { destruct (stringify_start v) as (c & s & E & Hc).
    change (match_export_default
              ("export default" ++
               gap ++ JSON_stringify v ++ terminator ++ trailing))
      with (match strip_prefix "export default"
                    ("export default" ++
                     gap ++ JSON_stringify v ++ terminator ++ trailing)
            with
            | Some rest => Some (skip_regex_space rest)
            | None =>
                match_export_default
                  ("xport default" ++
                   gap ++ JSON_stringify v ++ terminator ++ trailing)
            end).
    rewrite strip_prefix_app. rewrite E. cbn [append].
    now rewrite (skip_regex_space_gap gap c _ Hgap
                   (value_start_not_space c Hc)). }
  rewrite Hmatch.
  destruct (stringify_last v) as (s & z & E & Hz & Hsemi).
  assert (Hend : ends_statement (terminator ++ trailing) = true).
  { destruct Hterm as [-> | ->].
    - cbn [append]. destruct trailing as [|c trailing]; [reflexivity|].
      cbn [ends_statement]. cbn [all_regex_space] in Htrail.
      destruct (Ascii.eqb_spec c ";") as [->|_]; [discriminate Htrail|].
      exact Htrail.
    - exact Htrail. }
  assert (Hstrip :
    strip_statement_end (JSON_stringify v ++ terminator ++ trailing)
    = JSON_stringify v).
  { rewrite E at 1. rewrite append_assoc. cbn [append].
    rewrite (strip_statement_end_token s _ z Hz Hsemi Hend).
    now rewrite E. }
  rewrite Hstrip, (JSON_parse_stringify v Hwf Hfin). reflexivity.
Qed.

Lemma parseExportedMessages_reads_module_witness :
  parseExportedMessages
    ("export default" ++ " " ++
     JSON_stringify (canonicalize (JObject Session.locales)) ++ ";" ++ "")
  = Return (Parsed (canonicalize (JObject Session.locales))).
Proof.
  apply (parseExportedMessages_reads_module
           (canonicalize (JObject Session.locales)) " " ";" "").
  - simpl; repeat split; repeat constructor; simpl; intuition discriminate.
  - vm_compute; repeat split; discriminate.
  - reflexivity.
  - reflexivity.
  - right. reflexivity.
Defined.

(** X16. [parseExportedMessages] throws its own error,
    [Unexpected virtual JSON module output], exactly when the words
    [export default] occur nowhere in the text it is given. *)
Theorem parseExportedMessages_unexpected_output :
  forall (code : string),
    parseExportedMessages code
      = Throw "Unexpected virtual JSON module output" <->
    (forall before after,
        code <> (before ++ "export default" ++ after)%string).
Proof.
  intros code. rewrite <- match_export_default_None.
  unfold parseExportedMessages.
  destruct (match_export_default code) as [group|].
  - split; discriminate.
  - split; reflexivity.
Qed.
